(** * learning-tracker: the FSRS scheduling engine (fsrs.js) and its
      caller (index.js), embedded in Rocq.

    Numbers.  JavaScript numbers are modelled by exact rationals [Q]:
    rounding, NaN and the infinities have no counterpart.  A computation
    that would leave exact finite arithmetic (a read of a missing array
    element, a division by zero, an invalid Date) yields [None]; every
    function of the engine therefore lives in the option monad.  The
    code does not stop at such a value, so the engine is embedded a
    second time over the numbers with NaN and the infinities (modules
    [Num] and [Ext]): there [processReview] yields [None] only where the
    code throws.  What is said of every reachable state and of every
    returned due date is said of that embedding.

    Time.  A [Date] holds an integral number of milliseconds since the
    epoch, and an ISO-8601 string written by [toISOString] is read back
    by [new Date(string)] to the same value, so timestamps are [Z].

    Math.exp and Math.pow (at a real exponent) are left to the runtime by
    the language standard; the engine is developed for arbitrary total
    functions [Math_exp] and [Math_pow] on numbers, so nothing below
    depends on how they round.  [Math.pow(x, -1)], the one power at a
    literal integral exponent, is the exact reciprocal. *)

From Stdlib Require Import ZArith QArith Qminmax Qround Qabs Lqa Lia.
From Stdlib Require Import String List Bool.
Import ListNotations.

Local Open Scope Q_scope.

(** ** The option monad *)

Definition bind {A B : Type} (m : option A) (k : A -> option B) : option B :=
  match m with
  | Some a => k a
  | None => None
  end.

Notation "x <- m ;; k" := (bind m (fun x => k))
  (at level 61, m at next level, right associativity).

(** ** The parts of the JavaScript runtime the engine uses *)

Module JS.

(** [ToNumber(null)] is [+0]: a nullable field used in arithmetic. *)
Definition ToNumber (v : option Q) : Q :=
  match v with
  | Some q => q
  | None => 0
  end.

(** Truthiness of a nullable number: [null], [undefined] and [0] are falsy. *)
Definition truthy (v : option Q) : bool :=
  match v with
  | Some q => negb (Qeq_bool q 0)
  | None => false
  end.

(** [v || d] for a nullable number [v]. *)
Definition or_else (v : option Q) (d : Q) : Q :=
  if truthy v then ToNumber v else d.

(** [n || d] for an integer counter. *)
Definition or_elseZ (n d : Z) : Z :=
  if (n =? 0)%Z then d else n.

Definition is_integer (q : Q) : bool := Qeq_bool (inject_Z (Qfloor q)) q.

(** [a[i]]: [undefined] unless the number [i] is an index of [a]. *)
Definition index (a : list Q) (i : Q) : option Q :=
  if is_integer i && Qle_bool 0 i then nth_error a (Z.to_nat (Qfloor i)) else None.

(** [a < b] *)
Definition lt (a b : Q) : bool := negb (Qle_bool b a).

(** [a / b]; [b = 0] gives an infinity or NaN. *)
Definition div (a b : Q) : option Q :=
  if Qeq_bool b 0 then None else Some (a / b).

(** [Math.pow(x, n)] at an integral exponent [n]: the exact power;
    [Math.pow(0, n)] is an infinity for negative [n]. *)
Definition Math_pow_int (x : Q) (n : Z) : option Q :=
  if (n <? 0)%Z && Qeq_bool x 0 then None else Some (Qpower x n).

Definition Math_max (a b : Q) : Q := Qmax a b.
Definition Math_min (a b : Q) : Q := Qmin a b.

(** [ToIntegerOrInfinity]: rounding toward zero. *)
Definition truncate (q : Q) : Z := Z.quot (Qnum q) (Z.pos (Qden q)).

(** The largest time value of a [Date], in milliseconds. *)
Definition maxTime : Q := 8640000000000000.

(** [TimeClip]: the time value of [new Date(t)]; [None] is the invalid
    Date, on which [toISOString] throws a RangeError. *)
Definition TimeClip (t : Q) : option Z :=
  if Qle_bool (Qabs t) maxTime then Some (truncate t) else None.

End JS.

(** ** Data model *)

Module Config.
Record t : Type := mk {
  version : string;
  weights : list Q;
  target_retrievability : Q;
  maximum_interval_days : Q
}.
End Config.

Inductive StateTag : Type := new | learning | review | relearning.

Module Fsrs.
Record t : Type := mk {
  state : StateTag;
  stability : option Q;
  difficulty : option Q;
  due : option Z;
  last_reviewed : option Z;
  review_count : Z;
  lapses : Z
}.

Definition set_state (v : StateTag) (s : t) : t :=
  mk v (stability s) (difficulty s) (due s) (last_reviewed s) (review_count s) (lapses s).
Definition set_stability (v : option Q) (s : t) : t :=
  mk (state s) v (difficulty s) (due s) (last_reviewed s) (review_count s) (lapses s).
Definition set_difficulty (v : option Q) (s : t) : t :=
  mk (state s) (stability s) v (due s) (last_reviewed s) (review_count s) (lapses s).
Definition set_due (v : option Z) (s : t) : t :=
  mk (state s) (stability s) (difficulty s) v (last_reviewed s) (review_count s) (lapses s).
Definition set_last_reviewed (v : option Z) (s : t) : t :=
  mk (state s) (stability s) (difficulty s) (due s) v (review_count s) (lapses s).
Definition set_review_count (v : Z) (s : t) : t :=
  mk (state s) (stability s) (difficulty s) (due s) (last_reviewed s) v (lapses s).
Definition set_lapses (v : Z) (s : t) : t :=
  mk (state s) (stability s) (difficulty s) (due s) (last_reviewed s) (review_count s) v.
End Fsrs.

Module Topic.
Record t : Type := mk {
  id : option string;
  topic : string;
  summary : option string;
  tags : list string;
  timestamp : option Z;
  fsrs : option Fsrs.t
}.

Definition set_id (v : option string) (x : t) : t :=
  mk v (topic x) (summary x) (tags x) (timestamp x) (fsrs x).
Definition set_fsrs (v : option Fsrs.t) (x : t) : t :=
  mk (id x) (topic x) (summary x) (tags x) (timestamp x) v.
End Topic.

(** The result object of [calculatePriority]; an absent key is [None]. *)
Module Priority.
Record t : Type := mk {
  priority : Q;
  isOverdue : bool;
  retrievability : option Q;
  daysOverdue : option Q;
  daysUntilDue : option Q
}.
End Priority.

(** What the program reads and writes outside its arguments: the system
    clock, the configuration file, the topics file, the backup directory
    and the source of [crypto.randomUUID]. *)
Module World.
Record t : Type := mk {
  clock : Z;
  config_file : option Config.t;
  topics_file : list Topic.t;
  backups : list (Z * list Topic.t);
  uuid_source : nat -> string;
  uuid_next : nat
}.

Definition set_clock (v : Z) (w : t) : t :=
  mk v (config_file w) (topics_file w) (backups w) (uuid_source w) (uuid_next w).
Definition set_config_file (v : option Config.t) (w : t) : t :=
  mk (clock w) v (topics_file w) (backups w) (uuid_source w) (uuid_next w).
Definition set_topics_file (v : list Topic.t) (w : t) : t :=
  mk (clock w) (config_file w) v (backups w) (uuid_source w) (uuid_next w).
Definition set_backups (v : list (Z * list Topic.t)) (w : t) : t :=
  mk (clock w) (config_file w) (topics_file w) v (uuid_source w) (uuid_next w).
Definition set_uuid_next (v : nat) (w : t) : t :=
  mk (clock w) (config_file w) (topics_file w) (backups w) (uuid_source w) v.
End World.

(** ** fsrs.js *)

Definition DEFAULT_CONFIG : Config.t :=
  Config.mk "4"
    [0.4; 0.6; 2.4; 5.8; 4.93; 0.94; 0.86; 0.01; 1.49; 0.14; 0.94; 2.18; 0.05; 0.34; 1.26]
    0.9
    365.

(** [loadConfig]: the configuration file, created with the defaults when
    it does not exist. *)
Definition loadConfig (w : World.t) : Config.t * World.t :=
  match World.config_file w with
  | None => (DEFAULT_CONFIG, World.set_config_file (Some DEFAULT_CONFIG) w)
  | Some c => (c, w)
  end.

(** [R(t) = (1 + t/(9*S))^(-1)].  The divisor [9 * stability] is positive
    where it is used. *)
Definition retrievability (stability : option Q) (elapsedDays : Q) : option Q :=
  match stability with
  | None => Some 0
  | Some s =>
      if Qle_bool s 0 then Some 0
      else JS.Math_pow_int (1 + elapsedDays / (9 * s)) (-1)
  end.

(** [I = 9 * S * (1/R_target - 1)]. *)
Definition nextInterval (stability : option Q) (targetRetrievability : Q) : option Q :=
  match stability with
  | None => Some 1
  | Some s =>
      if Qle_bool s 0 then Some 1
      else
        inv <- JS.div 1 targetRetrievability ;;
        Some (9 * s * (inv - 1))
  end.

Definition clamp (value min max : Q) : Q :=
  JS.Math_max min (JS.Math_min max value).

Definition initialStability (grade : Q) (weights : list Q) : option Q :=
  JS.index weights (grade - 1).

Definition initialDifficulty (grade : Q) (weights : list Q) : option Q :=
  w4 <- JS.index weights 4 ;;
  w5 <- JS.index weights 5 ;;
  let d0 := w4 - w5 * (grade - 3) in
  Some (clamp d0 1 10).

Definition updateDifficulty (currentDifficulty : Q) (grade : Q) (weights : list Q)
  : option Q :=
  w6 <- JS.index weights 6 ;;
  w7 <- JS.index weights 7 ;;
  meanDifficulty <- JS.index weights 4 ;;
  let delta := - w6 * (grade - 3) in
  let newD := currentDifficulty + delta in
  let revertedD := newD + w7 * (meanDifficulty - newD) in
  Some (clamp revertedD 1 10).

Definition createDefaultFsrsState : Fsrs.t :=
  Fsrs.mk new None None None None 0 0.

Definition msPerDay : Q := 1000 * 60 * 60 * 24.

(** The grades of a review. *)
Definition is_grade (g : Q) : Prop := g == 1 \/ g == 2 \/ g == 3 \/ g == 4.

Section Engine.

(** The runtime's [Math.exp] and [Math.pow]. *)
Variable Math_exp : Q -> Q.
Variable Math_pow : Q -> Q -> Q.

Definition updateStabilitySuccess
  (stability difficulty retrievability : Q) (grade : Q) (weights : list Q)
  : option Q :=
  w8 <- JS.index weights 8 ;;
  w9 <- JS.index weights 9 ;;
  w10 <- JS.index weights 10 ;;
  let hardPenalty :=
    if Qeq_bool grade 2 then JS.or_else (JS.index weights 15) 1 else 1 in
  let easyBonus :=
    if Qeq_bool grade 4 then JS.or_else (JS.index weights 16) 1 else 1 in
  let factor :=
    Math_exp w8 *
    (11 - difficulty) *
    Math_pow stability (- w9) *
    (Math_exp (w10 * (1 - retrievability)) - 1) in
  Some (stability * (1 + factor)).

Definition updateStabilityFailure
  (stability difficulty retrievability : Q) (weights : list Q) : option Q :=
  w11 <- JS.index weights 11 ;;
  w12 <- JS.index weights 12 ;;
  w13 <- JS.index weights 13 ;;
  w14 <- JS.index weights 14 ;;
  let newStability :=
    w11 *
    Math_pow difficulty (- w12) *
    (Math_pow (stability + 1) w13 - 1) *
    Math_exp (w14 * (1 - retrievability)) in
  Some (JS.Math_min newStability stability).

(** [processReview(currentFsrs, grade, config = null)].  The current
    time is read from the clock; a missing [config] is loaded from the
    configuration file.  In exact arithmetic the result is [None] where
    the code goes on with NaN or an infinity (a missing weight, a target
    of 0), and a power of 0 is a number of [Math_pow] where the code has
    [Infinity]; [Ext.processReview] has neither restriction, and returns
    the same state where this function returns one for a new topic or
    for a topic with a positive stability and a positive difficulty. *)
Definition processReview
  (w : World.t) (currentFsrs : Fsrs.t) (grade : Q) (config : option Config.t)
  : option Fsrs.t * World.t :=
  let (config, w) :=
    match config with
    | Some c => (c, w)
    | None => loadConfig w
    end in
  let weights := Config.weights config in
  let targetR := Config.target_retrievability config in
  let maxInterval := Config.maximum_interval_days config in
  let now := World.clock w in
  let newState := currentFsrs in
  let newState := Fsrs.set_last_reviewed (Some now) newState in
  let newState :=
    Fsrs.set_review_count (JS.or_elseZ (Fsrs.review_count currentFsrs) 0 + 1) newState in
  let elapsedDays :=
    match Fsrs.last_reviewed currentFsrs with
    | Some lastReview => inject_Z (now - lastReview) / (1000 * 60 * 60 * 24)
    | None => 0
    end in
  (currentR <-
     (if JS.truthy (Fsrs.stability currentFsrs)
      then retrievability (Fsrs.stability currentFsrs) elapsedDays
      else Some 0) ;;
   newState <-
     (match Fsrs.state currentFsrs with
      | new =>
          s <- initialStability grade weights ;;
          let newState := Fsrs.set_stability (Some s) newState in
          d <- initialDifficulty grade weights ;;
          let newState := Fsrs.set_difficulty (Some d) newState in
          if Qeq_bool grade 1 then
            let newState := Fsrs.set_state learning newState in
            Some (Fsrs.set_lapses 1 newState)
          else
            Some (Fsrs.set_state review newState)
      | _ =>
          d <- updateDifficulty (JS.ToNumber (Fsrs.difficulty currentFsrs)) grade weights ;;
          let newState := Fsrs.set_difficulty (Some d) newState in
          if Qeq_bool grade 1 then
            s <- updateStabilityFailure
                   (JS.ToNumber (Fsrs.stability currentFsrs))
                   (JS.ToNumber (Fsrs.difficulty currentFsrs))
                   currentR
                   weights ;;
            let newState := Fsrs.set_stability (Some s) newState in
            let newState :=
              Fsrs.set_lapses (JS.or_elseZ (Fsrs.lapses currentFsrs) 0 + 1) newState in
            Some (Fsrs.set_state relearning newState)
          else
            s <- updateStabilitySuccess
                   (JS.ToNumber (Fsrs.stability currentFsrs))
                   (JS.ToNumber (Fsrs.difficulty currentFsrs))
                   currentR
                   grade
                   weights ;;
            let newState := Fsrs.set_stability (Some s) newState in
            Some (Fsrs.set_state review newState)
      end) ;;
   interval <- nextInterval (Fsrs.stability newState) targetR ;;
   let interval := JS.Math_min interval maxInterval in
   let interval := JS.Math_max interval 1 in
   dueDate <- JS.TimeClip (inject_Z now + interval * 24 * 60 * 60 * 1000) ;;
   Some (Fsrs.set_due (Some dueDate) newState),
   w).

End Engine.

(** [calculatePriority(topic)]; the current time is read from the clock. *)
Definition calculatePriority (w : World.t) (topic : Topic.t) : option Priority.t :=
  match Topic.fsrs topic with
  | None => Some (Priority.mk 0 false (Some 1) None None)
  | Some fsrs =>
      let now := World.clock w in
      match Fsrs.state fsrs with
      | new => Some (Priority.mk 50 false None None None)
      | _ =>
          match Fsrs.due fsrs with
          | None => Some (Priority.mk 50 false None None None)
          | Some dueDate =>
              let daysUntilDue := inject_Z (dueDate - now) / (1000 * 60 * 60 * 24) in
              let elapsedDays :=
                match Fsrs.last_reviewed fsrs with
                | Some lastReview => inject_Z (now - lastReview) / (1000 * 60 * 60 * 24)
                | None => 0
                end in
              currentR <-
                (if JS.truthy (Fsrs.stability fsrs)
                 then retrievability (Fsrs.stability fsrs) elapsedDays
                 else Some 0) ;;
              if JS.lt daysUntilDue 0 then
                Some (Priority.mk (100 + (1 - currentR) * 100) true (Some currentR)
                        (Some (- daysUntilDue)) None)
              else
                Some (Priority.mk (JS.Math_max 0 (40 - daysUntilDue * 10)) false
                        (Some currentR) None (Some daysUntilDue))
          end
      end
  end.

(** ** index.js *)

Definition MAX_BACKUPS : nat := 10.

(** Backups are named after the time of their creation; sorting the names
    downwards puts the most recent first. *)
Fixpoint insert_desc (b : Z * list Topic.t) (l : list (Z * list Topic.t))
  : list (Z * list Topic.t) :=
  match l with
  | [] => [b]
  | c :: l' => if (fst c <=? fst b)%Z then b :: l else c :: insert_desc b l'
  end.

Definition sort_desc (l : list (Z * list Topic.t)) : list (Z * list Topic.t) :=
  fold_right insert_desc [] l.

(** [createBackup]: copy the topics file (replacing a backup of the same
    name) and keep the [MAX_BACKUPS] most recent copies.  The topics file
    exists from start-up on. *)
Definition createBackup (w : World.t) : World.t :=
  let timestamp := World.clock w in
  let copied :=
    (timestamp, World.topics_file w)
      :: filter (fun b => negb (fst b =? timestamp)%Z) (World.backups w) in
  let backups := sort_desc copied in
  World.set_backups (firstn MAX_BACKUPS backups) w.

(** [atomicWriteTopics]: the temporary file and its renaming are one step. *)
Definition atomicWriteTopics (topics : list Topic.t) (w : World.t) : World.t :=
  World.set_topics_file topics w.

(** [!topic.id]: the id is missing or the empty string. *)
Definition no_id (x : Topic.t) : bool :=
  match Topic.id x with
  | None => true
  | Some s => String.eqb s ""
  end.

(** The migration of one topic in [loadTopics]; the flag is [modified]. *)
Definition migrate (w : World.t) (x : Topic.t) : Topic.t * bool * World.t :=
  let '(x, modified, w) :=
    if no_id x then
      (Topic.set_id (Some (World.uuid_source w (World.uuid_next w))) x,
       true,
       World.set_uuid_next (S (World.uuid_next w)) w)
    else (x, false, w) in
  match Topic.fsrs x with
  | None => (Topic.set_fsrs (Some createDefaultFsrsState) x, true, w)
  | Some _ => (x, modified, w)
  end.

Fixpoint migrate_all (w : World.t) (topics : list Topic.t)
  : list Topic.t * bool * World.t :=
  match topics with
  | [] => ([], false, w)
  | x :: rest =>
      let '(x', modified, w) := migrate w x in
      let '(rest', needsMigration, w) := migrate_all w rest in
      (x' :: rest', modified || needsMigration, w)
  end.

Definition loadTopics (w : World.t) : list Topic.t * World.t :=
  match World.topics_file w with
  | [] => ([], w)
  | content =>
      let '(topics, needsMigration, w) := migrate_all w content in
      if needsMigration
      then (topics, atomicWriteTopics topics (createBackup w))
      else (topics, w)
  end.

(** [topics.findIndex(t => t.id === topicId)], together with the element
    found there. *)
Fixpoint findIndex (topicId : string) (topics : list Topic.t)
  : option (nat * Topic.t) :=
  match topics with
  | [] => None
  | x :: rest =>
      let here :=
        match Topic.id x with
        | Some i => String.eqb i topicId
        | None => false
        end in
      if here then Some (O, x)
      else
        match findIndex topicId rest with
        | Some (n, y) => Some (S n, y)
        | None => None
        end
  end.

(** [topics[index] = x] for an index of [topics]. *)
Fixpoint set_nth (index : nat) (x : Topic.t) (topics : list Topic.t) : list Topic.t :=
  match index, topics with
  | _, [] => []
  | O, _ :: rest => x :: rest
  | S n, y :: rest => y :: set_nth n x rest
  end.

(** What [updateTopic] hands back, or that its updater threw. *)
Inductive UpdateResult : Type :=
| UpdateFailed (error : string)
| UpdateDone (topic : Topic.t)
| UpdateThrew.

Definition updateTopic
  (w : World.t) (topicId : string)
  (updater : World.t -> Topic.t -> option Topic.t * World.t)
  : UpdateResult * World.t :=
  let (topics, w) := loadTopics w in
  match findIndex topicId topics with
  | None => (UpdateFailed "Topic not found", w)
  | Some (index, old) =>
      let w := createBackup w in
      match updater w old with
      | (None, w) => (UpdateThrew, w)
      | (Some updated, w) =>
          let topics := set_nth index updated topics in
          let w := atomicWriteTopics topics w in
          (UpdateDone updated, w)
      end
  end.

(** [Math.round(x * 100) / 100] *)
Definition round2 (x : Q) : Q := inject_Z (Qfloor (x * 100 + 1 / 2)) / 100.

(** The answers of the [log_review_outcome] tool.  The first two are the
    texts "Error: Invalid grade <grade>. Must be 1 (Again), 2 (Hard),
    3 (Good), or 4 (Easy)." and "Error: <error>. Topic ID: <id>"; the
    third is the JSON text of the success report; the last is the
    rejection of the handler's promise after an exception. *)
Inductive ToolAnswer : Type :=
| InvalidGrade (grade : Q)
| ErrorText (error : string) (id : string)
| Report (topic : string) (grade : Q) (state : StateTag)
    (stability difficulty : Q) (next_review : option Z) (review_count lapses : Z)
| Rejected.

(** [[1, 2, 3, 4].includes(grade)] *)
Definition includes (l : list Q) (x : Q) : bool := existsb (Qeq_bool x) l.

Section Server.

Variable Math_exp : Q -> Q.
Variable Math_pow : Q -> Q -> Q.

(** The handler of the tool [log_review_outcome], with arguments [id]
    and [grade]. *)
Definition log_review_outcome (w : World.t) (id : string) (grade : Q)
  : ToolAnswer * World.t :=
  if negb (includes [1; 2; 3; 4] grade) then (InvalidGrade grade, w)
  else
    let (config, w) := loadConfig w in
    let (result, w) :=
      updateTopic w id (fun w topic =>
        let fsrs :=
          match Topic.fsrs topic with
          | Some f => f
          | None => createDefaultFsrsState
          end in
        let (newFsrs, w) :=
          processReview Math_exp Math_pow w fsrs grade (Some config) in
        (f <- newFsrs ;; Some (Topic.set_fsrs (Some f) topic), w)) in
    match result with
    | UpdateFailed error => (ErrorText error id, w)
    | UpdateThrew => (Rejected, w)
    | UpdateDone topic =>
        match Topic.fsrs topic with
        | None => (Rejected, w)
        | Some f =>
            (Report (Topic.topic topic) grade (Fsrs.state f)
               (round2 (JS.ToNumber (Fsrs.stability f)))
               (round2 (JS.ToNumber (Fsrs.difficulty f)))
               (Fsrs.due f) (Fsrs.review_count f) (Fsrs.lapses f),
             w)
        end
    end.

End Server.

(** ** Running the model *)

(** Rational stand-ins for the runtime's transcendental functions, to run
    the model on examples: the Taylor polynomial of degree four of the
    exponential, and the power at the integral part of the exponent.  Both
    are exact at the exponent [0]. *)
Definition exp_taylor (x : Q) : Q :=
  1 + x + x * x / 2 + x * x * x / 6 + x * x * x * x / 24.

Definition pow_floor (x y : Q) : Q := Qpower x (Qfloor y).

Definition world0 : World.t :=
  World.mk 1700000000000 None [] []
    (fun _ => "00000000-0000-4000-8000-000000000000"%string) 0.

Definition topic0 : Topic.t :=
  Topic.mk (Some "a"%string) "monads" None [] None None.

(** ** Vocabulary of the properties *)

(** Two weight vectors that differ at most in the optional entries 15
    and 16. *)
Definition same_mandatory_weights (ws ws' : list Q) : Prop :=
  forall n, n <> 15%nat -> n <> 16%nat -> nth_error ws' n = nth_error ws n.

(** A state whose stability and difficulty have been set. *)
Definition established (st : Fsrs.t) : Prop :=
  (exists s, Fsrs.stability st = Some s) /\
  (exists d, Fsrs.difficulty st = Some d /\ 1 <= d /\ d <= 10).

(** Readiness of a call: a weights vector with its mandatory entries, a
    target retrievability that can be divided by, a clock that has not
    run backwards since the last review, and a due date within the range
    of [Date]. *)
Definition well_formed (c : Config.t) : Prop :=
  (15 <= length (Config.weights c))%nat /\
  ~ Config.target_retrievability c == 0.

Definition in_time (w : World.t) (st : Fsrs.t) (c : Config.t) : Prop :=
  (0 <= World.clock w)%Z /\
  inject_Z (World.clock w)
    + JS.Math_max (Config.maximum_interval_days c) 1 * msPerDay <= JS.maxTime /\
  (forall t, Fsrs.last_reviewed st = Some t -> (t <= World.clock w)%Z).

(** Worlds, topics and states to run the model on. *)
Definition world_later : World.t :=
  World.mk 1700086400000 (Some DEFAULT_CONFIG) [] []
    (fun _ => "00000000-0000-4000-8000-000000000000"%string) 0.

Definition after_good : Fsrs.t :=
  Eval vm_compute in
    match fst (processReview exp_taylor pow_floor world0 createDefaultFsrsState 3
                 (Some DEFAULT_CONFIG)) with
    | Some f => f
    | None => createDefaultFsrsState
    end.

Definition after_lapse : Fsrs.t :=
  Eval vm_compute in
    match fst (processReview exp_taylor pow_floor world_later after_good 1 None) with
    | Some f => f
    | None => createDefaultFsrsState
    end.

Definition topic_new : Topic.t :=
  Topic.mk (Some "a"%string) "monads" None [] None (Some createDefaultFsrsState).

Definition topic_good : Topic.t := Topic.set_fsrs (Some after_good) topic_new.

(** A topic in review with stability 10, last reviewed when it was due. *)
Definition topic_due_at (t : Z) : Topic.t :=
  Topic.set_fsrs (Some (Fsrs.mk review (Some 10) (Some 5) (Some t) (Some t) 4 0))
    topic_new.

(** ** index.js: the other tools *)

(** One element of the argument [topics] of [append_topic]. *)
Module Entry.
Record t : Type := mk {
  topic : string;
  summary : option string;
  tags : option (list string)
}.
End Entry.

(** Truthiness of an optional string: absent and empty are falsy. *)
Definition truthy_string (s : option string) : bool :=
  match s with
  | None => false
  | Some s => negb (String.eqb s "")
  end.

(** [t.summary || null] *)
Definition or_null_string (s : option string) : option string :=
  if truthy_string s then s else None.

(** [t.tags || []]; an array is truthy, also the empty one. *)
Definition or_empty (tags : option (list string)) : list string :=
  match tags with
  | Some l => l
  | None => []
  end.

(** [v || null] for an optional number. *)
Definition or_null (v : option Q) : option Q :=
  if JS.truthy v then v else None.

(** The entries [append_topic] makes of its argument, each with a fresh
    id, the current time and the default scheduling state. *)
Fixpoint new_entries (w : World.t) (topics : list Entry.t) : list Topic.t * World.t :=
  match topics with
  | [] => ([], w)
  | t :: rest =>
      let entry :=
        Topic.mk
          (Some (World.uuid_source w (World.uuid_next w)))
          (Entry.topic t)
          (or_null_string (Entry.summary t))
          (or_empty (Entry.tags t))
          (Some (World.clock w))
          (Some createDefaultFsrsState) in
      let w := World.set_uuid_next (S (World.uuid_next w)) w in
      let (entries, w) := new_entries w rest in
      (entry :: entries, w)
  end.

(** The answer "Logged <n> topic(s): <names>" of [append_topic]. *)
Inductive AppendAnswer : Type :=
| Logged (count : nat) (topicNames : list string).

(** The handler of [append_topic]: one line per entry is appended to the
    topics file.  For an empty array the handler appends an empty line,
    which the topics file of this model cannot hold: [None]. *)
Definition append_topic (w : World.t) (topics : list Entry.t)
  : option (AppendAnswer * World.t) :=
  match topics with
  | [] => None
  | _ =>
      let (entries, w) := new_entries w topics in
      let w := World.set_topics_file (World.topics_file w ++ entries) w in
      Some (Logged (length entries) (map Topic.topic entries), w)
  end.

(** [t.tags?.includes(tag)] *)
Definition has_tag (tag : string) (x : Topic.t) : bool :=
  existsb (String.eqb tag) (Topic.tags x).

(** [topics.slice(start)]: a negative start counts from the end. *)
Definition slice_from {A : Type} (start : Q) (l : list A) : list A :=
  let len := Z.of_nat (length l) in
  let relativeStart := JS.truncate start in
  let k :=
    if (relativeStart <? 0)%Z then Z.max (len + relativeStart) 0
    else Z.min relativeStart len in
  skipn (Z.to_nat k) l.

(** The answers of [get_topics]: the text "No topics logged yet." or the
    JSON text of the topics. *)
Inductive TopicsAnswer : Type :=
| NoTopicsYet
| TopicsJson (topics : list Topic.t).

(** The handler of [get_topics], with the optional arguments [tag] and
    [limit]. *)
Definition get_topics (w : World.t) (tag : option string) (limit : option Q)
  : TopicsAnswer * World.t :=
  let (topics, w) := loadTopics w in
  match topics with
  | [] => (NoTopicsYet, w)
  | _ =>
      let topics :=
        if truthy_string tag
        then filter (has_tag (match tag with Some s => s | None => ""%string end)) topics
        else topics in
      let topics :=
        if JS.truthy limit then slice_from (- JS.ToNumber limit) topics
        else topics in
      (TopicsJson topics, w)
  end.

(** The handler of [clear_topics]; its answer is the fixed text "All
    topics cleared. Backup created.". *)
Definition clear_topics (w : World.t) : World.t :=
  let w := createBackup w in
  World.set_topics_file [] w.

(** A topic with the result of [calculatePriority] spread beside it. *)
Module Scored.
Record t : Type := mk {
  topic : Topic.t;
  result : Priority.t
}.
Definition priority (x : t) : Q := Priority.priority (result x).
End Scored.

(** [topics.map(t => ({ topic: t, ...calculatePriority(t) }))] *)
Fixpoint score_all (w : World.t) (topics : list Topic.t) : option (list Scored.t) :=
  match topics with
  | [] => Some []
  | x :: rest =>
      r <- calculatePriority w x ;;
      scored <- score_all w rest ;;
      Some (Scored.mk x r :: scored)
  end.

(** [sort((a, b) => b.priority - a.priority)]: the stable sort by falling
    priority.  An element goes in front of the first one that is not
    above it. *)
Fixpoint insert_by_priority (x : Scored.t) (l : list Scored.t) : list Scored.t :=
  match l with
  | [] => [x]
  | y :: l' =>
      if Qle_bool (Scored.priority y) (Scored.priority x) then x :: l
      else y :: insert_by_priority x l'
  end.

Definition sort_by_priority (l : list Scored.t) : list Scored.t :=
  fold_right insert_by_priority [] l.

Module Stats.
Record t : Type := mk {
  retrievability : option Q;
  isOverdue : bool;
  daysOverdue : option Q;
  daysUntilDue : option Q;
  priority : Q
}.
End Stats.

(** The response object of [review_next_topic]. *)
Module Next.
Record t : Type := mk {
  id : option string;
  topic : string;
  summary : option string;
  tags : list string;
  state : StateTag;
  stats : option Stats.t
}.
End Next.

(** The answers of [review_next_topic]: the texts "No topics available
    for review." and "No topics with tag <tag> available for review.", or
    the JSON text of the response. *)
Inductive NextAnswer : Type :=
| NoTopicsAvailable
| NoTopicsWithTag (tag : string)
| NextTopic (response : Next.t).

Definition response_of (selected : Scored.t) (include_stats : bool) : Next.t :=
  let topic := Scored.topic selected in
  Next.mk
    (Topic.id topic)
    (Topic.topic topic)
    (Topic.summary topic)
    (Topic.tags topic)
    (match Topic.fsrs topic with
     | Some f => Fsrs.state f
     | None => new
     end)
    (if include_stats then
       Some (Stats.mk
               (Priority.retrievability (Scored.result selected))
               (Priority.isOverdue (Scored.result selected))
               (or_null (Priority.daysOverdue (Scored.result selected)))
               (or_null (Priority.daysUntilDue (Scored.result selected)))
               (Priority.priority (Scored.result selected)))
     else None).

(** The handler of [review_next_topic], with the optional arguments [tag]
    and [include_stats]. *)
Definition review_next_topic (w : World.t) (tag : option string) (include_stats : bool)
  : option (NextAnswer * World.t) :=
  let (topics, w) := loadTopics w in
  match topics with
  | [] => Some (NoTopicsAvailable, w)
  | _ =>
      let tagName := match tag with Some s => s | None => ""%string end in
      let topics :=
        if truthy_string tag then filter (has_tag tagName) topics else topics in
      match topics with
      | [] => Some (NoTopicsWithTag tagName, w)
      | _ =>
          topicsWithPriority <- score_all w topics ;;
          match sort_by_priority topicsWithPriority with
          | [] => None
          | selected :: _ => Some (NextTopic (response_of selected include_stats), w)
          end
      end
  end.

(** ** More vocabulary *)

(** The time since the last review, in days, and the retrievability at
    that time, as [processReview] and [calculatePriority] compute them. *)
Definition elapsedDays_at (now : Z) (f : Fsrs.t) : Q :=
  match Fsrs.last_reviewed f with
  | Some lastReview => inject_Z (now - lastReview) / (1000 * 60 * 60 * 24)
  | None => 0
  end.

Definition currentR_at (now : Z) (f : Fsrs.t) : option Q :=
  if JS.truthy (Fsrs.stability f)
  then retrievability (Fsrs.stability f) (elapsedDays_at now f)
  else Some 0.

(** Backups in the order of their names, the most recent first. *)
Fixpoint newest_first (l : list (Z * list Topic.t)) : Prop :=
  match l with
  | [] => True
  | b :: l' => (forall c, In c l' -> (fst c <= fst b)%Z) /\ newest_first l'
  end.

(** What the migration of [loadTopics] does to one topic: the payload
    stays, an id and a scheduling state are there afterwards, and those
    that were there before are kept. *)
Definition migrated (x x' : Topic.t) : Prop :=
  Topic.topic x' = Topic.topic x /\
  Topic.summary x' = Topic.summary x /\
  Topic.tags x' = Topic.tags x /\
  Topic.timestamp x' = Topic.timestamp x /\
  (exists i, Topic.id x' = Some i) /\
  (exists f, Topic.fsrs x' = Some f) /\
  (no_id x = false -> Topic.id x' = Topic.id x) /\
  (forall f, Topic.fsrs x = Some f -> Topic.fsrs x' = Some f).

(** A topic that [loadTopics] has nothing to add to. *)
Definition complete (x : Topic.t) : Prop :=
  no_id x = false /\ exists f, Topic.fsrs x = Some f.

(** Two worlds with the same clock, files and backups. *)
Definition same_files (w w' : World.t) : Prop :=
  World.clock w' = World.clock w /\
  World.config_file w' = World.config_file w /\
  World.topics_file w' = World.topics_file w /\
  World.backups w' = World.backups w /\
  World.uuid_source w' = World.uuid_source w.

(** A topic as [append_topic] writes it at the time [now]. *)
Definition fresh_entry (now : Z) (e : Entry.t) (x : Topic.t) : Prop :=
  Topic.topic x = Entry.topic e /\
  Topic.summary x = or_null_string (Entry.summary e) /\
  Topic.tags x = or_empty (Entry.tags e) /\
  Topic.timestamp x = Some now /\
  Topic.fsrs x = Some createDefaultFsrsState /\
  exists i, Topic.id x = Some i.

(** [x] stands in [l] before every element of the same priority and has
    the highest priority in [l]. *)
Definition first_of_highest (x : Scored.t) (l : list Scored.t) : Prop :=
  exists l1 l2,
    l = l1 ++ x :: l2 /\
    (forall y, In y l1 -> Scored.priority y < Scored.priority x) /\
    (forall y, In y l2 -> Scored.priority y <= Scored.priority x).

(** The topics [review_next_topic] chooses from. *)
Definition candidates (w : World.t) (tag : option string) : list Topic.t :=
  if truthy_string tag
  then filter (has_tag (match tag with Some s => s | None => ""%string end))
         (fst (loadTopics w))
  else fst (loadTopics w).

(** A topic past its due date. *)
Definition overdue (now : Z) (x : Topic.t) : Prop :=
  exists f dueDate,
    Topic.fsrs x = Some f /\ Fsrs.state f <> new /\
    Fsrs.due f = Some dueDate /\ (dueDate < now)%Z.

(** A topic that was not reviewed after [now]. *)
Definition reviewed_by (now : Z) (x : Topic.t) : Prop :=
  forall f t, Topic.fsrs x = Some f -> Fsrs.last_reviewed f = Some t -> (t <= now)%Z.

(** More worlds and topics to run the model on. *)
Definition topic_b : Topic.t :=
  Topic.mk (Some "b"%string) "functors" None ["fp"%string] None (Some after_good).

Definition world_topics : World.t :=
  World.set_topics_file [topic_new; topic_b] world0.

Definition world_unmigrated : World.t :=
  World.set_topics_file [topic0] world0.

Definition world_backups : World.t :=
  World.set_backups [(1600000000000%Z, [topic0])] world_topics.

Definition world_overdue : World.t :=
  World.set_clock (1700207360000 + 86400000) world_topics.

Definition keep_topic (w : World.t) (x : Topic.t) : option Topic.t * World.t :=
  (Some (Topic.set_fsrs (Some createDefaultFsrsState) x), w).

Definition entries1 : list Entry.t :=
  [Entry.mk "monads" (Some ""%string) None; Entry.mk "functors" None (Some ["fp"%string])].

Definition logged_b : ToolAnswer * World.t :=
  Eval vm_compute in log_review_outcome exp_taylor pow_floor world_topics "b" 3.

Definition appended1 : option (AppendAnswer * World.t) :=
  Eval vm_compute in append_topic world_topics entries1.

Definition next_overdue : option (NextAnswer * World.t) :=
  Eval vm_compute in review_next_topic world_overdue None false.

(** ** The engine on all numbers

    The definitions above compute in exact rationals and stop with [None]
    where a value is not a finite number.  The code does not stop there:
    NaN and the infinities flow on, and only an invalid due date makes
    [processReview] throw.  This part embeds the engine once more over
    the numbers with NaN and the infinities, so that [processReview]
    returns a state exactly where the code returns one.  Finite values
    are still exact rationals; there is one zero. *)

Module Num.

Inductive t : Type :=
| Fin (q : Q)
| PInf
| NInf
| NaN.

(** A value read from an array: [undefined] acts as NaN in arithmetic. *)
Definition of_read (v : option Q) : t :=
  match v with
  | Some q => Fin q
  | None => NaN
  end.

Definition opp (x : t) : t :=
  match x with
  | Fin q => Fin (- q)
  | PInf => NInf
  | NInf => PInf
  | NaN => NaN
  end.

Definition add (x y : t) : t :=
  match x, y with
  | NaN, _ => NaN
  | _, NaN => NaN
  | Fin a, Fin b => Fin (a + b)
  | Fin _, PInf => PInf
  | Fin _, NInf => NInf
  | PInf, Fin _ => PInf
  | NInf, Fin _ => NInf
  | PInf, PInf => PInf
  | NInf, NInf => NInf
  | PInf, NInf => NaN
  | NInf, PInf => NaN
  end.

Definition sub (x y : t) : t := add x (opp y).

(** An infinity times a finite number: the sign decides, zero gives NaN. *)
Definition scale (inf : t) (a : Q) : t :=
  match a ?= 0 with
  | Eq => NaN
  | Gt => inf
  | Lt => opp inf
  end.

Definition mul (x y : t) : t :=
  match x, y with
  | NaN, _ => NaN
  | _, NaN => NaN
  | Fin a, Fin b => Fin (a * b)
  | Fin a, PInf => scale PInf a
  | Fin a, NInf => scale NInf a
  | PInf, Fin b => scale PInf b
  | NInf, Fin b => scale NInf b
  | PInf, PInf => PInf
  | NInf, NInf => PInf
  | PInf, NInf => NInf
  | NInf, PInf => NInf
  end.

(** Division; the zero of this model is the positive one. *)
Definition div (x y : t) : t :=
  match x, y with
  | NaN, _ => NaN
  | _, NaN => NaN
  | Fin a, Fin b =>
      if Qeq_bool b 0 then scale PInf a else Fin (a / b)
  | Fin _, PInf => Fin 0
  | Fin _, NInf => Fin 0
  | PInf, Fin b => if Qle_bool 0 b then PInf else NInf
  | NInf, Fin b => if Qle_bool 0 b then NInf else PInf
  | PInf, PInf => NaN
  | PInf, NInf => NaN
  | NInf, PInf => NaN
  | NInf, NInf => NaN
  end.

(** [x <= y]; false when NaN is involved. *)
Definition le (x y : t) : bool :=
  match x, y with
  | NaN, _ => false
  | _, NaN => false
  | Fin a, Fin b => Qle_bool a b
  | NInf, _ => true
  | _, PInf => true
  | PInf, _ => false
  | _, NInf => false
  end.

Definition is_nan (x : t) : bool :=
  match x with
  | NaN => true
  | _ => false
  end.

(** [Math.min] and [Math.max]: NaN if an argument is NaN. *)
Definition min (x y : t) : t :=
  if is_nan x || is_nan y then NaN else if le x y then x else y.

Definition max (x y : t) : t :=
  if is_nan x || is_nan y then NaN else if le x y then y else x.

(** Truthiness of a nullable number: [null], 0 and NaN are falsy. *)
Definition truthy (v : option t) : bool :=
  match v with
  | None => false
  | Some (Fin q) => negb (Qeq_bool q 0)
  | Some NaN => false
  | Some _ => true
  end.

(** [ToNumber(null)] is 0. *)
Definition ToNumber (v : option t) : t :=
  match v with
  | Some x => x
  | None => Fin 0
  end.

(** [Math.exp], from the runtime's values at finite arguments. *)
Definition exp (Math_exp : Q -> Q) (x : t) : t :=
  match x with
  | Fin q => Fin (Math_exp q)
  | PInf => PInf
  | NInf => Fin 0
  | NaN => NaN
  end.

(** [Math.pow(x, -1)]: the exact reciprocal. *)
Definition reciprocal (x : t) : t :=
  match x with
  | Fin q => if Qeq_bool q 0 then PInf else Fin (/ q)
  | PInf => Fin 0
  | NInf => Fin 0
  | NaN => NaN
  end.

Definition is_odd_integer (q : Q) : bool :=
  JS.is_integer q && Z.odd (Qfloor q).

(** [Math.pow(base, exponent)], by the cases of the language standard;
    [Math_pow] gives the runtime's values where the power is a real
    number. *)
Definition pow (Math_pow : Q -> Q -> Q) (base exponent : t) : t :=
  match exponent with
  | NaN => NaN
  | Fin e =>
      if Qeq_bool e 0 then Fin 1
      else
        match base with
        | NaN => NaN
        | PInf => if Qle_bool 0 e then PInf else Fin 0
        | NInf =>
            if Qle_bool 0 e
            then (if is_odd_integer e then NInf else PInf)
            else Fin 0
        | Fin b =>
            if Qeq_bool b 0 then (if Qle_bool 0 e then Fin 0 else PInf)
            else if Qle_bool 0 b then Fin (Math_pow b e)
            else if JS.is_integer e then Fin (Math_pow b e)
            else NaN
        end
  | PInf =>
      match base with
      | NaN => NaN
      | PInf => PInf
      | NInf => PInf
      | Fin b =>
          match Qabs b ?= 1 with
          | Gt => PInf
          | Eq => NaN
          | Lt => Fin 0
          end
      end
  | NInf =>
      match base with
      | NaN => NaN
      | PInf => Fin 0
      | NInf => Fin 0
      | Fin b =>
          match Qabs b ?= 1 with
          | Gt => Fin 0
          | Eq => NaN
          | Lt => PInf
          end
      end
  end.

Definition is_finite (x : t) : bool :=
  match x with
  | Fin _ => true
  | _ => false
  end.

(** The time value of [new Date(t)]; [None] is the invalid Date. *)
Definition TimeClip (x : t) : option Z :=
  match x with
  | Fin q => JS.TimeClip q
  | _ => None
  end.

(** Equality of numbers, finite ones as rationals. *)
Definition eq (x y : t) : Prop :=
  match x, y with
  | Fin a, Fin b => a == b
  | PInf, PInf => True
  | NInf, NInf => True
  | NaN, NaN => True
  | _, _ => False
  end.

End Num.

Module Ext.

(** The scheduling state, with numbers that need not be finite. *)
Record state : Type := mk {
  tag : StateTag;
  stability : option Num.t;
  difficulty : option Num.t;
  due : option Z;
  last_reviewed : option Z;
  review_count : Z;
  lapses : Z
}.

Definition createDefaultFsrsState : state :=
  mk new None None None None 0 0.

(** [weights[i]] *)
Definition index (weights : list Q) (i : Q) : Num.t :=
  Num.of_read (JS.index weights i).

Definition retrievability (stability : option Num.t) (elapsedDays : Num.t) : Num.t :=
  match stability with
  | None => Num.Fin 0
  | Some s =>
      if Num.le s (Num.Fin 0) then Num.Fin 0
      else
        Num.reciprocal
          (Num.add (Num.Fin 1) (Num.div elapsedDays (Num.mul (Num.Fin 9) s)))
  end.

Definition nextInterval (stability : option Num.t) (targetRetrievability : Num.t)
  : Num.t :=
  match stability with
  | None => Num.Fin 1
  | Some s =>
      if Num.le s (Num.Fin 0) then Num.Fin 1
      else
        Num.mul (Num.mul (Num.Fin 9) s)
          (Num.sub (Num.div (Num.Fin 1) targetRetrievability) (Num.Fin 1))
  end.

Definition clamp (value min max : Num.t) : Num.t :=
  Num.max min (Num.min max value).

Definition initialStability (grade : Q) (weights : list Q) : Num.t :=
  index weights (grade - 1).

Definition initialDifficulty (grade : Q) (weights : list Q) : Num.t :=
  let d0 :=
    Num.sub (index weights 4) (Num.mul (index weights 5) (Num.Fin (grade - 3))) in
  clamp d0 (Num.Fin 1) (Num.Fin 10).

Definition updateDifficulty (currentDifficulty : Num.t) (grade : Q) (weights : list Q)
  : Num.t :=
  let w6 := index weights 6 in
  let w7 := index weights 7 in
  let meanDifficulty := index weights 4 in
  let delta := Num.mul (Num.opp w6) (Num.Fin (grade - 3)) in
  let newD := Num.add currentDifficulty delta in
  let revertedD := Num.add newD (Num.mul w7 (Num.sub meanDifficulty newD)) in
  clamp revertedD (Num.Fin 1) (Num.Fin 10).

Section Engine.

Variable Math_exp : Q -> Q.
Variable Math_pow : Q -> Q -> Q.

Definition updateStabilitySuccess
  (stability difficulty retrievability : Num.t) (grade : Q) (weights : list Q)
  : Num.t :=
  let w8 := index weights 8 in
  let w9 := index weights 9 in
  let w10 := index weights 10 in
  let hardPenalty :=
    if Qeq_bool grade 2 then JS.or_else (JS.index weights 15) 1 else 1 in
  let easyBonus :=
    if Qeq_bool grade 4 then JS.or_else (JS.index weights 16) 1 else 1 in
  let factor :=
    Num.mul
      (Num.mul
         (Num.mul (Num.exp Math_exp w8) (Num.sub (Num.Fin 11) difficulty))
         (Num.pow Math_pow stability (Num.opp w9)))
      (Num.sub
         (Num.exp Math_exp (Num.mul w10 (Num.sub (Num.Fin 1) retrievability)))
         (Num.Fin 1)) in
  Num.mul stability (Num.add (Num.Fin 1) factor).

Definition updateStabilityFailure
  (stability difficulty retrievability : Num.t) (weights : list Q) : Num.t :=
  let w11 := index weights 11 in
  let w12 := index weights 12 in
  let w13 := index weights 13 in
  let w14 := index weights 14 in
  let newStability :=
    Num.mul
      (Num.mul
         (Num.mul w11 (Num.pow Math_pow difficulty (Num.opp w12)))
         (Num.sub (Num.pow Math_pow (Num.add stability (Num.Fin 1)) w13) (Num.Fin 1)))
      (Num.exp Math_exp (Num.mul w14 (Num.sub (Num.Fin 1) retrievability))) in
  Num.min newStability stability.

(** [processReview(currentFsrs, grade, config = null)]; [None] is the
    RangeError that [toISOString] throws for an invalid due date. *)
Definition processReview
  (w : World.t) (currentFsrs : state) (grade : Q) (config : option Config.t)
  : option state * World.t :=
  let (config, w) :=
    match config with
    | Some c => (c, w)
    | None => loadConfig w
    end in
  let weights := Config.weights config in
  let targetR := Num.Fin (Config.target_retrievability config) in
  let maxInterval := Num.Fin (Config.maximum_interval_days config) in
  let now := World.clock w in
  let last_reviewed' := Some now in
  let review_count' := (JS.or_elseZ (review_count currentFsrs) 0 + 1)%Z in
  let elapsedDays :=
    match last_reviewed currentFsrs with
    | Some lastReview => inject_Z (now - lastReview) / (1000 * 60 * 60 * 24)
    | None => 0
    end in
  let currentR :=
    if Num.truthy (stability currentFsrs)
    then retrievability (stability currentFsrs) (Num.Fin elapsedDays)
    else Num.Fin 0 in
  let newState :=
    match tag currentFsrs with
    | new =>
        let stability' := initialStability grade weights in
        let difficulty' := initialDifficulty grade weights in
        if Qeq_bool grade 1 then
          mk learning (Some stability') (Some difficulty') (due currentFsrs)
            last_reviewed' review_count' 1
        else
          mk review (Some stability') (Some difficulty') (due currentFsrs)
            last_reviewed' review_count' (lapses currentFsrs)
    | _ =>
        let difficulty' :=
          updateDifficulty (Num.ToNumber (difficulty currentFsrs)) grade weights in
        if Qeq_bool grade 1 then
          let stability' :=
            updateStabilityFailure
              (Num.ToNumber (stability currentFsrs))
              (Num.ToNumber (difficulty currentFsrs))
              currentR
              weights in
          mk relearning (Some stability') (Some difficulty') (due currentFsrs)
            last_reviewed' review_count'
            (JS.or_elseZ (lapses currentFsrs) 0 + 1)
        else
          let stability' :=
            updateStabilitySuccess
              (Num.ToNumber (stability currentFsrs))
              (Num.ToNumber (difficulty currentFsrs))
              currentR
              grade
              weights in
          mk review (Some stability') (Some difficulty') (due currentFsrs)
            last_reviewed' review_count' (lapses currentFsrs)
    end in
  let interval := nextInterval (stability newState) targetR in
  let interval := Num.min interval maxInterval in
  let interval := Num.max interval (Num.Fin 1) in
  (match
     Num.TimeClip
       (Num.add (Num.Fin (inject_Z now))
          (Num.mul
             (Num.mul (Num.mul (Num.mul interval (Num.Fin 24)) (Num.Fin 60))
                (Num.Fin 60))
             (Num.Fin 1000)))
   with
   | Some dueDate =>
       Some (mk (tag newState) (stability newState) (difficulty newState)
               (Some dueDate) (last_reviewed newState) (review_count newState)
               (lapses newState))
   | None => None
   end,
   w).

(** The states a topic goes through under configurations that satisfy
    [ok]: the default state, and every state that [processReview] returns
    for a grade 1 to 4, at any time. *)
Inductive reachable (ok : Config.t -> Prop) : state -> Prop :=
| reachable_default : reachable ok createDefaultFsrsState
| reachable_review (st st' : state) (w w' : World.t) (g : Q) (c : option Config.t) :
    reachable ok st ->
    is_grade g ->
    ok (match c with Some c' => c' | None => fst (loadConfig w) end) ->
    processReview w st g c = (Some st', w') ->
    reachable ok st'.

End Engine.

(** The scheduling invariant: outside [new], stability and difficulty are
    there, the stability is not NaN and the difficulty is a number
    between 1 and 10. *)
Definition invariant (st : state) : Prop :=
  tag st <> new ->
  (exists s, stability st = Some s /\ s <> Num.NaN) /\
  (exists d, difficulty st = Some (Num.Fin d) /\ 1 <= d /\ d <= 10).

(** A state with a positive stability and a positive difficulty. *)
Definition steady (st : state) : Prop :=
  exists s d,
    stability st = Some (Num.Fin s) /\ 0 < s /\
    difficulty st = Some (Num.Fin d) /\ 0 < d.

(** A clock from 1970 on that has not run backwards since the last
    review, and a due date within the range of [Date]. *)
Definition in_time (w : World.t) (st : state) (c : Config.t) : Prop :=
  (0 <= World.clock w)%Z /\
  inject_Z (World.clock w)
    + JS.Math_max (Config.maximum_interval_days c) 1 * msPerDay <= JS.maxTime /\
  (forall t, last_reviewed st = Some t -> (t <= World.clock w)%Z).

End Ext.

(** Configurations of any kind, and those whose weights reach index 5. *)
Definition any_config (c : Config.t) : Prop := True.

Definition weights_to_5 (c : Config.t) : Prop :=
  (6 <= length (Config.weights c))%nat.

(** A configuration with four weights, and one with a maximum interval
    of half a day. *)
Definition short_config : Config.t :=
  Config.mk "4" [0.4; 0.6; 2.4; 5.8] 0.9 365.

Definition half_day_config : Config.t :=
  Config.mk "4" (Config.weights DEFAULT_CONFIG) 0.9 0.5.

(** A state of the exact engine as a state of the engine on all numbers. *)
Definition of_exact (f : Fsrs.t) : Ext.state :=
  Ext.mk (Fsrs.state f)
    (option_map Num.Fin (Fsrs.stability f))
    (option_map Num.Fin (Fsrs.difficulty f))
    (Fsrs.due f) (Fsrs.last_reviewed f) (Fsrs.review_count f) (Fsrs.lapses f).

Definition same_number (a b : option Num.t) : Prop :=
  match a, b with
  | None, None => True
  | Some x, Some y => Num.eq x y
  | _, _ => False
  end.

(** Two states with the same fields, numbers compared as rationals. *)
Definition same_state (a b : Ext.state) : Prop :=
  Ext.tag a = Ext.tag b /\
  same_number (Ext.stability a) (Ext.stability b) /\
  same_number (Ext.difficulty a) (Ext.difficulty b) /\
  Ext.due a = Ext.due b /\
  Ext.last_reviewed a = Ext.last_reviewed b /\
  Ext.review_count a = Ext.review_count b /\
  Ext.lapses a = Ext.lapses b.

(** A state of the exact engine with a positive stability and a positive
    difficulty. *)
Definition exact_steady (f : Fsrs.t) : Prop :=
  exists s d,
    Fsrs.stability f = Some s /\ 0 < s /\
    Fsrs.difficulty f = Some d /\ 0 < d.

(** Runs of the engine on all numbers. *)
Definition nan_state : Ext.state :=
  Eval vm_compute in
    match fst (Ext.processReview exp_taylor pow_floor world0
                 Ext.createDefaultFsrsState 3 (Some short_config)) with
    | Some f => f
    | None => Ext.createDefaultFsrsState
    end.

Definition ext_good : Ext.state :=
  Eval vm_compute in
    match fst (Ext.processReview exp_taylor pow_floor world0
                 Ext.createDefaultFsrsState 3 (Some DEFAULT_CONFIG)) with
    | Some f => f
    | None => Ext.createDefaultFsrsState
    end.

Definition ext_lapse : Ext.state :=
  Eval vm_compute in
    match fst (Ext.processReview exp_taylor pow_floor world_later ext_good 1 None) with
    | Some f => f
    | None => Ext.createDefaultFsrsState
    end.

Definition ext_half_day : Ext.state :=
  Eval vm_compute in
    match fst (Ext.processReview exp_taylor pow_floor world0
                 Ext.createDefaultFsrsState 3 (Some half_day_config)) with
    | Some f => f
    | None => Ext.createDefaultFsrsState
    end.

(** A topic in review whose stability is 0. *)
Definition zero_stability : Ext.state :=
  Ext.mk review (Some (Num.Fin 0)) (Some (Num.Fin 5)) (Some 1700086400000%Z)
    (Some 1700000000000%Z) 1 0.

(** ** Properties *)

(** *** The runtime functions *)

Lemma Qle_bool_false (a b : Q) : Qle_bool a b = false <-> b < a.
Proof.
  split; intros H.
  - apply Qnot_le_lt. intros Hle. apply Qle_bool_iff in Hle. congruence.
  - destruct (Qle_bool a b) eqn:E; [| reflexivity].
    apply Qle_bool_iff in E. lra.
Qed.

Lemma Qeq_bool_false (a b : Q) : Qeq_bool a b = false <-> ~ a == b.
Proof.
  split; intros H.
  - now apply Qeq_bool_neq.
  - destruct (Qeq_bool a b) eqn:E; [| reflexivity].
    apply Qeq_bool_iff in E. contradiction.
Qed.

Lemma Math_min_le_r (a b : Q) : JS.Math_min a b <= b.
Proof. apply Q.le_min_r. Qed.

Lemma Math_min_le_l (a b : Q) : JS.Math_min a b <= a.
Proof. apply Q.le_min_l. Qed.

Lemma Math_max_ge_l (a b : Q) : a <= JS.Math_max a b.
Proof. apply Q.le_max_l. Qed.

Lemma Math_max_ge_r (a b : Q) : b <= JS.Math_max a b.
Proof. apply Q.le_max_r. Qed.

Lemma Math_max_le (a b c : Q) : a <= c -> b <= c -> JS.Math_max a b <= c.
Proof. intros Ha Hb. now apply Q.max_lub. Qed.

Lemma clamp_range (value lo hi : Q) :
  lo <= hi -> lo <= clamp value lo hi /\ clamp value lo hi <= hi.
Proof.
  intros H. unfold clamp. split.
  - apply Math_max_ge_l.
  - apply Math_max_le; [exact H | apply Math_min_le_l].
Qed.

Lemma div_Some (a b : Q) : ~ b == 0 -> JS.div a b = Some (a / b).
Proof.
  intros H. unfold JS.div. now rewrite (proj2 (Qeq_bool_false b 0) H).
Qed.

Lemma Math_pow_int_inv (x : Q) :
  ~ x == 0 -> JS.Math_pow_int x (-1) = Some (Qpower x (-1)) /\ Qpower x (-1) == / x.
Proof.
  intros H. unfold JS.Math_pow_int.
  rewrite (proj2 (Qeq_bool_false x 0) H). simpl. split; reflexivity.
Qed.

(** A literal index reads the list at that position. *)
Lemma index_literal (a : list Q) (n : nat) :
  JS.index a (inject_Z (Z.of_nat n)) = nth_error a n.
Proof.
  unfold JS.index, JS.is_integer.
  rewrite Qfloor_Z, Nat2Z.id.
  rewrite (proj2 (Qeq_bool_iff _ _) (Qeq_refl _)).
  assert (H : Qle_bool 0 (inject_Z (Z.of_nat n)) = true).
  { apply Qle_bool_iff. change 0 with (inject_Z 0). rewrite <- Zle_Qle. lia. }
  now rewrite H.
Qed.

(** Turns every read at a literal index into [nth_error]. *)
Ltac literal_index :=
  repeat match goal with
    | |- context [JS.index ?a (Z.pos ?p # 1)] =>
        let n := eval compute in (Pos.to_nat p) in
        change (JS.index a (Z.pos p # 1)) with (JS.index a (inject_Z (Z.of_nat n)));
        rewrite (index_literal a n)
    end.

Lemma nth_error_in_range (a : list Q) (n : nat) :
  (n < length a)%nat -> exists x, nth_error a n = Some x.
Proof.
  intros H. destruct (nth_error a n) eqn:E; [eauto |].
  apply nth_error_None in E. lia.
Qed.

(** *** The memory model *)

(** For a positive stability [retrievability] is the reciprocal of
    [1 + t/(9*S)] wherever that is not zero. *)
Lemma retrievability_positive_stability (S t : Q) :
  0 < S -> ~ 1 + t / (9 * S) == 0 ->
  exists r, retrievability (Some S) t = Some r /\ r == / (1 + t / (9 * S)).
Proof.
  intros HS Hb. unfold retrievability.
  rewrite (proj2 (Qle_bool_false S 0) HS).
  destruct (Math_pow_int_inv _ Hb) as [E1 E2].
  rewrite E1. eauto.
Qed.

Lemma decay_base_ge_1 (S t : Q) : 0 < S -> 0 <= t -> 1 <= 1 + t / (9 * S).
Proof.
  intros HS Ht.
  assert (H : 0 <= t / (9 * S)).
  { apply Qle_shift_div_l; lra. }
  lra.
Qed.

(** C10: for a positive stability, [retrievability] is 1 at no elapsed
    time, lies in (0, 1] for every elapsed time that is not negative, and
    is strictly decreasing there. *)
Theorem retrievability_decreasing (S : Q) :
  0 < S ->
  (exists r0, retrievability (Some S) 0 = Some r0 /\ r0 == 1) /\
  (forall t, 0 <= t ->
     exists r, retrievability (Some S) t = Some r /\ 0 < r /\ r <= 1) /\
  (forall t1 t2 r1 r2, 0 <= t1 -> t1 < t2 ->
     retrievability (Some S) t1 = Some r1 ->
     retrievability (Some S) t2 = Some r2 ->
     r2 < r1).
Proof.
  intros HS.
  assert (Hval : forall t, 0 <= t ->
            exists r, retrievability (Some S) t = Some r /\
                      r == / (1 + t / (9 * S)) /\ 1 <= 1 + t / (9 * S)).
  { intros t Ht. pose proof (decay_base_ge_1 S t HS Ht) as Hb.
    destruct (retrievability_positive_stability S t HS) as (r & E & Hr); [lra |].
    eauto. }
  split; [| split].
  - destruct (Hval 0) as (r & E & Hr & _); [lra |].
    exists r. split; [exact E |]. rewrite Hr. field. lra.
  - intros t Ht. destruct (Hval t Ht) as (r & E & Hr & Hb).
    exists r. split; [exact E |]. rewrite Hr. split.
    + apply Qinv_lt_0_compat. lra.
    + apply Qle_shift_inv_r; lra.
  - intros t1 t2 r1 r2 H1 H12 E1 E2.
    destruct (Hval t1) as (r1' & E1' & Hr1 & Hb1); [lra |].
    destruct (Hval t2) as (r2' & E2' & Hr2 & Hb2); [lra |].
    rewrite E1 in E1'. rewrite E2 in E2'.
    injection E1' as <-. injection E2' as <-.
    rewrite Hr1, Hr2.
    apply -> Qinv_lt_contravar; try lra.
    assert (H : t1 / (9 * S) < t2 / (9 * S)).
    { unfold Qdiv. apply Qmult_lt_compat_r; [| exact H12].
      apply Qinv_lt_0_compat. lra. }
    lra.
Qed.

Lemma nextInterval_positive_stability (S T : Q) :
  0 < S -> ~ T == 0 -> nextInterval (Some S) T = Some (9 * S * (1 / T - 1)).
Proof.
  intros HS HT. unfold nextInterval.
  rewrite (proj2 (Qle_bool_false S 0) HS).
  now rewrite (div_Some 1 T HT).
Qed.

(** C4: [nextInterval] inverts [retrievability].  For a positive
    stability and a target strictly between 0 and 1, the retrievability
    after the interval computed for the target is the target, exactly
    over the rationals. *)
Theorem nextInterval_inverts_retrievability (S T : Q) :
  0 < S -> 0 < T -> T < 1 ->
  exists interval r,
    nextInterval (Some S) T = Some interval /\
    retrievability (Some S) interval = Some r /\
    r == T.
Proof.
  intros HS HT0 HT1.
  rewrite nextInterval_positive_stability by lra.
  assert (Hbase : 1 + 9 * S * (1 / T - 1) / (9 * S) == / T).
  { field. split; lra. }
  destruct (retrievability_positive_stability S (9 * S * (1 / T - 1)) HS)
    as (r & E & Hr).
  - rewrite Hbase. intros H0.
    assert (HT : 0 < / T) by (apply Qinv_lt_0_compat; exact HT0).
    lra.
  - exists (9 * S * (1 / T - 1)), r. repeat split; [exact E |].
    rewrite Hr, Hbase. apply Qinv_involutive.
Qed.

Section StabilityUpdates.

Variable Math_exp : Q -> Q.
Variable Math_pow : Q -> Q -> Q.

(** C5: [updateStabilitySuccess] returns
    [S * (1 + exp(w8) * (11 - D) * S^(-w9) * (exp(w10 * (1 - R)) - 1))];
    the result does not depend on the entries 15 and 16 of the weights,
    whatever the grade: [hardPenalty] and [easyBonus] are computed and
    not used. *)
Theorem updateStabilitySuccess_formula
  (S D R grade : Q) (ws : list Q) (w8 w9 w10 : Q) :
  JS.index ws 8 = Some w8 ->
  JS.index ws 9 = Some w9 ->
  JS.index ws 10 = Some w10 ->
  updateStabilitySuccess Math_exp Math_pow S D R grade ws =
    Some (S * (1 + Math_exp w8 * (11 - D) * Math_pow S (- w9) *
                   (Math_exp (w10 * (1 - R)) - 1))) /\
  (forall ws', same_mandatory_weights ws ws' ->
     updateStabilitySuccess Math_exp Math_pow S D R grade ws' =
     updateStabilitySuccess Math_exp Math_pow S D R grade ws).
Proof.
  intros H8 H9 H10. split.
  - unfold updateStabilitySuccess. rewrite H8, H9, H10. reflexivity.
  - intros ws' Hsame. unfold updateStabilitySuccess.
    literal_index.
    rewrite !Hsame by discriminate. reflexivity.
Qed.

(** C6: after a lapse the stability is not above what it was. *)
Theorem updateStabilityFailure_le (S D R : Q) (ws : list Q) :
  0 < S -> 1 <= D <= 10 -> 0 <= R <= 1 ->
  (forall s', updateStabilityFailure Math_exp Math_pow S D R ws = Some s' ->
              s' <= S) /\
  ((15 <= length ws)%nat ->
   exists s', updateStabilityFailure Math_exp Math_pow S D R ws = Some s').
Proof.
  intros _ _ _. split.
  - unfold updateStabilityFailure. intros s' H.
    destruct (JS.index ws 11); [| discriminate].
    destruct (JS.index ws 12); [| discriminate].
    destruct (JS.index ws 13); [| discriminate].
    destruct (JS.index ws 14); [| discriminate].
    simpl in H. injection H as <-. apply Math_min_le_r.
  - intros Hlen. unfold updateStabilityFailure. literal_index.
    destruct (nth_error_in_range ws 11) as [w11 ->]; [lia |].
    destruct (nth_error_in_range ws 12) as [w12 ->]; [lia |].
    destruct (nth_error_in_range ws 13) as [w13 ->]; [lia |].
    destruct (nth_error_in_range ws 14) as [w14 ->]; [lia |].
    simpl. eauto.
Qed.

End StabilityUpdates.

(** *** Dates *)

(** Rounding toward zero moves a number by less than one. *)
Lemma truncate_error (q : Q) : Qabs (inject_Z (JS.truncate q) - q) < 1.
Proof.
  destruct q as [n d]. unfold JS.truncate. simpl Qnum. simpl Qden.
  pose proof (Z.quot_rem' n (Z.pos d)) as Hqr.
  assert (Hrem : (- Z.pos d < Z.rem n (Z.pos d) < Z.pos d)%Z).
  { pose proof (Z.rem_bound_abs n (Z.pos d)) as H. lia. }
  assert (Hd : 0 < inject_Z (Z.pos d)) by reflexivity.
  assert (E : inject_Z (n ÷ Z.pos d) - (n # d)
              == - inject_Z (Z.rem n (Z.pos d)) / inject_Z (Z.pos d)).
  { rewrite (Qmake_Qdiv n d). rewrite Hqr at 2.
    rewrite inject_Z_plus, inject_Z_mult. field. lra. }
  destruct Hrem as [Hlo Hhi].
  rewrite Zlt_Qlt in Hlo, Hhi. rewrite inject_Z_opp in Hlo.
  apply Qabs_Qlt_condition. rewrite E. split.
  - apply Qlt_shift_div_l; [exact Hd | lra].
  - apply Qlt_shift_div_r; [exact Hd | lra].
Qed.

Lemma TimeClip_Some (t : Q) (d : Z) :
  JS.TimeClip t = Some d -> d = JS.truncate t /\ Qabs t <= JS.maxTime.
Proof.
  unfold JS.TimeClip. destruct (Qle_bool (Qabs t) JS.maxTime) eqn:E; [| discriminate].
  intros H. injection H as <-. split; [reflexivity |]. now apply Qle_bool_iff.
Qed.

Lemma TimeClip_in_range (t : Q) :
  - JS.maxTime <= t -> t <= JS.maxTime -> JS.TimeClip t = Some (JS.truncate t).
Proof.
  intros Hlo Hhi. unfold JS.TimeClip.
  assert (H : Qle_bool (Qabs t) JS.maxTime = true).
  { apply Qle_bool_iff, Qabs_Qle_condition. split; assumption. }
  now rewrite H.
Qed.

Lemma or_elseZ_0 (n : Z) : JS.or_elseZ n 0 = n.
Proof.
  unfold JS.or_elseZ. destruct (Z.eqb_spec n 0); congruence.
Qed.

(** *** The review state machine *)

Lemma bind_Some {A B : Type} (m : option A) (k : A -> option B) (b : B) :
  bind m k = Some b -> exists a, m = Some a /\ k a = Some b.
Proof.
  destruct m as [a |]; simpl; [eauto | discriminate].
Qed.

Ltac inv_bind H :=
  let x := fresh "x" in
  let E := fresh "E" in
  apply bind_Some in H; destruct H as (x & E & H); cbv beta zeta in H.

Lemma initialDifficulty_range (grade : Q) (ws : list Q) (d : Q) :
  initialDifficulty grade ws = Some d -> 1 <= d /\ d <= 10.
Proof.
  unfold initialDifficulty. intros H.
  inv_bind H. inv_bind H. injection H as <-.
  apply clamp_range. discriminate.
Qed.

Lemma updateDifficulty_range (D grade : Q) (ws : list Q) (d : Q) :
  updateDifficulty D grade ws = Some d -> 1 <= d /\ d <= 10.
Proof.
  unfold updateDifficulty. intros H.
  inv_bind H. inv_bind H. inv_bind H. injection H as <-.
  apply clamp_range. discriminate.
Qed.

Lemma bind_defined {A B : Type} (m : option A) (k : A -> option B) :
  (exists a, m = Some a /\ exists b, k a = Some b) -> exists b, bind m k = Some b.
Proof.
  intros (a & -> & b & H). exists b. exact H.
Qed.

Lemma index_comp (a : list Q) (i j : Q) : i == j -> JS.index a i = JS.index a j.
Proof.
  intros H. unfold JS.index, JS.is_integer.
  rewrite (Qfloor_comp i j H).
  assert (E1 : Qeq_bool (inject_Z (Qfloor j)) i = Qeq_bool (inject_Z (Qfloor j)) j).
  { destruct (Qeq_bool (inject_Z (Qfloor j)) j) eqn:E.
    - apply Qeq_bool_iff in E. apply Qeq_bool_iff. now rewrite H.
    - apply Qeq_bool_false in E. apply Qeq_bool_false. now rewrite H. }
  assert (E2 : Qle_bool 0 i = Qle_bool 0 j).
  { destruct (Qle_bool 0 j) eqn:E.
    - apply Qle_bool_iff in E. apply Qle_bool_iff. now rewrite H.
    - apply Qle_bool_false in E. apply Qle_bool_false. now rewrite H. }
  now rewrite E1, E2.
Qed.

Lemma initialStability_defined (g : Q) (ws : list Q) :
  g == 1 \/ g == 2 \/ g == 3 \/ g == 4 -> (4 <= length ws)%nat ->
  exists s, initialStability g ws = Some s.
Proof.
  intros Hg Hlen. unfold initialStability.
  assert (H : exists n, (n < 4)%nat /\ g - 1 == inject_Z (Z.of_nat n)).
  { destruct Hg as [H | [H | [H | H]]];
      [exists 0%nat | exists 1%nat | exists 2%nat | exists 3%nat];
      (split; [lia | rewrite H; reflexivity]). }
  destruct H as (n & Hn & E).
  rewrite (index_comp ws _ _ E), index_literal.
  apply nth_error_in_range. lia.
Qed.

Lemma initialDifficulty_defined (g : Q) (ws : list Q) :
  (6 <= length ws)%nat -> exists d, initialDifficulty g ws = Some d.
Proof.
  intros Hlen. unfold initialDifficulty. literal_index.
  destruct (nth_error_in_range ws 4) as [w4 ->]; [lia |].
  destruct (nth_error_in_range ws 5) as [w5 ->]; [lia |].
  simpl. eauto.
Qed.

Lemma updateDifficulty_defined (D g : Q) (ws : list Q) :
  (8 <= length ws)%nat -> exists d, updateDifficulty D g ws = Some d.
Proof.
  intros Hlen. unfold updateDifficulty. literal_index.
  destruct (nth_error_in_range ws 6) as [w6 ->]; [lia |].
  destruct (nth_error_in_range ws 7) as [w7 ->]; [lia |].
  destruct (nth_error_in_range ws 4) as [w4 ->]; [lia |].
  simpl. eauto.
Qed.

Section Review.

Variable Math_exp : Q -> Q.
Variable Math_pow : Q -> Q -> Q.

Ltac finish_state :=
  unfold established; cbn; repeat split; try discriminate; eauto.

(** What every returned state looks like, whatever the branch taken. *)
Lemma processReview_result (w w' : World.t) (st st' : Fsrs.t) (g : Q) (c : Config.t) :
  processReview Math_exp Math_pow w st g (Some c) = (Some st', w') ->
  w' = w /\
  Fsrs.last_reviewed st' = Some (World.clock w) /\
  Fsrs.review_count st' = (Fsrs.review_count st + 1)%Z /\
  Fsrs.state st' <> new /\
  established st' /\
  exists raw dueDate,
    nextInterval (Fsrs.stability st') (Config.target_retrievability c) = Some raw /\
    JS.TimeClip
      (inject_Z (World.clock w)
       + JS.Math_max (JS.Math_min raw (Config.maximum_interval_days c)) 1
         * 24 * 60 * 60 * 1000) = Some dueDate /\
    Fsrs.due st' = Some dueDate.
Proof.
  unfold processReview. intros H. injection H as H <-.
  split; [reflexivity |].
  inv_bind H. rename x into currentR.
  inv_bind H. rename x into mid.
  inv_bind H. rename x into raw.
  inv_bind H. rename x into dueDate.
  injection H as <-.
  assert (Hmid : Fsrs.last_reviewed mid = Some (World.clock w) /\
                 Fsrs.review_count mid = (Fsrs.review_count st + 1)%Z /\
                 Fsrs.state mid <> new /\ established mid).
  { clear E1 E2. rewrite or_elseZ_0 in E0.
    destruct (Fsrs.state st).
    - inv_bind E0. inv_bind E0.
      apply initialDifficulty_range in E2. destruct E2.
      destruct (Qeq_bool g 1); injection E0 as <-; finish_state.
    - inv_bind E0. apply updateDifficulty_range in E1. destruct E1.
      destruct (Qeq_bool g 1); inv_bind E0; injection E0 as <-; finish_state.
    - inv_bind E0. apply updateDifficulty_range in E1. destruct E1.
      destruct (Qeq_bool g 1); inv_bind E0; injection E0 as <-; finish_state.
    - inv_bind E0. apply updateDifficulty_range in E1. destruct E1.
      destruct (Qeq_bool g 1); inv_bind E0; injection E0 as <-; finish_state. }
  destruct Hmid as (Hl & Hc & Hs & He).
  simpl. repeat split; try assumption; try apply He.
  exists raw, dueDate. repeat split; assumption.
Qed.

Lemma updateStabilitySuccess_defined (S D R g : Q) (ws : list Q) :
  (11 <= length ws)%nat ->
  exists s', updateStabilitySuccess Math_exp Math_pow S D R g ws = Some s'.
Proof.
  intros Hlen. unfold updateStabilitySuccess. literal_index.
  destruct (nth_error_in_range ws 8) as [w8 ->]; [lia |].
  destruct (nth_error_in_range ws 9) as [w9 ->]; [lia |].
  destruct (nth_error_in_range ws 10) as [w10 ->]; [lia |].
  simpl. eauto.
Qed.

Lemma updateStabilityFailure_defined (S D R : Q) (ws : list Q) :
  (15 <= length ws)%nat ->
  exists s', updateStabilityFailure Math_exp Math_pow S D R ws = Some s'.
Proof.
  intros Hlen. unfold updateStabilityFailure. literal_index.
  destruct (nth_error_in_range ws 11) as [w11 ->]; [lia |].
  destruct (nth_error_in_range ws 12) as [w12 ->]; [lia |].
  destruct (nth_error_in_range ws 13) as [w13 ->]; [lia |].
  destruct (nth_error_in_range ws 14) as [w14 ->]; [lia |].
  simpl. eauto.
Qed.

(** The retrievability at the time of the review is defined when the
    clock has not run backwards. *)
Lemma currentR_defined (w : World.t) (st : Fsrs.t) :
  (forall t, Fsrs.last_reviewed st = Some t -> (t <= World.clock w)%Z) ->
  exists r,
    (if JS.truthy (Fsrs.stability st)
     then retrievability (Fsrs.stability st)
            match Fsrs.last_reviewed st with
            | Some lastReview =>
                inject_Z (World.clock w - lastReview) / (1000 * 60 * 60 * 24)
            | None => 0
            end
     else Some 0) = Some r.
Proof.
  intros Hclock.
  destruct (JS.truthy (Fsrs.stability st)); [| eauto].
  destruct (Fsrs.stability st) as [s |]; [| simpl; eauto].
  destruct (Qlt_le_dec 0 s) as [Hs | Hs].
  - set (elapsed := match Fsrs.last_reviewed st with
                    | Some lastReview =>
                        inject_Z (World.clock w - lastReview) / (1000 * 60 * 60 * 24)
                    | None => 0
                    end).
    assert (He : 0 <= elapsed).
    { subst elapsed. destruct (Fsrs.last_reviewed st) as [t |]; [| lra].
      apply Qle_shift_div_l; [reflexivity |].
      specialize (Hclock t eq_refl).
      rewrite Qmult_0_l. change 0 with (inject_Z 0). rewrite <- Zle_Qle. lia. }
    pose proof (decay_base_ge_1 s elapsed Hs He) as Hb.
    destruct (retrievability_positive_stability s elapsed Hs) as (r & E & _);
      [lra | eauto].
  - unfold retrievability. rewrite (proj2 (Qle_bool_iff s 0) Hs). eauto.
Qed.

(** The interval and the due date are defined for an established
    stability. *)
Lemma due_defined (w : World.t) (c : Config.t) (mid : Fsrs.t) (st : Fsrs.t) (s : Q) :
  well_formed c -> in_time w st c ->
  Fsrs.stability mid = Some s ->
  exists st',
    (interval <- nextInterval (Fsrs.stability mid) (Config.target_retrievability c) ;;
     dueDate <-
       JS.TimeClip
         (inject_Z (World.clock w)
          + JS.Math_max (JS.Math_min interval (Config.maximum_interval_days c)) 1
            * 24 * 60 * 60 * 1000) ;;
     Some (Fsrs.set_due (Some dueDate) mid)) = Some st'.
Proof.
  intros [_ HT] (Hnow & Hmax & _) Hs. rewrite Hs.
  apply bind_defined.
  assert (Hraw : exists raw,
             nextInterval (Some s) (Config.target_retrievability c) = Some raw).
  { destruct (Qlt_le_dec 0 s) as [Hpos | Hneg].
    - rewrite nextInterval_positive_stability by assumption. eauto.
    - unfold nextInterval. rewrite (proj2 (Qle_bool_iff s 0) Hneg). eauto. }
  destruct Hraw as [raw Eraw]. exists raw. split; [exact Eraw |].
  apply bind_defined.
  set (interval := JS.Math_max (JS.Math_min raw (Config.maximum_interval_days c)) 1).
  assert (H1 : 1 <= interval) by apply Math_max_ge_r.
  assert (H2 : interval <= JS.Math_max (Config.maximum_interval_days c) 1).
  { apply Q.max_le_compat_r, Math_min_le_r. }
  assert (H0 : 0 <= inject_Z (World.clock w)).
  { change 0 with (inject_Z 0). now rewrite <- Zle_Qle. }
  unfold msPerDay, JS.maxTime in *.
  exists (JS.truncate (inject_Z (World.clock w) + interval * 24 * 60 * 60 * 1000)).
  split; [| eauto].
  apply TimeClip_in_range; unfold JS.maxTime; lra.
Qed.

(** [processReview] returns a state on every ready call. *)
Lemma processReview_returns (w : World.t) (st : Fsrs.t) (g : Q) (c : Config.t) :
  well_formed c -> in_time w st c -> is_grade g ->
  exists st', processReview Math_exp Math_pow w st g (Some c) = (Some st', w).
Proof.
  intros Hc Ht Hg.
  enough (H : exists st', fst (processReview Math_exp Math_pow w st g (Some c)) = Some st').
  { destruct H as [st' H]. exists st'.
    rewrite <- H. reflexivity. }
  pose proof Hc as [Hlen _]. pose proof Ht as (_ & _ & Hclock).
  unfold processReview. cbn [fst].
  apply bind_defined.
  destruct (currentR_defined w st Hclock) as [r Er].
  exists r. split; [exact Er |]. clear Er.
  apply bind_defined.
  destruct (updateDifficulty_defined (JS.ToNumber (Fsrs.difficulty st)) g
              (Config.weights c)) as [d' Ed']; [lia |].
  destruct (updateStabilityFailure_defined
              (JS.ToNumber (Fsrs.stability st)) (JS.ToNumber (Fsrs.difficulty st)) r
              (Config.weights c)) as [sf Esf]; [lia |].
  destruct (updateStabilitySuccess_defined
              (JS.ToNumber (Fsrs.stability st)) (JS.ToNumber (Fsrs.difficulty st)) r g
              (Config.weights c)) as [ss Ess]; [lia |].
  destruct (Fsrs.state st).
  - destruct (initialStability_defined g (Config.weights c) Hg) as [s0 Es0]; [lia |].
    destruct (initialDifficulty_defined g (Config.weights c)) as [d0 Ed0]; [lia |].
    rewrite Es0, Ed0. cbn [bind].
    destruct (Qeq_bool g 1); eexists; (split; [reflexivity |]);
      eapply due_defined; eauto; reflexivity.
  - rewrite Ed'. cbn [bind]. rewrite Esf, Ess. cbn [bind].
    destruct (Qeq_bool g 1); eexists; (split; [reflexivity |]);
      eapply due_defined; eauto; reflexivity.
  - rewrite Ed'. cbn [bind]. rewrite Esf, Ess. cbn [bind].
    destruct (Qeq_bool g 1); eexists; (split; [reflexivity |]);
      eapply due_defined; eauto; reflexivity.
  - rewrite Ed'. cbn [bind]. rewrite Esf, Ess. cbn [bind].
    destruct (Qeq_bool g 1); eexists; (split; [reflexivity |]);
      eapply due_defined; eauto; reflexivity.
Qed.

(** C8: the first review of a [new] topic.  The new stability is
    [initialStability(grade, weights)], that is [weights[grade - 1]], the
    new difficulty is [initialDifficulty(grade, weights)]; grade 1 leads to
    [learning] with one lapse, the grades 2, 3 and 4 lead to [review] and
    leave the lapses as they were, at 0 on a new topic. *)
Theorem processReview_first_review (w : World.t) (st : Fsrs.t) (g : Q) (c : Config.t) :
  Fsrs.state st = new ->
  (forall st' w',
     processReview Math_exp Math_pow w st g (Some c) = (Some st', w') ->
     Fsrs.stability st' = initialStability g (Config.weights c) /\
     initialStability g (Config.weights c) = JS.index (Config.weights c) (g - 1) /\
     Fsrs.difficulty st' = initialDifficulty g (Config.weights c) /\
     (g == 1 -> Fsrs.state st' = learning /\ Fsrs.lapses st' = 1%Z) /\
     (g == 2 \/ g == 3 \/ g == 4 ->
      Fsrs.state st' = review /\
      Fsrs.lapses st' = Fsrs.lapses st /\
      (Fsrs.lapses st = 0%Z -> Fsrs.lapses st' = 0%Z))) /\
  (well_formed c -> in_time w st c -> is_grade g ->
   exists st', processReview Math_exp Math_pow w st g (Some c) = (Some st', w)).
Proof.
  intros Hnew. split; [| apply processReview_returns].
  intros st' w' Hrun.
  unfold processReview in Hrun. rewrite Hnew in Hrun.
  injection Hrun as Hrun _.
  inv_bind Hrun. inv_bind Hrun. rename x0 into mid.
  inv_bind Hrun. inv_bind Hrun. injection Hrun as <-.
  clear E E1 E2.
  inv_bind E0. rename x2 into s. inv_bind E0. rename x2 into d.
  destruct (Qeq_bool g 1) eqn:Eg; injection E0 as <-; cbn.
  - apply Qeq_bool_iff in Eg.
    split; [now rewrite E |]. split; [reflexivity |]. split; [now rewrite E1 |].
    split; [intros _; split; reflexivity |].
    intros [H | [H | H]]; rewrite Eg in H; discriminate H.
  - apply Qeq_bool_false in Eg.
    split; [now rewrite E |]. split; [reflexivity |]. split; [now rewrite E1 |].
    split; [intros H; contradiction |].
    intros _. repeat split. auto.
Qed.

(** C1, as the code has it: [processReview] has no time argument.  Its
    result is a function of the state, the grade, the configuration and
    the time read from the clock; with a configuration supplied it
    leaves the files alone, without one it is the review under the
    configuration that [loadConfig] reads from, or writes to, the
    configuration file. *)
Theorem processReview_function_of_clock
  (w1 w2 : World.t) (st : Fsrs.t) (g : Q) (c : Config.t) :
  World.clock w1 = World.clock w2 ->
  fst (processReview Math_exp Math_pow w1 st g (Some c))
  = fst (processReview Math_exp Math_pow w2 st g (Some c)) /\
  snd (processReview Math_exp Math_pow w1 st g (Some c)) = w1 /\
  processReview Math_exp Math_pow w1 st g None =
    processReview Math_exp Math_pow (snd (loadConfig w1)) st g (Some (fst (loadConfig w1))).
Proof.
  intros Hclock. split; [| split].
  - unfold processReview. cbn [fst]. now rewrite Hclock.
  - reflexivity.
  - unfold processReview. destruct (loadConfig w1). reflexivity.
Qed.

Lemma includes_grade (g : Q) : includes [1; 2; 3; 4] g = true <-> is_grade g.
Proof.
  unfold includes, is_grade. simpl.
  rewrite !orb_true_iff, !Qeq_bool_iff. intuition discriminate.
Qed.

(** C9: a grade other than 1, 2, 3 and 4 is turned down by the tool
    before the engine is called: the answer is the invalid-grade error and
    nothing is read or written, so every topic keeps its state.  A grade
    1 to 4 is never answered that way. *)
Theorem log_review_outcome_invalid_grade (w : World.t) (id : string) (g : Q) :
  (~ is_grade g ->
   log_review_outcome Math_exp Math_pow w id g = (InvalidGrade g, w)) /\
  (is_grade g ->
   forall g', fst (log_review_outcome Math_exp Math_pow w id g) <> InvalidGrade g').
Proof.
  unfold log_review_outcome. split; intros Hg.
  - destruct (includes [1; 2; 3; 4] g) eqn:E; [| reflexivity].
    apply includes_grade in E. contradiction.
  - apply includes_grade in Hg. rewrite Hg. cbn [negb].
    intros g'. destruct (loadConfig w) as [config w0].
    destruct (updateTopic _ _ _) as [[error | topic |] w1]; cbn [fst]; try discriminate.
    destruct (Topic.fsrs topic); discriminate.
Qed.

End Review.

(** C2, as the code has it: whatever the clock shows, a topic whose state
    is [new] or whose due date is null gets priority 50, not overdue, no
    retrievability; a topic without a scheduling state gets priority 0,
    not overdue, retrievability 1. *)
Theorem calculatePriority_unscheduled (w : World.t) (topic : Topic.t) :
  (forall f, Topic.fsrs topic = Some f ->
     Fsrs.state f = new \/ Fsrs.due f = None ->
     calculatePriority w topic = Some (Priority.mk 50 false None None None)) /\
  (Topic.fsrs topic = None ->
   calculatePriority w topic = Some (Priority.mk 0 false (Some 1) None None)).
Proof.
  unfold calculatePriority. split.
  - intros f -> [H | H].
    + now rewrite H.
    + rewrite H. now destruct (Fsrs.state f).
  - now intros ->.
Qed.

(** ** Concrete runs *)

Example first_review_good :
  processReview exp_taylor pow_floor world0 createDefaultFsrsState 3 (Some DEFAULT_CONFIG)
  = (Some after_good, world0).
Proof. vm_compute. reflexivity. Qed.

Example second_review_lapse :
  processReview exp_taylor pow_floor world_later after_good 1 None
  = (Some after_lapse, world_later).
Proof. vm_compute. reflexivity. Qed.

Example after_good_fields :
  Fsrs.state after_good = review /\
  Fsrs.stability after_good = Some 2.4 /\
  Fsrs.due after_good = Some (1700000000000 + 207360000)%Z /\
  Fsrs.review_count after_good = 1%Z /\
  Fsrs.lapses after_good = 0%Z.
Proof. repeat split. Qed.

(** The engine itself takes any number for a grade: 5 on a new topic
    reads the stability from [weights[4]]. *)
Example engine_accepts_grade_5 :
  exists f,
    fst (processReview exp_taylor pow_floor world0 createDefaultFsrsState 5
           (Some DEFAULT_CONFIG)) = Some f /\
    Fsrs.stability f = Some 4.93 /\ Fsrs.state f = review.
Proof. eexists. vm_compute. repeat split. Qed.

(** Two days before it is due a topic has priority 20. *)
Example priority_two_days_ahead :
  exists p,
    calculatePriority (World.set_clock (1700207360000 - 2 * 86400000) world0) topic_good
    = Some p /\
    Priority.priority p == 20 /\
    Priority.isOverdue p = false /\
    Priority.daysUntilDue p = Some (2 * 86400000 # 86400000).
Proof. eexists. split; [vm_compute; reflexivity |]. repeat split. Qed.

(** Three days after it was due, a topic of stability 10 is overdue with
    a priority between 100 and 200. *)
Example priority_three_days_late :
  exists p,
    calculatePriority (World.set_clock (1700000000000 + 3 * 86400000) world0)
      (topic_due_at 1700000000000)
    = Some p /\
    Priority.isOverdue p = true /\
    100 < Priority.priority p /\ Priority.priority p <= 200 /\
    Priority.priority p == 100 + 100 / 31.
Proof. eexists. split; [vm_compute; reflexivity |]. repeat split; discriminate. Qed.

Lemma DEFAULT_CONFIG_well_formed : well_formed DEFAULT_CONFIG.
Proof.
  split; [simpl; lia | discriminate].
Defined.

Lemma world0_in_time : in_time world0 createDefaultFsrsState DEFAULT_CONFIG.
Proof.
  split; [discriminate |]. split; [discriminate |].
  intros t H. discriminate H.
Defined.

Lemma is_grade_3 : is_grade 3.
Proof. right. right. left. reflexivity. Defined.

Lemma not_is_grade_5 : ~ is_grade 5.
Proof. intros [H | [H | [H | H]]]; discriminate H. Defined.

(** ** The theorems at concrete inputs *)

(** Two reviews with the same arguments at different times differ, and a
    review without a configuration writes the configuration file. *)
Lemma processReview_depends_on_clock :
  fst (processReview exp_taylor pow_floor world0 createDefaultFsrsState 3
         (Some DEFAULT_CONFIG))
  <> fst (processReview exp_taylor pow_floor world_later createDefaultFsrsState 3
            (Some DEFAULT_CONFIG))
  /\ snd (processReview exp_taylor pow_floor world0 createDefaultFsrsState 3 None)
     <> world0.
Proof.
  split; intros H; vm_compute in H; discriminate H.
Qed.

Lemma processReview_function_of_clock_witness :
  World.clock world_later = World.clock (World.set_config_file None world_later) /\
  fst (processReview exp_taylor pow_floor world_later after_good 1 (Some DEFAULT_CONFIG))
  = fst (processReview exp_taylor pow_floor (World.set_config_file None world_later)
           after_good 1 (Some DEFAULT_CONFIG)).
Proof.
  split; [reflexivity |].
  apply (processReview_function_of_clock exp_taylor pow_floor
           world_later (World.set_config_file None world_later)
           after_good 1 DEFAULT_CONFIG).
  reflexivity.
Defined.

(** A topic without a scheduling state gets priority 0 and
    retrievability 1. *)
Lemma calculatePriority_absent_state :
  calculatePriority world0 topic0 = Some (Priority.mk 0 false (Some 1) None None) /\
  calculatePriority world0 topic0 <> Some (Priority.mk 50 false None None None).
Proof.
  split; [reflexivity |]. intros H. vm_compute in H. discriminate H.
Qed.

Lemma calculatePriority_unscheduled_witness :
  (Topic.fsrs topic_new = Some createDefaultFsrsState /\
   (Fsrs.state createDefaultFsrsState = new \/ Fsrs.due createDefaultFsrsState = None) /\
   calculatePriority world_later topic_new = Some (Priority.mk 50 false None None None)) /\
  (Topic.fsrs topic0 = None /\
   calculatePriority world_later topic0 = Some (Priority.mk 0 false (Some 1) None None)).
Proof.
  split.
  - split; [reflexivity |]. split; [left; reflexivity |].
    apply (proj1 (calculatePriority_unscheduled world_later topic_new)
             createDefaultFsrsState);
      [reflexivity | left; reflexivity].
  - split; [reflexivity |].
    apply (proj2 (calculatePriority_unscheduled world_later topic0)). reflexivity.
Defined.

Lemma nextInterval_inverts_retrievability_witness :
  0 < 2.4 /\ 0 < 0.9 /\ 0.9 < 1 /\
  exists interval r,
    nextInterval (Some 2.4) 0.9 = Some interval /\
    retrievability (Some 2.4) interval = Some r /\
    r == 0.9.
Proof.
  split; [reflexivity |]. split; [reflexivity |]. split; [reflexivity |].
  apply (nextInterval_inverts_retrievability 2.4 0.9); reflexivity.
Defined.

Lemma updateStabilitySuccess_formula_witness :
  JS.index (Config.weights DEFAULT_CONFIG) 8 = Some 1.49 /\
  JS.index (Config.weights DEFAULT_CONFIG) 9 = Some 0.14 /\
  JS.index (Config.weights DEFAULT_CONFIG) 10 = Some 0.94 /\
  updateStabilitySuccess exp_taylor pow_floor 2.4 4.93 0.9 2
    (Config.weights DEFAULT_CONFIG ++ [0.5; 2])
  = updateStabilitySuccess exp_taylor pow_floor 2.4 4.93 0.9 2
      (Config.weights DEFAULT_CONFIG).
Proof.
  split; [reflexivity |]. split; [reflexivity |]. split; [reflexivity |].
  apply (proj2 (updateStabilitySuccess_formula exp_taylor pow_floor 2.4 4.93 0.9 2
                  (Config.weights DEFAULT_CONFIG) 1.49 0.14 0.94
                  eq_refl eq_refl eq_refl)).
  intros n H15 H16.
  do 15 (destruct n as [| n]; [reflexivity |]).
  destruct n as [| n]; [contradiction |].
  destruct n as [| n]; [contradiction |].
  destruct n; reflexivity.
Defined.

Lemma updateStabilityFailure_le_witness :
  0 < 2.4 /\ (1 <= 4.93 /\ 4.93 <= 10) /\ (0 <= 0.9 /\ 0.9 <= 1) /\
  (15 <= length (Config.weights DEFAULT_CONFIG))%nat /\
  exists s',
    updateStabilityFailure exp_taylor pow_floor 2.4 4.93 0.9
      (Config.weights DEFAULT_CONFIG) = Some s' /\
    s' <= 2.4.
Proof.
  assert (H1 : 0 < 2.4) by reflexivity.
  assert (H2 : 1 <= 4.93 /\ 4.93 <= 10) by (split; discriminate).
  assert (H3 : 0 <= 0.9 /\ 0.9 <= 1) by (split; discriminate).
  assert (H4 : (15 <= length (Config.weights DEFAULT_CONFIG))%nat) by (simpl; lia).
  repeat (split; [assumption |]).
  destruct (updateStabilityFailure_le exp_taylor pow_floor 2.4 4.93 0.9
              (Config.weights DEFAULT_CONFIG) H1 H2 H3) as [Hle Hex].
  destruct (Hex H4) as [s' E]. exists s'. split; [exact E | exact (Hle s' E)].
Defined.

Lemma processReview_first_review_witness :
  Fsrs.state createDefaultFsrsState = new /\
  processReview exp_taylor pow_floor world0 createDefaultFsrsState 3 (Some DEFAULT_CONFIG)
  = (Some after_good, world0) /\
  Fsrs.stability after_good = initialStability 3 (Config.weights DEFAULT_CONFIG) /\
  Fsrs.state after_good = review /\
  Fsrs.lapses after_good = 0%Z.
Proof.
  destruct (processReview_first_review exp_taylor pow_floor world0
              createDefaultFsrsState 3 DEFAULT_CONFIG eq_refl) as [Hprop _].
  destruct (Hprop after_good world0 first_review_good)
    as (Hs & _ & _ & _ & Hpass).
  destruct (Hpass (or_intror (or_introl (Qeq_refl 3)))) as (Hstate & _ & Hlapses).
  split; [reflexivity |]. split; [exact first_review_good |].
  split; [exact Hs |]. split; [exact Hstate |]. exact (Hlapses eq_refl).
Defined.

Lemma log_review_outcome_invalid_grade_witness :
  ~ is_grade 5 /\
  log_review_outcome exp_taylor pow_floor
    (World.set_topics_file [topic_new] world0) "a" 5
  = (InvalidGrade 5, World.set_topics_file [topic_new] world0).
Proof.
  split; [exact not_is_grade_5 |].
  apply (proj1 (log_review_outcome_invalid_grade exp_taylor pow_floor
                  (World.set_topics_file [topic_new] world0) "a" 5)).
  exact not_is_grade_5.
Defined.

Lemma retrievability_decreasing_witness :
  0 < 2.4 /\
  (exists r0, retrievability (Some 2.4) 0 = Some r0 /\ r0 == 1) /\
  (forall t, 0 <= t ->
     exists r, retrievability (Some 2.4) t = Some r /\ 0 < r /\ r <= 1) /\
  (forall t1 t2 r1 r2, 0 <= t1 -> t1 < t2 ->
     retrievability (Some 2.4) t1 = Some r1 ->
     retrievability (Some 2.4) t2 = Some r2 ->
     r2 < r1).
Proof.
  split; [reflexivity |].
  apply (retrievability_decreasing 2.4). reflexivity.
Defined.

(** ** Further properties of the memory model *)

(** X1: for elapsed time that is not negative, [retrievability] is
    defined for every stability and lies between 0 and 1; it is 0 exactly
    when the stability is null or not positive. *)
Theorem retrievability_unit_interval (stability : option Q) (t : Q) :
  0 <= t ->
  exists r,
    retrievability stability t = Some r /\
    0 <= r /\ r <= 1 /\
    (r == 0 <-> stability = None \/ exists s, stability = Some s /\ s <= 0).
Proof.
  intros Ht. destruct stability as [s |].
  - destruct (Qlt_le_dec 0 s) as [Hs | Hs].
    + pose proof (decay_base_ge_1 s t Hs Ht) as Hb.
      destruct (retrievability_positive_stability s t Hs) as (r & E & Hr); [lra |].
      assert (Hpos : 0 < r).
      { rewrite Hr. apply Qinv_lt_0_compat. lra. }
      exists r. split; [exact E |]. split; [lra |]. split.
      * rewrite Hr. apply Qle_shift_inv_r; lra.
      * split; [intros H0; lra |].
        intros [H | (s' & H & Hs')]; [discriminate H |].
        injection H as <-. lra.
    + exists 0. unfold retrievability.
      rewrite (proj2 (Qle_bool_iff s 0) Hs).
      split; [reflexivity |]. split; [lra |]. split; [lra |].
      split; [| reflexivity]. intros _. right. exists s. split; [reflexivity | exact Hs].
  - exists 0. split; [reflexivity |]. split; [lra |]. split; [lra |].
    split; [| reflexivity]. intros _. now left.
Qed.

(** X2: the engine does not guard against a clock that ran backwards.
    For a positive stability [S] and an elapsed time between [-9*S] and 0
    the retrievability is above 1; at [-9*S] the power is not a finite
    number. *)
Theorem retrievability_negative_elapsed (S t : Q) :
  0 < S -> t < 0 ->
  (- (9 * S) < t -> exists r, retrievability (Some S) t = Some r /\ 1 < r) /\
  (t == - (9 * S) -> retrievability (Some S) t = None).
Proof.
  intros HS Ht. split.
  - intros Hlo.
    assert (H1 : -1 < t / (9 * S)).
    { apply Qlt_shift_div_l; lra. }
    assert (H2 : t / (9 * S) < 0).
    { apply Qlt_shift_div_r; lra. }
    destruct (retrievability_positive_stability S t HS) as (r & E & Hr); [lra |].
    exists r. split; [exact E |]. rewrite Hr.
    apply Qlt_shift_inv_l; lra.
  - intros Heq. unfold retrievability, JS.Math_pow_int.
    rewrite (proj2 (Qle_bool_false S 0) HS).
    assert (H0 : 1 + t / (9 * S) == 0).
    { rewrite Heq. field. lra. }
    now rewrite (proj2 (Qeq_bool_iff _ 0) H0).
Qed.

Lemma clamp_monotone (v1 v2 lo hi : Q) :
  v1 <= v2 -> clamp v1 lo hi <= clamp v2 lo hi.
Proof.
  intros H. unfold clamp, JS.Math_max, JS.Math_min.
  apply Q.max_le_compat_l, Q.min_le_compat_l, H.
Qed.

Lemma clamp_inside (v lo hi : Q) : lo <= v -> v <= hi -> clamp v lo hi == v.
Proof.
  intros Hlo Hhi. unfold clamp, JS.Math_max, JS.Math_min.
  rewrite (Q.min_r hi v Hhi). apply Q.max_r, Hlo.
Qed.

(** X3: whatever the grade, the weights and the difficulty before, a
    difficulty computed by [initialDifficulty] or [updateDifficulty] lies
    between 1 and 10. *)
Theorem difficulty_always_clamped (D grade : Q) (ws : list Q) :
  (forall d, initialDifficulty grade ws = Some d -> 1 <= d /\ d <= 10) /\
  (forall d, updateDifficulty D grade ws = Some d -> 1 <= d /\ d <= 10) /\
  ((8 <= length ws)%nat ->
   (exists d, initialDifficulty grade ws = Some d) /\
   (exists d, updateDifficulty D grade ws = Some d)).
Proof.
  split; [| split].
  - intros d. apply initialDifficulty_range.
  - intros d. apply updateDifficulty_range.
  - intros Hlen. split.
    + apply initialDifficulty_defined. lia.
    + apply updateDifficulty_defined. lia.
Qed.

Lemma updateDifficulty_value (D grade : Q) (ws : list Q) (w4 w6 w7 : Q) :
  nth_error ws 4 = Some w4 -> nth_error ws 6 = Some w6 -> nth_error ws 7 = Some w7 ->
  updateDifficulty D grade ws
  = Some (clamp (D + - w6 * (grade - 3) + w7 * (w4 - (D + - w6 * (grade - 3)))) 1 10).
Proof.
  intros H4 H6 H7. unfold updateDifficulty. literal_index.
  now rewrite H4, H6, H7.
Qed.

(** X4: with [weights[6] >= 0] and [weights[7] <= 1], a better grade
    never gives a higher difficulty. *)
Theorem updateDifficulty_antitone_in_grade
  (D g1 g2 : Q) (ws : list Q) (w4 w6 w7 d1 d2 : Q) :
  nth_error ws 4 = Some w4 -> nth_error ws 6 = Some w6 -> nth_error ws 7 = Some w7 ->
  0 <= w6 -> w7 <= 1 -> g1 <= g2 ->
  updateDifficulty D g1 ws = Some d1 ->
  updateDifficulty D g2 ws = Some d2 ->
  d2 <= d1.
Proof.
  intros H4 H6 H7 Hw6 Hw7 Hg E1 E2.
  rewrite (updateDifficulty_value D g1 ws w4 w6 w7 H4 H6 H7) in E1.
  rewrite (updateDifficulty_value D g2 ws w4 w6 w7 H4 H6 H7) in E2.
  injection E1 as <-. injection E2 as <-.
  apply clamp_monotone.
  assert (H : 0 <= (1 - w7) * (w6 * (g2 - g1))).
  { apply Qmult_le_0_compat; [lra |]. apply Qmult_le_0_compat; lra. }
  nra.
Qed.

(** X5: mean reversion.  With the reversion strength [weights[7]] between
    0 and 1 and the anchor [weights[4]] between 1 and 10, a review graded
    3 moves a difficulty between 1 and 10 to the weighted mean of itself
    and the anchor, which lies between the two. *)
Theorem updateDifficulty_good_reverts
  (D : Q) (ws : list Q) (w4 w6 w7 : Q) :
  nth_error ws 4 = Some w4 -> nth_error ws 6 = Some w6 -> nth_error ws 7 = Some w7 ->
  0 <= w7 -> w7 <= 1 -> 1 <= w4 -> w4 <= 10 -> 1 <= D -> D <= 10 ->
  exists d,
    updateDifficulty D 3 ws = Some d /\
    d == (1 - w7) * D + w7 * w4 /\
    Qmin D w4 <= d /\ d <= Qmax D w4.
Proof.
  intros H4 H6 H7 H0 H1 Hlo Hhi HDlo HDhi.
  rewrite (updateDifficulty_value D 3 ws w4 w6 w7 H4 H6 H7).
  eexists. split; [reflexivity |].
  assert (Hv : D + - w6 * (3 - 3) + w7 * (w4 - (D + - w6 * (3 - 3)))
               == (1 - w7) * D + w7 * w4) by ring.
  assert (Hmin : Qmin D w4 <= (1 - w7) * D + w7 * w4).
  { destruct (Q.min_spec D w4) as [[Hlt E] | [Hle E]]; rewrite E; nra. }
  assert (Hmax : (1 - w7) * D + w7 * w4 <= Qmax D w4).
  { destruct (Q.max_spec D w4) as [[Hlt E] | [Hle E]]; rewrite E; nra. }
  assert (Hin : clamp (D + - w6 * (3 - 3) + w7 * (w4 - (D + - w6 * (3 - 3)))) 1 10
                == (1 - w7) * D + w7 * w4).
  { rewrite <- Hv. apply clamp_inside; rewrite Hv.
    - apply Qle_trans with (Qmin D w4); [| exact Hmin]. now apply Q.min_glb.
    - apply Qle_trans with (Qmax D w4); [exact Hmax |]. now apply Q.max_lub. }
  rewrite Hin. repeat split; assumption.
Qed.

(** X6: for a target retrievability in (0, 1] the interval is defined
    for every stability and not negative; for positive stabilities it
    grows with the stability and shrinks as the target rises. *)
Theorem nextInterval_monotone (T : Q) :
  0 < T -> T <= 1 ->
  (forall stability, exists i, nextInterval stability T = Some i /\ 0 <= i) /\
  (forall S1 S2 i1 i2, 0 < S1 -> S1 <= S2 ->
     nextInterval (Some S1) T = Some i1 -> nextInterval (Some S2) T = Some i2 ->
     i1 <= i2) /\
  (forall S T' i i', 0 < S -> T <= T' ->
     nextInterval (Some S) T = Some i -> nextInterval (Some S) T' = Some i' ->
     i' <= i).
Proof.
  intros HT0 HT1.
  assert (Hinv : 1 <= 1 / T).
  { apply Qle_shift_div_l; lra. }
  split; [| split].
  - intros [s |]; [| exists 1; split; [reflexivity | lra]].
    destruct (Qlt_le_dec 0 s) as [Hs | Hs].
    + rewrite nextInterval_positive_stability by lra.
      eexists. split; [reflexivity |].
      apply Qmult_le_0_compat; lra.
    + unfold nextInterval. rewrite (proj2 (Qle_bool_iff s 0) Hs).
      exists 1. split; [reflexivity | lra].
  - intros S1 S2 i1 i2 H1 H12 E1 E2.
    rewrite nextInterval_positive_stability in E1, E2 by lra.
    injection E1 as <-. injection E2 as <-.
    apply Qmult_le_compat_r; lra.
  - intros S T' i i' HS HTT' E E'.
    rewrite nextInterval_positive_stability in E, E' by lra.
    injection E as <-. injection E' as <-.
    assert (H : 1 / T' <= 1 / T).
    { apply Qle_shift_div_l; [lra |].
      assert (E : 1 / T' * T == T / T') by (field; lra). rewrite E.
      apply Qle_shift_div_r; lra. }
    assert (H9 : 0 <= 9 * S) by lra.
    assert (Hd : 0 <= (9 * S) * ((1 / T - 1) - (1 / T' - 1))).
    { apply Qmult_le_0_compat; lra. }
    set (a := 1 / T) in *. set (a' := 1 / T') in *. nra.
Qed.

(** ** Further properties of the review state machine *)

Lemma truncate_ge (q : Q) (z : Z) : inject_Z z <= q -> (z <= JS.truncate q)%Z.
Proof.
  intros H. pose proof (truncate_error q) as He.
  apply Qabs_Qlt_condition in He. destruct He as [He _].
  assert (Hlt : inject_Z z - 1 < inject_Z (JS.truncate q)) by lra.
  assert (Hz : inject_Z (z - 1) < inject_Z (JS.truncate q)).
  { unfold Zminus. rewrite inject_Z_plus. exact Hlt. }
  rewrite <- Zlt_Qlt in Hz. lia.
Qed.

Lemma truncate_le_nonneg (q : Q) : 0 <= q -> inject_Z (JS.truncate q) <= q.
Proof.
  intros H. destruct q as [n d]. unfold JS.truncate. simpl Qnum. simpl Qden.
  assert (Hn : (0 <= n)%Z).
  { unfold Qle in H. simpl in H. lia. }
  rewrite Z.quot_div_nonneg by lia.
  apply (Qfloor_le (n # d)).
Qed.

Section MoreReview.

Variable Math_exp : Q -> Q.
Variable Math_pow : Q -> Q -> Q.

(** X7: a review of a topic that is not [new].  The difficulty is updated
    from the difficulty before.  Grade 1 leads to [relearning], adds one
    lapse and applies the failure formula, so the stability does not
    rise; every other grade leads to [review], keeps the lapses and
    applies the success formula.  The previous state tag plays no part. *)
Theorem processReview_later_review
  (w w' : World.t) (st st' : Fsrs.t) (g : Q) (c : Config.t) :
  Fsrs.state st <> new ->
  processReview Math_exp Math_pow w st g (Some c) = (Some st', w') ->
  exists r,
    currentR_at (World.clock w) st = Some r /\
    Fsrs.difficulty st' =
      updateDifficulty (JS.ToNumber (Fsrs.difficulty st)) g (Config.weights c) /\
    (g == 1 ->
     Fsrs.state st' = relearning /\
     Fsrs.lapses st' = (Fsrs.lapses st + 1)%Z /\
     Fsrs.stability st' =
       updateStabilityFailure Math_exp Math_pow
         (JS.ToNumber (Fsrs.stability st)) (JS.ToNumber (Fsrs.difficulty st)) r
         (Config.weights c) /\
     exists s', Fsrs.stability st' = Some s' /\ s' <= JS.ToNumber (Fsrs.stability st)) /\
    (~ g == 1 ->
     Fsrs.state st' = review /\
     Fsrs.lapses st' = Fsrs.lapses st /\
     Fsrs.stability st' =
       updateStabilitySuccess Math_exp Math_pow
         (JS.ToNumber (Fsrs.stability st)) (JS.ToNumber (Fsrs.difficulty st)) r g
         (Config.weights c)).
Proof.
  intros Hstate Hrun. unfold processReview in Hrun.
  injection Hrun as Hrun _.
  change (match Fsrs.last_reviewed st with
          | Some lastReview =>
              inject_Z (World.clock w - lastReview) / (1000 * 60 * 60 * 24)
          | None => 0
          end) with (elapsedDays_at (World.clock w) st) in Hrun.
  change (if JS.truthy (Fsrs.stability st)
          then retrievability (Fsrs.stability st) (elapsedDays_at (World.clock w) st)
          else Some 0) with (currentR_at (World.clock w) st) in Hrun.
  inv_bind Hrun. rename x into r. exists r. split; [exact E |].
  inv_bind Hrun. rename x into mid.
  inv_bind Hrun. inv_bind Hrun. injection Hrun as <-.
  clear E1 E2. rewrite !or_elseZ_0 in E0.
  assert (Hmid :
    d <- updateDifficulty (JS.ToNumber (Fsrs.difficulty st)) g (Config.weights c) ;;
    (if Qeq_bool g 1 then
       s <- updateStabilityFailure Math_exp Math_pow
              (JS.ToNumber (Fsrs.stability st)) (JS.ToNumber (Fsrs.difficulty st)) r
              (Config.weights c) ;;
       Some (Fsrs.mk relearning (Some s) (Some d) (Fsrs.due st)
               (Some (World.clock w)) (Fsrs.review_count st + 1) (Fsrs.lapses st + 1))
     else
       s <- updateStabilitySuccess Math_exp Math_pow
              (JS.ToNumber (Fsrs.stability st)) (JS.ToNumber (Fsrs.difficulty st)) r g
              (Config.weights c) ;;
       Some (Fsrs.mk review (Some s) (Some d) (Fsrs.due st)
               (Some (World.clock w)) (Fsrs.review_count st + 1) (Fsrs.lapses st)))
    = Some mid).
  { destruct (Fsrs.state st); [contradiction | exact E0 ..]. }
  clear E0. inv_bind Hmid. rename x1 into d.
  destruct (Qeq_bool g 1) eqn:Eg; inv_bind Hmid; rename x1 into s;
    injection Hmid as <-; cbn.
  - apply Qeq_bool_iff in Eg.
    split; [now rewrite E0 |]. split; [| intros H; contradiction].
    intros _. repeat split; [now rewrite E1 |].
    exists s. split; [reflexivity |].
    unfold updateStabilityFailure in E1.
    inv_bind E1. inv_bind E1. inv_bind E1. inv_bind E1.
    injection E1 as <-. apply Math_min_le_r.
  - apply Qeq_bool_false in Eg.
    split; [now rewrite E0 |]. split; [intros H; contradiction |].
    intros _. repeat split. now rewrite E1.
Qed.

(** X8: the next review is at least one day after the review; from 1970
    on it is at most [maximum_interval_days] days after it, or one day if
    that maximum is below 1. *)
Theorem processReview_due_window
  (w w' : World.t) (st st' : Fsrs.t) (g : Q) (c : Config.t) :
  processReview Math_exp Math_pow w st g (Some c) = (Some st', w') ->
  exists dueDate,
    Fsrs.due st' = Some dueDate /\
    (World.clock w + 86400000 <= dueDate)%Z /\
    ((0 <= World.clock w)%Z ->
     inject_Z dueDate
     <= inject_Z (World.clock w)
        + JS.Math_max (Config.maximum_interval_days c) 1 * msPerDay).
Proof.
  intros Hrun. apply processReview_result in Hrun.
  destruct Hrun as (_ & _ & _ & _ & _ & raw & dueDate & _ & Hclip & Hdue).
  exists dueDate. split; [exact Hdue |].
  apply TimeClip_Some in Hclip. destruct Hclip as [-> _].
  set (interval := JS.Math_max (JS.Math_min raw (Config.maximum_interval_days c)) 1).
  assert (H1 : 1 <= interval) by apply Math_max_ge_r.
  assert (H2 : interval <= JS.Math_max (Config.maximum_interval_days c) 1).
  { apply Q.max_le_compat_r, Math_min_le_r. }
  split.
  - apply truncate_ge. rewrite inject_Z_plus.
    change (inject_Z 86400000) with 86400000. lra.
  - intros Hnow.
    assert (H0 : 0 <= inject_Z (World.clock w)).
    { change 0 with (inject_Z 0). now rewrite <- Zle_Qle. }
    eapply Qle_trans; [apply truncate_le_nonneg; lra |].
    unfold msPerDay. lra.
Qed.

End MoreReview.

(** ** Further properties of the priority *)

Lemma elapsedDays_at_nonneg (now : Z) (f : Fsrs.t) :
  (forall t, Fsrs.last_reviewed f = Some t -> (t <= now)%Z) ->
  0 <= elapsedDays_at now f.
Proof.
  intros H. unfold elapsedDays_at.
  destruct (Fsrs.last_reviewed f) as [t |]; [| lra].
  specialize (H t eq_refl).
  apply Qle_shift_div_l; [reflexivity |].
  rewrite Qmult_0_l. change 0 with (inject_Z 0). rewrite <- Zle_Qle. lia.
Qed.

Lemma currentR_at_range (now : Z) (f : Fsrs.t) :
  (forall t, Fsrs.last_reviewed f = Some t -> (t <= now)%Z) ->
  exists r, currentR_at now f = Some r /\ 0 <= r /\ r <= 1.
Proof.
  intros H. pose proof (elapsedDays_at_nonneg now f H) as He.
  unfold currentR_at.
  destruct (JS.truthy (Fsrs.stability f)); [| exists 0; repeat split; lra].
  destruct (Fsrs.stability f) as [s |]; [| exists 0; repeat split; lra].
  destruct (Qlt_le_dec 0 s) as [Hs | Hs].
  - pose proof (decay_base_ge_1 s _ Hs He) as Hb.
    destruct (retrievability_positive_stability s (elapsedDays_at now f) Hs)
      as (r & E & Hr); [lra |].
    exists r. split; [exact E |]. rewrite Hr. split.
    + apply Qlt_le_weak, Qinv_lt_0_compat. lra.
    + apply Qle_shift_inv_r; lra.
  - unfold retrievability. rewrite (proj2 (Qle_bool_iff s 0) Hs).
    exists 0. repeat split; lra.
Qed.

Lemma calculatePriority_scheduled
  (w : World.t) (topic : Topic.t) (f : Fsrs.t) (dueDate : Z) :
  Topic.fsrs topic = Some f ->
  Fsrs.state f <> new ->
  Fsrs.due f = Some dueDate ->
  (forall t, Fsrs.last_reviewed f = Some t -> (t <= World.clock w)%Z) ->
  exists p,
    calculatePriority w topic = Some p /\
    ((dueDate < World.clock w)%Z ->
     Priority.isOverdue p = true /\
     100 <= Priority.priority p /\ Priority.priority p <= 200 /\
     exists d, Priority.daysOverdue p = Some d /\ 0 < d) /\
    ((World.clock w <= dueDate)%Z ->
     Priority.isOverdue p = false /\
     0 <= Priority.priority p /\ Priority.priority p <= 40 /\
     exists d, Priority.daysUntilDue p = Some d /\ 0 <= d).
Proof.
  intros Hf Hstate Hdue Hclock.
  destruct (currentR_at_range (World.clock w) f Hclock) as (r & Er & Hr0 & Hr1).
  unfold calculatePriority. rewrite Hf, Hdue.
  change (match Fsrs.last_reviewed f with
          | Some lastReview =>
              inject_Z (World.clock w - lastReview) / (1000 * 60 * 60 * 24)
          | None => 0
          end) with (elapsedDays_at (World.clock w) f).
  change (if JS.truthy (Fsrs.stability f)
          then retrievability (Fsrs.stability f) (elapsedDays_at (World.clock w) f)
          else Some 0) with (currentR_at (World.clock w) f).
  rewrite Er. cbn [bind].
  set (days := inject_Z (dueDate - World.clock w) / (1000 * 60 * 60 * 24)).
  assert (Hdays : days * (1000 * 60 * 60 * 24) == inject_Z (dueDate - World.clock w)).
  { unfold days. field. }
  clearbody days.
  destruct (Fsrs.state f); [contradiction | | |];
    (destruct (JS.lt days 0) eqn:Elt;
     [ unfold JS.lt in Elt; apply negb_true_iff, Qle_bool_false in Elt;
       assert (Hz : inject_Z (dueDate - World.clock w) < inject_Z 0)
         by (change (inject_Z 0) with 0; lra);
       rewrite <- Zlt_Qlt in Hz;
       eexists; split; [reflexivity |]; cbn; split;
       [ intros _; split; [reflexivity |]; split; [nra |]; split; [nra |];
         exists (- days); split; [reflexivity | lra]
       | intros Hle; lia ]
     | unfold JS.lt in Elt; apply negb_false_iff, Qle_bool_iff in Elt;
       assert (Hz : inject_Z 0 <= inject_Z (dueDate - World.clock w))
         by (change (inject_Z 0) with 0; lra);
       rewrite <- Zle_Qle in Hz;
       eexists; split; [reflexivity |]; cbn; split;
       [ intros Hlt; lia
       | intros _; split; [reflexivity |]; split; [apply Math_max_ge_l |];
         split; [apply Math_max_le; lra |];
         exists days; split; [reflexivity | exact Elt] ] ]).
Qed.

(** X9: the priority bands of a scheduled topic, when the clock has not
    run backwards since its last review.  Past its due date the topic is
    overdue with a priority between 100 and 200; otherwise it is not
    overdue and its priority is between 0 and 40.  An overdue topic thus
    ranks above a new one (50), and a new one above any topic not yet
    due. *)
Theorem calculatePriority_bands
  (w : World.t) (topic : Topic.t) (f : Fsrs.t) (dueDate : Z) :
  Topic.fsrs topic = Some f ->
  Fsrs.state f <> new ->
  Fsrs.due f = Some dueDate ->
  (forall t, Fsrs.last_reviewed f = Some t -> (t <= World.clock w)%Z) ->
  exists p,
    calculatePriority w topic = Some p /\
    ((dueDate < World.clock w)%Z ->
     Priority.isOverdue p = true /\
     100 <= Priority.priority p /\ Priority.priority p <= 200 /\
     exists d, Priority.daysOverdue p = Some d /\ 0 < d) /\
    ((World.clock w <= dueDate)%Z ->
     Priority.isOverdue p = false /\
     0 <= Priority.priority p /\ Priority.priority p <= 40 /\
     exists d, Priority.daysUntilDue p = Some d /\ 0 <= d).
Proof. apply calculatePriority_scheduled. Qed.

(** ** Backups *)

Lemma insert_desc_In (b x : Z * list Topic.t) (l : list (Z * list Topic.t)) :
  In x (insert_desc b l) <-> x = b \/ In x l.
Proof.
  induction l as [| c l IH]; simpl.
  - intuition.
  - destruct (fst c <=? fst b)%Z; simpl; [intuition |].
    rewrite IH. intuition.
Qed.

Lemma insert_desc_newest_first (b : Z * list Topic.t) (l : list (Z * list Topic.t)) :
  newest_first l -> newest_first (insert_desc b l).
Proof.
  induction l as [| c l IH]; simpl.
  - intros _. split; [intros c [] | exact I].
  - intros [Hc Hl]. destruct (Z.leb_spec (fst c) (fst b)) as [Hle | Hlt]; simpl.
    + split; [| split; assumption].
      intros d [<- | Hd]; [exact Hle |].
      specialize (Hc d Hd). lia.
    + split; [| apply IH, Hl].
      intros d Hd. apply insert_desc_In in Hd.
      destruct Hd as [-> | Hd]; [lia | apply Hc, Hd].
Qed.

Lemma sort_desc_In (x : Z * list Topic.t) (l : list (Z * list Topic.t)) :
  In x (sort_desc l) <-> In x l.
Proof.
  unfold sort_desc. induction l as [| c l IH]; simpl; [reflexivity |].
  rewrite insert_desc_In, IH. intuition.
Qed.

Lemma sort_desc_newest_first (l : list (Z * list Topic.t)) :
  newest_first (sort_desc l).
Proof.
  unfold sort_desc. induction l as [| c l IH]; simpl; [exact I |].
  apply insert_desc_newest_first, IH.
Qed.

Lemma sort_desc_length (l : list (Z * list Topic.t)) :
  length (sort_desc l) = length l.
Proof.
  assert (H : forall b m, length (insert_desc b m) = S (length m)).
  { intros b m. induction m as [| c m IH]; simpl; [reflexivity |].
    destruct (fst c <=? fst b)%Z; simpl; [reflexivity | now rewrite IH]. }
  unfold sort_desc. induction l as [| c l IH]; simpl; [reflexivity |].
  now rewrite H, IH.
Qed.

Lemma firstn_In_list {A : Type} (n : nat) (l : list A) (x : A) :
  In x (firstn n l) -> In x l.
Proof.
  revert l. induction n as [| n IH]; intros [| a l]; simpl; try easy.
  intros [-> | H]; [now left | right; now apply IH].
Qed.

Lemma firstn_newest_first (n : nat) (l : list (Z * list Topic.t)) :
  newest_first l -> newest_first (firstn n l).
Proof.
  revert l. induction n as [| n IH]; intros [| b l]; simpl; try easy.
  intros [Hb Hl]. split; [| apply IH, Hl].
  intros c Hc. apply Hb. eapply firstn_In_list, Hc.
Qed.

(** X10: [createBackup] leaves the topics file alone, keeps at most
    [MAX_BACKUPS] copies with the most recent first, and every copy kept
    is the one just made or an older one of another name. *)
Theorem createBackup_bounded (w : World.t) :
  World.topics_file (createBackup w) = World.topics_file w /\
  (length (World.backups (createBackup w)) <= MAX_BACKUPS)%nat /\
  newest_first (World.backups (createBackup w)) /\
  (forall b, In b (World.backups (createBackup w)) ->
     b = (World.clock w, World.topics_file w) \/
     (In b (World.backups w) /\ fst b <> World.clock w)).
Proof.
  unfold createBackup, World.set_backups. cbn [World.topics_file World.backups].
  split; [reflexivity |]. split; [| split].
  - apply firstn_le_length.
  - apply firstn_newest_first, sort_desc_newest_first.
  - intros b Hb. apply firstn_In_list in Hb. rewrite sort_desc_In in Hb.
    apply in_inv in Hb. destruct Hb as [<- | Hb]; [now left |]. right.
    apply filter_In in Hb. destruct Hb as [Hb Hne]. split; [exact Hb |].
    apply negb_true_iff, Z.eqb_neq in Hne. exact Hne.
Qed.

Lemma createBackup_head (w : World.t) :
  (forall b, In b (World.backups w) -> (fst b <= World.clock w)%Z) ->
  exists older,
    World.backups (createBackup w) = (World.clock w, World.topics_file w) :: older /\
    (length older < MAX_BACKUPS)%nat.
Proof.
  intros Hold. unfold createBackup, World.set_backups. cbn [World.backups].
  set (kept := filter (fun b => negb (fst b =? World.clock w)%Z) (World.backups w)).
  change (sort_desc ((World.clock w, World.topics_file w) :: kept))
    with (insert_desc (World.clock w, World.topics_file w) (sort_desc kept)).
  assert (Hhead : insert_desc (World.clock w, World.topics_file w) (sort_desc kept)
                  = (World.clock w, World.topics_file w) :: sort_desc kept).
  { destruct (sort_desc kept) as [| c l] eqn:E; [reflexivity |]. simpl.
    assert (Hc : In c kept).
    { rewrite <- sort_desc_In, E. now left. }
    apply filter_In in Hc. destruct Hc as [Hc _].
    specialize (Hold c Hc).
    now rewrite (proj2 (Z.leb_le _ _) Hold). }
  rewrite Hhead. change MAX_BACKUPS with (S 9). rewrite firstn_cons.
  exists (firstn 9 (sort_desc kept)). split; [reflexivity |].
  pose proof (firstn_le_length 9 (sort_desc kept)). lia.
Qed.

(** X11: when no backup bears a later name than the clock shows, the
    copy just made comes first: the most recent backup holds the topics
    file as it was when [createBackup] was called. *)
Theorem createBackup_newest (w : World.t) :
  (forall b, In b (World.backups w) -> (fst b <= World.clock w)%Z) ->
  exists older,
    World.backups (createBackup w) = (World.clock w, World.topics_file w) :: older /\
    (length older < MAX_BACKUPS)%nat.
Proof. apply createBackup_head. Qed.

(** ** Loading and migrating the topics *)

Lemma migrate_spec (w w' : World.t) (x x' : Topic.t) (modified : bool) :
  migrate w x = (x', modified, w') ->
  migrated x x' /\
  same_files w w' /\
  (modified = false -> x' = x /\ w' = w) /\
  (complete x -> modified = false) /\
  ((forall n, World.uuid_source w n <> ""%string) -> complete x').
Proof.
  unfold migrate, migrated, complete, same_files, no_id.
  destruct x as [i t s tg ts f]. cbn.
  destruct i as [i |]; [destruct (String.eqb_spec i "") as [-> | Hne] |];
    destruct f as [f |]; cbn; intros H; injection H as <- <- <-; cbn;
    repeat split; eauto; try discriminate; try congruence;
    try (intros [H _]; discriminate H);
    try (intros [_ [g H]]; discriminate H);
    try (apply String.eqb_neq; auto).
Qed.

Lemma migrate_all_spec (topics : list Topic.t) :
  forall (w w' : World.t) (topics' : list Topic.t) (needsMigration : bool),
    migrate_all w topics = (topics', needsMigration, w') ->
    Forall2 migrated topics topics' /\
    same_files w w' /\
    (needsMigration = false -> topics' = topics /\ w' = w) /\
    (Forall complete topics -> needsMigration = false) /\
    ((forall n, World.uuid_source w n <> ""%string) -> Forall complete topics').
Proof.
  induction topics as [| x rest IH]; intros w w' topics' needs; simpl.
  - intros H. injection H as <- <- <-.
    unfold same_files. repeat split; auto.
  - destruct (migrate w x) as [[x' modified] w1] eqn:Ex.
    destruct (migrate_all w1 rest) as [[rest' needs'] w2] eqn:Erest.
    intros H. injection H as <- <- <-.
    apply migrate_spec in Ex.
    destruct Ex as (Hx & Hw1 & Hsame & Hcomplete & Hafter).
    apply IH in Erest.
    destruct Erest as (Hrest & Hw2 & Hsame' & Hcomplete' & Hafter').
    split; [now constructor |]. split; [| split; [| split]].
    + unfold same_files in *. intuition congruence.
    + intros Hfalse. apply orb_false_iff in Hfalse. destruct Hfalse as [H1 H2].
      destruct (Hsame H1) as [-> ->]. destruct (Hsame' H2) as [-> ->]. now split.
    + intros Hall. inversion Hall as [| ? ? Hx0 Hrest0]; subst.
      now rewrite (Hcomplete Hx0), (Hcomplete' Hrest0).
    + intros Hsrc. constructor; [now apply Hafter |].
      apply Hafter'. intros n.
      destruct Hw1 as (_ & _ & _ & _ & ->). apply Hsrc.
Qed.

Lemma loadTopics_spec (w : World.t) :
  Forall2 migrated (World.topics_file w) (fst (loadTopics w)) /\
  World.topics_file (snd (loadTopics w)) = fst (loadTopics w) /\
  World.clock (snd (loadTopics w)) = World.clock w /\
  World.config_file (snd (loadTopics w)) = World.config_file w.
Proof.
  unfold loadTopics.
  destruct (World.topics_file w) as [| x rest] eqn:Efile.
  - cbn. repeat split; [constructor | auto].
  - destruct (migrate_all w (x :: rest)) as [[topics needs] w1] eqn:E.
    apply migrate_all_spec in E.
    destruct E as (Hall & (Hc & Hcfg & Hfile & _) & Hsame & _).
    destruct needs; cbn.
    + repeat split; auto.
    + destruct (Hsame eq_refl) as [-> ->]. repeat split; auto.
Qed.

(** X12: [loadTopics] returns one topic for each line of the file, in
    order, with its payload; each has an id and a scheduling state
    afterwards, and an id or a state that was there is kept.  The topics
    file then holds exactly the list returned; clock and configuration
    file are as before. *)
Theorem loadTopics_migrates (w : World.t) :
  Forall2 migrated (World.topics_file w) (fst (loadTopics w)) /\
  World.topics_file (snd (loadTopics w)) = fst (loadTopics w) /\
  World.clock (snd (loadTopics w)) = World.clock w /\
  World.config_file (snd (loadTopics w)) = World.config_file w.
Proof. apply loadTopics_spec. Qed.

Lemma loadTopics_complete (w : World.t) :
  Forall complete (World.topics_file w) ->
  loadTopics w = (World.topics_file w, w).
Proof.
  intros Hall. unfold loadTopics.
  destruct (World.topics_file w) as [| x rest] eqn:Efile; [reflexivity |].
  destruct (migrate_all w (x :: rest)) as [[topics needs] w1] eqn:E.
  apply migrate_all_spec in E.
  destruct E as (_ & _ & Hsame & Hcomplete & _).
  rewrite (Hcomplete Hall) in *.
  destruct (Hsame eq_refl) as [-> ->]. reflexivity.
Qed.

Lemma loadTopics_result_complete (w : World.t) :
  (forall n, World.uuid_source w n <> ""%string) ->
  Forall complete (fst (loadTopics w)).
Proof.
  intros Hsrc. unfold loadTopics.
  destruct (World.topics_file w) as [| x rest] eqn:Efile; [constructor |].
  destruct (migrate_all w (x :: rest)) as [[topics needs] w1] eqn:E.
  apply migrate_all_spec in E.
  destruct E as (_ & _ & _ & _ & Hafter).
  destruct needs; cbn; now apply Hafter.
Qed.

(** X13: loading twice.  When [crypto.randomUUID] never returns the empty
    string, a second [loadTopics] returns the same topics as the first
    and changes nothing: no file is written and no backup is made. *)
Theorem loadTopics_twice (w : World.t) :
  (forall n, World.uuid_source w n <> ""%string) ->
  loadTopics (snd (loadTopics w)) = (fst (loadTopics w), snd (loadTopics w)).
Proof.
  intros Hsrc.
  pose proof (loadTopics_result_complete w Hsrc) as Hall.
  destruct (loadTopics_spec w) as (_ & Hfile & _).
  rewrite loadTopics_complete; now rewrite Hfile.
Qed.

(** X14: a file of complete topics is returned as it is, and nothing is
    written; otherwise the file is backed up as it was and rewritten. *)
Theorem loadTopics_writes_only_to_migrate (w : World.t) :
  (Forall complete (World.topics_file w) -> loadTopics w = (World.topics_file w, w)) /\
  (snd (loadTopics w) <> w ->
   exists w1,
     same_files w w1 /\
     snd (loadTopics w) = atomicWriteTopics (fst (loadTopics w)) (createBackup w1)).
Proof.
  split; [apply loadTopics_complete |].
  unfold loadTopics.
  destruct (World.topics_file w) as [| x rest] eqn:Efile; [cbn; congruence |].
  destruct (migrate_all w (x :: rest)) as [[topics needs] w1] eqn:E.
  apply migrate_all_spec in E.
  destruct E as (_ & Hw1 & Hsame & _).
  destruct needs; cbn.
  - intros _. exists w1. split; [exact Hw1 | reflexivity].
  - destruct (Hsame eq_refl) as [_ ->]. congruence.
Qed.

(** ** Updating one topic *)

Lemma findIndex_Some (topicId : string) (topics : list Topic.t) (n : nat) (y : Topic.t) :
  findIndex topicId topics = Some (n, y) ->
  nth_error topics n = Some y /\
  Topic.id y = Some topicId /\
  (forall m z, (m < n)%nat -> nth_error topics m = Some z -> Topic.id z <> Some topicId).
Proof.
  revert n. induction topics as [| x rest IH]; intros n; simpl; [discriminate |].
  destruct (Topic.id x) as [i |] eqn:Ei.
  - destruct (String.eqb_spec i topicId) as [-> | Hne].
    + intros H. injection H as <- <-. repeat split; [exact Ei |].
      intros m z Hm. lia.
    + destruct (findIndex topicId rest) as [[k y'] |]; [| discriminate].
      intros H. injection H as <- <-.
      destruct (IH k eq_refl) as (Hnth & Hid & Hfirst).
      repeat split; [exact Hnth | exact Hid |].
      intros [| m] z Hm; simpl.
      * intros H. injection H as <-. rewrite Ei. congruence.
      * apply Hfirst. lia.
  - destruct (findIndex topicId rest) as [[k y'] |]; [| discriminate].
    intros H. injection H as <- <-.
    destruct (IH k eq_refl) as (Hnth & Hid & Hfirst).
    repeat split; [exact Hnth | exact Hid |].
    intros [| m] z Hm; simpl.
    + intros H. injection H as <-. rewrite Ei. discriminate.
    + apply Hfirst. lia.
Qed.

Lemma findIndex_None (topicId : string) (topics : list Topic.t) :
  findIndex topicId topics = None <->
  (forall x, In x topics -> Topic.id x <> Some topicId).
Proof.
  induction topics as [| x rest IH]; simpl.
  - split; [intros _ x [] | reflexivity].
  - destruct (Topic.id x) as [i |] eqn:Ei.
    + destruct (String.eqb_spec i topicId) as [-> | Hne].
      * split; [discriminate |]. intros H. now contradiction (H x (or_introl eq_refl)).
      * destruct (findIndex topicId rest) as [[k y'] |].
        -- split; [discriminate |]. intros H.
           destruct IH as [_ IH]. discriminate IH. intros z Hz. apply H. now right.
        -- split; [| reflexivity]. intros _ z [<- | Hz].
           ++ rewrite Ei. congruence.
           ++ now apply (proj1 IH).
    + destruct (findIndex topicId rest) as [[k y'] |].
      * split; [discriminate |]. intros H.
        destruct IH as [_ IH]. discriminate IH. intros z Hz. apply H. now right.
      * split; [| reflexivity]. intros _ z [<- | Hz].
        -- rewrite Ei. discriminate.
        -- now apply (proj1 IH).
Qed.

Lemma set_nth_length (n : nat) (x : Topic.t) (l : list Topic.t) :
  length (set_nth n x l) = length l.
Proof.
  revert n. induction l as [| y l IH]; intros [| n]; simpl; auto.
Qed.

Lemma set_nth_same (n : nat) (x y : Topic.t) (l : list Topic.t) :
  nth_error l n = Some y -> nth_error (set_nth n x l) n = Some x.
Proof.
  revert n. induction l as [| z l IH]; intros [| n]; simpl; try discriminate; auto.
Qed.

Lemma set_nth_other (n m : nat) (x : Topic.t) (l : list Topic.t) :
  m <> n -> nth_error (set_nth n x l) m = nth_error l m.
Proof.
  revert n m. induction l as [| z l IH]; intros [| n] [| m] H; simpl; auto.
  contradiction.
Qed.

(** The three ways [updateTopic] ends. *)
Lemma updateTopic_cases
  (w w' : World.t) (topicId : string)
  (updater : World.t -> Topic.t -> option Topic.t * World.t) (r : UpdateResult) :
  updateTopic w topicId updater = (r, w') ->
  (findIndex topicId (fst (loadTopics w)) = None /\
   r = UpdateFailed "Topic not found" /\ w' = snd (loadTopics w)) \/
  (exists n old,
     findIndex topicId (fst (loadTopics w)) = Some (n, old) /\
     ((r = UpdateThrew /\
       updater (createBackup (snd (loadTopics w))) old = (None, w')) \/
      (exists updated w1,
         updater (createBackup (snd (loadTopics w))) old = (Some updated, w1) /\
         r = UpdateDone updated /\
         w' = atomicWriteTopics (set_nth n updated (fst (loadTopics w))) w1))).
Proof.
  unfold updateTopic. destruct (loadTopics w) as [topics w0]. cbn [fst snd].
  destruct (findIndex topicId topics) as [[n old] |].
  - destruct (updater (createBackup w0) old) as [[updated |] w1] eqn:Eu;
      intros H; injection H as <- <-; right; exists n, old; split; auto.
    right. exists updated, w1. auto.
  - intros H. injection H as <- <-. left. auto.
Qed.

(** X15: [updateTopic] fails with "Topic not found" exactly when no
    loaded topic has the id; the updater then plays no part and nothing
    happens beyond what [loadTopics] did. *)
Theorem updateTopic_not_found
  (w : World.t) (topicId : string)
  (updater : World.t -> Topic.t -> option Topic.t * World.t) :
  ((forall x, In x (fst (loadTopics w)) -> Topic.id x <> Some topicId) ->
   updateTopic w topicId updater
   = (UpdateFailed "Topic not found", snd (loadTopics w))) /\
  (forall error w',
     updateTopic w topicId updater = (UpdateFailed error, w') ->
     forall x, In x (fst (loadTopics w)) -> Topic.id x <> Some topicId).
Proof.
  split.
  - intros H. apply findIndex_None in H.
    unfold updateTopic. destruct (loadTopics w) as [topics w0]. cbn [fst snd] in *.
    now rewrite H.
  - intros error w' H. apply updateTopic_cases in H.
    destruct H as [(Hnone & _) | (n & old & _ & [[H _] | (u & w1 & _ & H & _)])];
      [now apply findIndex_None | discriminate H | discriminate H].
Qed.

(** X16: a successful [updateTopic] replaces the first loaded topic with
    the id by what the updater returned for it, after a backup was made;
    the number of topics and every other topic stay. *)
Theorem updateTopic_replaces_first
  (w w' : World.t) (topicId : string)
  (updater : World.t -> Topic.t -> option Topic.t * World.t) (updated : Topic.t) :
  updateTopic w topicId updater = (UpdateDone updated, w') ->
  exists n old w1,
    nth_error (fst (loadTopics w)) n = Some old /\
    Topic.id old = Some topicId /\
    (forall m z, (m < n)%nat -> nth_error (fst (loadTopics w)) m = Some z ->
                 Topic.id z <> Some topicId) /\
    updater (createBackup (snd (loadTopics w))) old = (Some updated, w1) /\
    World.topics_file w' = set_nth n updated (fst (loadTopics w)) /\
    length (World.topics_file w') = length (fst (loadTopics w)) /\
    nth_error (World.topics_file w') n = Some updated /\
    (forall m, m <> n ->
       nth_error (World.topics_file w') m = nth_error (fst (loadTopics w)) m).
Proof.
  intros H. apply updateTopic_cases in H.
  destruct H as [(_ & H & _) | (n & old & Hfind & [[H _] | (u & w1 & Hu & H & ->)])];
    [discriminate H | discriminate H |].
  injection H as <-.
  apply findIndex_Some in Hfind. destruct Hfind as (Hnth & Hid & Hfirst).
  exists n, old, w1. cbn [atomicWriteTopics World.topics_file World.set_topics_file].
  unfold atomicWriteTopics, World.set_topics_file. cbn [World.topics_file].
  repeat split; auto.
  - apply set_nth_length.
  - eapply set_nth_same, Hnth.
  - intros m Hm. now apply set_nth_other.
Qed.

(** ** Logging a review *)

Section MoreServer.

Variable Math_exp : Q -> Q.
Variable Math_pow : Q -> Q -> Q.

(** What the updater of [log_review_outcome] returns. *)
Lemma review_updater
  (w w1 : World.t) (old : Topic.t) (g : Q) (config : Config.t) (r : option Topic.t) :
  (let fsrs :=
     match Topic.fsrs old with
     | Some f => f
     | None => createDefaultFsrsState
     end in
   let (newFsrs, w0) := processReview Math_exp Math_pow w fsrs g (Some config) in
   (f <- newFsrs ;; Some (Topic.set_fsrs (Some f) old), w0)) = (r, w1) ->
  w1 = w /\
  r = option_map (fun f => Topic.set_fsrs (Some f) old)
        (fst (processReview Math_exp Math_pow w
                (match Topic.fsrs old with
                 | Some f => f
                 | None => createDefaultFsrsState
                 end) g (Some config))).
Proof.
  cbv zeta.
  destruct (processReview _ _ _ _ _ _) as [newFsrs w0] eqn:E.
  assert (Hw : w0 = w).
  { change w0 with (snd (newFsrs, w0)). rewrite <- E. reflexivity. }
  intros H. injection H as <- <-. split; [exact Hw |].
  cbn [fst]. now destruct newFsrs.
Qed.

(** X17: for a grade 1 to 4 and an id that no loaded topic has, the
    answer is the error text "Topic not found" with the id, and the
    topics file holds the loaded topics. *)
Theorem log_review_outcome_unknown_id (w : World.t) (id : string) (g : Q) :
  is_grade g ->
  (forall x, In x (fst (loadTopics (snd (loadConfig w)))) -> Topic.id x <> Some id) ->
  log_review_outcome Math_exp Math_pow w id g
  = (ErrorText "Topic not found" id, snd (loadTopics (snd (loadConfig w)))).
Proof.
  intros Hg Hnone. unfold log_review_outcome.
  rewrite (proj2 (includes_grade Math_exp Math_pow g) Hg). cbn [negb].
  destruct (loadConfig w) as [config w0]. cbn [snd] in Hnone |- *.
  apply findIndex_None in Hnone.
  unfold updateTopic. destruct (loadTopics w0) as [topics w1]. cbn [fst snd] in *.
  now rewrite Hnone.
Qed.

(** X18: a review that is reported has changed the scheduling state of
    the first loaded topic with the id, and nothing else in the topics
    file: the new state is what [processReview] returned for the old one
    (the default state if there was none), under the loaded
    configuration, and the report shows its fields. *)
Theorem log_review_outcome_touches_one
  (w w' : World.t) (id : string) (g : Q)
  (name : string) (g' : Q) (tag : StateTag) (stability difficulty : Q)
  (next_review : option Z) (review_count lapses : Z) :
  log_review_outcome Math_exp Math_pow w id g
  = (Report name g' tag stability difficulty next_review review_count lapses, w') ->
  let config := fst (loadConfig w) in
  let loaded := fst (loadTopics (snd (loadConfig w))) in
  let w1 := createBackup (snd (loadTopics (snd (loadConfig w)))) in
  exists n old f',
    is_grade g /\
    nth_error loaded n = Some old /\
    Topic.id old = Some id /\
    (forall m z, (m < n)%nat -> nth_error loaded m = Some z -> Topic.id z <> Some id) /\
    fst (processReview Math_exp Math_pow w1
           (match Topic.fsrs old with
            | Some f => f
            | None => createDefaultFsrsState
            end) g (Some config)) = Some f' /\
    World.topics_file w' = set_nth n (Topic.set_fsrs (Some f') old) loaded /\
    (forall m, m <> n -> nth_error (World.topics_file w') m = nth_error loaded m) /\
    name = Topic.topic old /\ g' = g /\
    tag = Fsrs.state f' /\ next_review = Fsrs.due f' /\
    review_count = Fsrs.review_count f' /\ lapses = Fsrs.lapses f'.
Proof.
  unfold log_review_outcome.
  destruct (includes [1; 2; 3; 4] g) eqn:Eg; cbn [negb]; [| discriminate].
  apply (includes_grade Math_exp Math_pow) in Eg.
  destruct (loadConfig w) as [config w0]. cbn [fst snd].
  destruct (updateTopic w0 id _) as [result w2] eqn:EU.
  apply updateTopic_cases in EU.
  destruct EU as [(_ & -> & _) | (n & old & Hfind & [[-> _] | (u & w3 & Hu & -> & ->)])];
    [discriminate | discriminate |].
  apply review_updater in Hu. destruct Hu as [-> Hu].
  destruct (fst (processReview _ _ _ _ _ _)) as [f' |] eqn:Ef; [| discriminate Hu].
  cbn [option_map] in Hu. injection Hu as ->.
  cbn [Topic.fsrs Topic.set_fsrs Topic.topic].
  intros H. injection H as <- <- <- _ _ <- <- <- <-.
  apply findIndex_Some in Hfind. destruct Hfind as (Hnth & Hid & Hfirst).
  exists n, old, f'.
  unfold atomicWriteTopics, World.set_topics_file. cbn [World.topics_file].
  split; [exact Eg |]. split; [exact Hnth |]. split; [exact Hid |].
  split; [exact Hfirst |].
  repeat split; auto.
  intros m Hm. now apply set_nth_other.
Qed.

(** X19: a review that is not reported leaves every topic as it was
    loaded: after the error text for an unknown id, or after an exception
    in the engine, the topics file holds the loaded topics. *)
Theorem log_review_outcome_failure_keeps_topics
  (w w' : World.t) (id : string) (g : Q) (answer : ToolAnswer) :
  log_review_outcome Math_exp Math_pow w id g = (answer, w') ->
  (forall error i, answer = ErrorText error i \/ answer = Rejected ->
     World.topics_file w' = fst (loadTopics (snd (loadConfig w)))) /\
  (forall x, answer = InvalidGrade x -> w' = w).
Proof.
  unfold log_review_outcome.
  destruct (includes [1; 2; 3; 4] g) eqn:Eg; cbn [negb].
  2:{ intros H. injection H as <- <-. split; [| reflexivity].
      intros error i [H | H]; discriminate H. }
  destruct (loadConfig w) as [config w0]. cbn [fst snd].
  destruct (loadTopics_spec w0) as (_ & Hfile & _).
  destruct (updateTopic w0 id _) as [result w2] eqn:EU.
  apply updateTopic_cases in EU.
  destruct EU as [(_ & -> & ->) | (n & old & Hfind & [[-> Hu] | (u & w3 & Hu & -> & ->)])].
  - intros H. injection H as <- <-. split; [auto | discriminate].
  - apply review_updater in Hu. destruct Hu as [-> _].
    intros H. injection H as <- <-. split; [| discriminate].
    intros _ _ _. exact Hfile.
  - apply review_updater in Hu. destruct Hu as [-> Hu].
    destruct (fst (processReview _ _ _ _ _ _)) as [f' |]; [| discriminate Hu].
    cbn [option_map] in Hu. injection Hu as ->.
    cbn [Topic.fsrs Topic.set_fsrs].
    intros H. injection H as <- <-. split; [| discriminate].
    intros error i [H | H]; discriminate H.
Qed.

End MoreServer.

(** ** Appending, listing and clearing topics *)

Lemma new_entries_spec (topics : list Entry.t) :
  forall (w w' : World.t) (entries : list Topic.t),
    new_entries w topics = (entries, w') ->
    Forall2 (fresh_entry (World.clock w)) topics entries /\
    same_files w w' /\
    ((forall n, World.uuid_source w n <> ""%string) -> Forall complete entries).
Proof.
  induction topics as [| t rest IH]; intros w w' entries; simpl.
  - intros H. injection H as <- <-. unfold same_files. repeat split; auto.
  - destruct (new_entries _ rest) as [entries' w1] eqn:E.
    intros H. injection H as <- <-.
    apply IH in E. destruct E as (Hrest & Hsame & Hcomplete).
    unfold same_files in *. cbn in Hsame, Hrest, Hcomplete.
    split; [| split].
    + constructor; [| exact Hrest].
      unfold fresh_entry. cbn. repeat split. eauto.
    + intuition.
    + intros Hsrc. constructor; [| now apply Hcomplete].
      unfold complete, no_id. cbn. split; [| eauto].
      apply String.eqb_neq, Hsrc.
Qed.

(** X20: [append_topic] answers with the number and the names of the
    topics given and appends one topic for each, in order, in the default
    scheduling state and with the current time; the topics already in the
    file, the backups and the configuration file are not touched.  It
    goes through for every array that is not empty. *)
Theorem append_topic_appends (w : World.t) (topics : list Entry.t) :
  topics <> [] ->
  exists entries w',
    append_topic w topics
    = Some (Logged (length topics) (map Entry.topic topics), w') /\
    World.topics_file w' = World.topics_file w ++ entries /\
    Forall2 (fresh_entry (World.clock w)) topics entries /\
    World.backups w' = World.backups w /\
    World.config_file w' = World.config_file w /\
    World.clock w' = World.clock w.
Proof.
  intros Hne. unfold append_topic.
  destruct topics as [| t rest]; [contradiction |].
  destruct (new_entries w (t :: rest)) as [entries w1] eqn:E.
  apply new_entries_spec in E. destruct E as (Hfresh & Hsame & _).
  destruct Hsame as (Hclock & Hcfg & Hfile & Hbak & _).
  assert (Hlen : length entries = length (t :: rest)).
  { symmetry. eapply Forall2_length, Hfresh. }
  assert (Hnames : map Topic.topic entries = map Entry.topic (t :: rest)).
  { clear -Hfresh. induction Hfresh as [| e x es xs Hx _ IH]; [reflexivity |].
    simpl. destruct Hx as (-> & _). now rewrite IH. }
  exists entries, (World.set_topics_file (World.topics_file w1 ++ entries) w1).
  rewrite Hlen, Hnames. split; [reflexivity |].
  cbn [World.topics_file World.set_topics_file World.backups World.config_file
       World.clock].
  rewrite Hfile. repeat split; auto.
Qed.

(** X21: appending and loading.  When the file holds complete topics and
    [crypto.randomUUID] never returns the empty string, the topics loaded
    after [append_topic] are those of the file followed by the new ones,
    and loading them writes nothing. *)
Theorem append_topic_then_load
  (w w' : World.t) (topics : list Entry.t) (answer : AppendAnswer) :
  Forall complete (World.topics_file w) ->
  (forall n, World.uuid_source w n <> ""%string) ->
  append_topic w topics = Some (answer, w') ->
  exists entries,
    loadTopics w' = (World.topics_file w ++ entries, w') /\
    Forall2 (fresh_entry (World.clock w)) topics entries.
Proof.
  intros Hfile Hsrc. unfold append_topic.
  destruct topics as [| t rest]; [discriminate |].
  destruct (new_entries w (t :: rest)) as [entries w1] eqn:E.
  apply new_entries_spec in E. destruct E as (Hfresh & Hsame & Hcomplete).
  destruct Hsame as (_ & _ & Hf & _).
  intros H. injection H as _ <-.
  exists entries. split; [| exact Hfresh].
  rewrite loadTopics_complete; cbn [World.topics_file World.set_topics_file].
  - now rewrite Hf.
  - rewrite Hf. apply Forall_app. split; [exact Hfile | now apply Hcomplete].
Qed.

(** X22: a topic as [append_topic] writes it has priority 50 and is not
    overdue, whenever it is looked at. *)
Theorem appended_topic_priority
  (w w' w'' : World.t) (topics : list Entry.t) (answer : AppendAnswer) (x : Topic.t) :
  append_topic w topics = Some (answer, w') ->
  In x (skipn (length (World.topics_file w)) (World.topics_file w')) ->
  calculatePriority w'' x = Some (Priority.mk 50 false None None None).
Proof.
  unfold append_topic.
  destruct topics as [| t rest]; [discriminate |].
  destruct (new_entries w (t :: rest)) as [entries w1] eqn:E.
  apply new_entries_spec in E. destruct E as (Hfresh & Hsame & _).
  destruct Hsame as (_ & _ & Hf & _).
  intros H. injection H as _ <-.
  cbn [World.topics_file World.set_topics_file]. rewrite Hf.
  rewrite skipn_app, skipn_all, Nat.sub_diag. cbn [skipn app].
  intros Hx.
  assert (Hstate : Topic.fsrs x = Some createDefaultFsrsState).
  { clear -Hfresh Hx. induction Hfresh as [| e y es ys Hy _ IH]; [contradiction |].
    destruct Hx as [<- | Hx]; [apply Hy | now apply IH]. }
  unfold calculatePriority. now rewrite Hstate.
Qed.

Lemma loadTopics_empty (w : World.t) :
  fst (loadTopics w) = [] <-> World.topics_file w = [].
Proof.
  destruct (loadTopics_spec w) as (Hall & _).
  apply Forall2_length in Hall.
  destruct (fst (loadTopics w)), (World.topics_file w); simpl in Hall;
    split; intros H; try reflexivity; try discriminate; lia.
Qed.

Lemma truncate_inject_Z (z : Z) : JS.truncate (inject_Z z) = z.
Proof. unfold JS.truncate. simpl. apply Z.quot_1_r. Qed.

Lemma truthy_inject_Z (z : Z) : z <> 0%Z -> JS.truthy (Some (inject_Z z)) = true.
Proof.
  intros H. unfold JS.truthy. apply negb_true_iff, Qeq_bool_false.
  intros E. unfold Qeq in E. simpl in E. lia.
Qed.

Lemma slice_from_last {A : Type} (n : Z) (l : list A) :
  (0 < n)%Z ->
  slice_from (- inject_Z n) l = skipn (length l - Z.to_nat n) l.
Proof.
  intros Hn. unfold slice_from.
  change (- inject_Z n) with (inject_Z (- n)). rewrite truncate_inject_Z.
  destruct (Z.ltb_spec (- n) 0) as [_ | H]; [| lia].
  f_equal. lia.
Qed.

Lemma slice_from_drop {A : Type} (n : Z) (l : list A) :
  (0 < n)%Z ->
  slice_from (- inject_Z (- n)) l = skipn (Z.to_nat n) l.
Proof.
  intros Hn. unfold slice_from.
  change (- inject_Z (- n)) with (inject_Z (- - n)).
  rewrite truncate_inject_Z, Z.opp_involutive.
  destruct (Z.ltb_spec n 0) as [H | _]; [lia |].
  destruct (Z.le_gt_cases n (Z.of_nat (length l))) as [Hle | Hgt].
  - now rewrite Z.min_l.
  - rewrite Z.min_r by lia. rewrite Nat2Z.id.
    rewrite skipn_all. symmetry. apply skipn_all2. lia.
Qed.

(** X23: [get_topics] with a limit that is a positive integer [n] and no
    tag returns the last [n] loaded topics, or all of them if there are
    fewer. *)
Theorem get_topics_limit (w : World.t) (n : Z) :
  World.topics_file w <> [] -> (0 < n)%Z ->
  exists shown,
    get_topics w None (Some (inject_Z n)) = (TopicsJson shown, snd (loadTopics w)) /\
    shown = skipn (length (fst (loadTopics w)) - Z.to_nat n) (fst (loadTopics w)) /\
    length shown = Nat.min (Z.to_nat n) (length (fst (loadTopics w))).
Proof.
  intros Hfile Hn. rewrite <- loadTopics_empty in Hfile.
  unfold get_topics. destruct (loadTopics w) as [topics w1]. cbn [fst snd] in *.
  destruct topics as [| x rest] eqn:E; [contradiction |]. rewrite <- E.
  cbn [truthy_string]. rewrite truthy_inject_Z by lia.
  cbn [JS.ToNumber]. rewrite slice_from_last by exact Hn.
  eexists. split; [reflexivity |]. split; [reflexivity |].
  rewrite length_skipn. lia.
Qed.

(** X24: a negative limit is not turned down: with the limit [-n] and no
    tag, [get_topics] leaves out the first [n] loaded topics and returns
    the rest. *)
Theorem get_topics_negative_limit (w : World.t) (n : Z) :
  World.topics_file w <> [] -> (0 < n)%Z ->
  get_topics w None (Some (inject_Z (- n)))
  = (TopicsJson (skipn (Z.to_nat n) (fst (loadTopics w))), snd (loadTopics w)).
Proof.
  intros Hfile Hn. rewrite <- loadTopics_empty in Hfile.
  unfold get_topics. destruct (loadTopics w) as [topics w1]. cbn [fst snd] in *.
  destruct topics as [| x rest] eqn:E; [contradiction |]. rewrite <- E.
  cbn [truthy_string]. rewrite truthy_inject_Z by lia.
  cbn [JS.ToNumber]. now rewrite slice_from_drop.
Qed.

(** X25: [get_topics] answers "No topics logged yet." exactly when the
    topics file is empty; a tag that no topic has gives the empty list
    instead. *)
Theorem get_topics_no_topics (w : World.t) (tag : option string) (limit : option Q) :
  (fst (get_topics w tag limit) = NoTopicsYet <-> World.topics_file w = []) /\
  (World.topics_file w <> [] ->
   truthy_string tag = true ->
   (forall x s, In x (fst (loadTopics w)) -> tag = Some s -> has_tag s x = false) ->
   fst (get_topics w tag limit) = TopicsJson []).
Proof.
  rewrite <- loadTopics_empty.
  unfold get_topics. destruct (loadTopics w) as [topics w1]. cbn [fst snd].
  split.
  - destruct topics; cbn [fst]; split; intros H; try reflexivity; discriminate H.
  - intros Hne Htag Hnone.
    destruct topics as [| x rest] eqn:E; [contradiction |]. rewrite <- E in *.
    rewrite Htag. destruct tag as [s |]; [| discriminate Htag].
    assert (Hfilter : filter (has_tag s) topics = []).
    { clear -Hnone. induction topics as [| y l IH]; [reflexivity |]. simpl.
      rewrite (Hnone y s (or_introl eq_refl) eq_refl).
      apply IH. intros z s' Hz. apply Hnone. now right. }
    rewrite Hfilter. cbn [fst].
    destruct (JS.truthy limit); [| reflexivity].
    unfold slice_from. now rewrite skipn_nil.
Qed.

(** X26: [clear_topics] empties the topics file after copying it: when no
    backup bears a later name than the clock shows, the most recent
    backup holds the topics as they were.  Afterwards [get_topics] and
    [review_next_topic] find no topics. *)
Theorem clear_topics_keeps_backup (w : World.t) :
  (forall b, In b (World.backups w) -> (fst b <= World.clock w)%Z) ->
  World.topics_file (clear_topics w) = [] /\
  (exists older,
     World.backups (clear_topics w) = (World.clock w, World.topics_file w) :: older) /\
  (forall tag limit,
     get_topics (clear_topics w) tag limit = (NoTopicsYet, clear_topics w)) /\
  (forall tag include_stats,
     review_next_topic (clear_topics w) tag include_stats
     = Some (NoTopicsAvailable, clear_topics w)).
Proof.
  intros Hold. destruct (createBackup_head w Hold) as (older & Hhead & _).
  unfold clear_topics. split; [reflexivity |]. split; [| split].
  - exists older. exact Hhead.
  - reflexivity.
  - reflexivity.
Qed.

(** ** Choosing the next topic *)

Lemma score_all_spec (w : World.t) (topics : list Topic.t) (scored : list Scored.t) :
  score_all w topics = Some scored ->
  map Scored.topic scored = topics /\
  Forall (fun s => calculatePriority w (Scored.topic s) = Some (Scored.result s)) scored.
Proof.
  revert scored. induction topics as [| x rest IH]; intros scored; simpl.
  - intros H. injection H as <-. split; [reflexivity | constructor].
  - intros H. inv_bind H. inv_bind H. injection H as <-.
    destruct (IH _ E0) as [Hmap Hall]. simpl. split; [now rewrite Hmap |].
    constructor; [exact E | exact Hall].
Qed.

Lemma score_all_defined (w : World.t) (topics : list Topic.t) :
  Forall (fun x => exists p, calculatePriority w x = Some p) topics ->
  exists scored, score_all w topics = Some scored.
Proof.
  induction 1 as [| x rest [p Hp] _ [scored IH]]; simpl; [eauto |].
  rewrite Hp, IH. simpl. eauto.
Qed.

Lemma sort_by_priority_head (l : list Scored.t) :
  match sort_by_priority l with
  | [] => l = []
  | x :: _ => first_of_highest x l
  end.
Proof.
  unfold sort_by_priority. induction l as [| a l IH]; simpl; [reflexivity |].
  destruct (fold_right insert_by_priority [] l) as [| h t]; simpl.
  - subst l. exists [], []. repeat split; intros y [].
  - destruct IH as (l1 & l2 & -> & H1 & H2).
    destruct (Qle_bool (Scored.priority h) (Scored.priority a)) eqn:E.
    + apply Qle_bool_iff in E.
      exists [], (l1 ++ h :: l2). repeat split; [intros y [] |].
      intros y Hy. apply in_app_or in Hy.
      destruct Hy as [Hy | [<- | Hy]].
      * specialize (H1 y Hy). lra.
      * exact E.
      * specialize (H2 y Hy). lra.
    + apply Qle_bool_false in E.
      exists (a :: l1), l2. repeat split; [| exact H2].
      intros y [<- | Hy]; [exact E | now apply H1].
Qed.

(** X27: the topic [review_next_topic] answers with has the highest
    priority among the candidates, the loaded topics with the tag if one
    is given; among candidates of that priority it is the first in the
    file. *)
Theorem review_next_topic_selects_highest
  (w w' : World.t) (tag : option string) (include_stats : bool) (response : Next.t) :
  review_next_topic w tag include_stats = Some (NextTopic response, w') ->
  w' = snd (loadTopics w) /\
  exists before x after p,
    candidates w tag = before ++ x :: after /\
    calculatePriority w' x = Some p /\
    response = response_of (Scored.mk x p) include_stats /\
    (forall y q, In y before -> calculatePriority w' y = Some q ->
                 Priority.priority q < Priority.priority p) /\
    (forall y q, In y after -> calculatePriority w' y = Some q ->
                 Priority.priority q <= Priority.priority p).
Proof.
  unfold review_next_topic, candidates.
  destruct (loadTopics w) as [topics w1]. cbn [fst snd].
  destruct topics as [| t0 rest0] eqn:Etopics; [discriminate |]. rewrite <- Etopics.
  set (cands := if truthy_string tag
                then filter (has_tag match tag with
                                     | Some s => s
                                     | None => ""%string
                                     end) topics
                else topics).
  destruct cands as [| c0 crest] eqn:Ec; [discriminate |]. rewrite <- Ec.
  intros H. inv_bind H. rename x into scored.
  pose proof (sort_by_priority_head scored) as Hhead.
  destruct (sort_by_priority scored) as [| selected others]; [discriminate |].
  injection H as <- <-. split; [reflexivity |].
  apply score_all_spec in E. destruct E as [Hmap Hall].
  destruct Hhead as (l1 & l2 & -> & H1 & H2).
  rewrite map_app in Hmap. simpl in Hmap.
  rewrite Forall_app in Hall. destruct Hall as [Hall1 Hall2].
  inversion Hall2 as [| ? ? Hsel Hall2']; subst.
  exists (map Scored.topic l1), (Scored.topic selected), (map Scored.topic l2),
    (Scored.result selected).
  split; [now symmetry |]. split; [exact Hsel |].
  split; [now destruct selected |]. split.
  - intros y q Hy Hq. apply in_map_iff in Hy. destruct Hy as (s & <- & Hs).
    rewrite Forall_forall in Hall1. rewrite (Hall1 s Hs) in Hq.
    injection Hq as <-. apply (H1 s Hs).
  - intros y q Hy Hq. apply in_map_iff in Hy. destruct Hy as (s & <- & Hs).
    rewrite Forall_forall in Hall2'. rewrite (Hall2' s Hs) in Hq.
    injection Hq as <-. apply (H2 s Hs).
Qed.

Lemma calculatePriority_clock (w w' : World.t) (x : Topic.t) :
  World.clock w' = World.clock w -> calculatePriority w' x = calculatePriority w x.
Proof.
  intros H. unfold calculatePriority. now rewrite H.
Qed.

(** Every topic reviewed by now has a priority: 100 or more if it is
    overdue, 50 or less if it is not. *)
Lemma calculatePriority_total (w : World.t) (x : Topic.t) :
  reviewed_by (World.clock w) x ->
  exists p,
    calculatePriority w x = Some p /\
    (Priority.isOverdue p = true -> 100 <= Priority.priority p) /\
    (Priority.isOverdue p = false -> Priority.priority p <= 50) /\
    (overdue (World.clock w) x -> Priority.isOverdue p = true).
Proof.
  intros Hrev.
  destruct (Topic.fsrs x) as [f |] eqn:Ef.
  - destruct (Fsrs.due f) as [dueDate |] eqn:Edue.
    + destruct (Fsrs.state f) eqn:Estate.
      * exists (Priority.mk 50 false None None None).
        unfold calculatePriority. rewrite Ef, Estate. cbn.
        repeat split; try discriminate.
        intros (f' & d & Hf' & Hnew & _). congruence.
      * destruct (calculatePriority_scheduled w x f dueDate Ef) as (p & Hp & Hlate & Hearly);
          [congruence | exact Edue | intros t Ht; exact (Hrev f t Ef Ht) |].
        exists p. split; [exact Hp |].
        destruct (Z.lt_ge_cases dueDate (World.clock w)) as [Hlt | Hge].
        -- destruct (Hlate Hlt) as (Ho & H100 & _). rewrite Ho.
           repeat split; auto; discriminate.
        -- destruct (Hearly Hge) as (Ho & _ & H40 & _). rewrite Ho.
           repeat split; try discriminate; try lra.
           intros (f' & d & Hf' & _ & Hd & Hlt). rewrite Ef in Hf'.
           injection Hf' as <-. rewrite Edue in Hd. injection Hd as <-. lia.
      * destruct (calculatePriority_scheduled w x f dueDate Ef) as (p & Hp & Hlate & Hearly);
          [congruence | exact Edue | intros t Ht; exact (Hrev f t Ef Ht) |].
        exists p. split; [exact Hp |].
        destruct (Z.lt_ge_cases dueDate (World.clock w)) as [Hlt | Hge].
        -- destruct (Hlate Hlt) as (Ho & H100 & _). rewrite Ho.
           repeat split; auto; discriminate.
        -- destruct (Hearly Hge) as (Ho & _ & H40 & _). rewrite Ho.
           repeat split; try discriminate; try lra.
           intros (f' & d & Hf' & _ & Hd & Hlt). rewrite Ef in Hf'.
           injection Hf' as <-. rewrite Edue in Hd. injection Hd as <-. lia.
      * destruct (calculatePriority_scheduled w x f dueDate Ef) as (p & Hp & Hlate & Hearly);
          [congruence | exact Edue | intros t Ht; exact (Hrev f t Ef Ht) |].
        exists p. split; [exact Hp |].
        destruct (Z.lt_ge_cases dueDate (World.clock w)) as [Hlt | Hge].
        -- destruct (Hlate Hlt) as (Ho & H100 & _). rewrite Ho.
           repeat split; auto; discriminate.
        -- destruct (Hearly Hge) as (Ho & _ & H40 & _). rewrite Ho.
           repeat split; try discriminate; try lra.
           intros (f' & d & Hf' & _ & Hd & Hlt). rewrite Ef in Hf'.
           injection Hf' as <-. rewrite Edue in Hd. injection Hd as <-. lia.
    + exists (Priority.mk 50 false None None None).
      unfold calculatePriority. rewrite Ef, Edue. cbn.
      split; [now destruct (Fsrs.state f) |].
      repeat split; try discriminate.
      intros (f' & d & Hf' & _ & Hd & _). congruence.
  - exists (Priority.mk 0 false (Some 1) None None).
    unfold calculatePriority. rewrite Ef. cbn.
    repeat split; try discriminate.
    intros (f' & d & Hf' & _). congruence.
Qed.

Lemma review_next_topic_cases (w : World.t) (tag : option string) (s : bool) :
  candidates w tag <> [] ->
  review_next_topic w tag s
  = (scored <- score_all (snd (loadTopics w)) (candidates w tag) ;;
     match sort_by_priority scored with
     | [] => None
     | selected :: _ => Some (NextTopic (response_of selected s), snd (loadTopics w))
     end).
Proof.
  unfold review_next_topic, candidates.
  destruct (loadTopics w) as [topics w1]. cbn [fst snd].
  destruct topics as [| t0 rest0] eqn:Etopics.
  - destruct (truthy_string tag); intros H; now contradiction H.
  - rewrite <- Etopics.
    destruct (if truthy_string tag then _ else _) as [| c0 crest];
      [intros H; now contradiction H | reflexivity].
Qed.

(** X28: overdue topics come first.  When no candidate was reviewed after
    the time the clock shows and one of them is past its due date,
    [review_next_topic] answers with a topic that is overdue, of priority
    100 or more. *)
Theorem review_next_topic_overdue_first
  (w : World.t) (tag : option string) (late : Topic.t) :
  Forall (reviewed_by (World.clock w)) (candidates w tag) ->
  In late (candidates w tag) ->
  overdue (World.clock w) late ->
  exists response stats,
    review_next_topic w tag true = Some (NextTopic response, snd (loadTopics w)) /\
    Next.stats response = Some stats /\
    Stats.isOverdue stats = true /\
    100 <= Stats.priority stats.
Proof.
  intros Hrev Hin Hlate.
  destruct (loadTopics_spec w) as (_ & _ & Hclock & _).
  set (w1 := snd (loadTopics w)) in *.
  assert (Htotal : forall x, In x (candidates w tag) ->
            exists p,
              calculatePriority w1 x = Some p /\
              (Priority.isOverdue p = true -> 100 <= Priority.priority p) /\
              (Priority.isOverdue p = false -> Priority.priority p <= 50) /\
              (overdue (World.clock w) x -> Priority.isOverdue p = true)).
  { intros x Hx. rewrite (calculatePriority_clock w w1 x Hclock).
    apply calculatePriority_total. rewrite Forall_forall in Hrev. now apply Hrev. }
  rewrite review_next_topic_cases by (intros E; rewrite E in Hin; contradiction).
  fold w1.
  destruct (score_all_defined w1 (candidates w tag)) as [scored Escored].
  { apply Forall_forall. intros x Hx.
    destruct (Htotal x Hx) as (p & Hp & _). eauto. }
  rewrite Escored. cbn [bind].
  apply score_all_spec in Escored. destruct Escored as [Hmap Hall].
  rewrite Forall_forall in Hall.
  assert (Hlate' : exists sl, In sl scored /\ 100 <= Scored.priority sl).
  { rewrite <- Hmap in Hin. apply in_map_iff in Hin.
    destruct Hin as (sl & Esl & Hsl). exists sl. split; [exact Hsl |].
    destruct (Htotal late) as (p & Hp & H100 & _ & Ho).
    { rewrite <- Hmap. apply in_map_iff. eauto. }
    rewrite <- Esl in Hp. rewrite (Hall sl Hsl) in Hp. injection Hp as Hp.
    unfold Scored.priority. rewrite Hp. apply H100, Ho, Hlate. }
  destruct Hlate' as (sl & Hsl & H100).
  pose proof (sort_by_priority_head scored) as Hhead.
  destruct (sort_by_priority scored) as [| selected others].
  { subst scored. contradiction. }
  destruct Hhead as (l1 & l2 & Hsplit & H1 & H2).
  assert (Hsel : In selected scored).
  { rewrite Hsplit. apply in_or_app. right. now left. }
  assert (Hmax : 100 <= Scored.priority selected).
  { rewrite Hsplit in Hsl. apply in_app_or in Hsl.
    destruct Hsl as [Hsl | [<- | Hsl]].
    - specialize (H1 sl Hsl). lra.
    - exact H100.
    - specialize (H2 sl Hsl). lra. }
  destruct (Htotal (Scored.topic selected)) as (p & Hp & _ & H50 & _).
  { rewrite <- Hmap. now apply in_map. }
  rewrite (Hall selected Hsel) in Hp. injection Hp as Hp.
  exists (response_of selected true). eexists. split; [reflexivity |].
  split; [reflexivity |]. cbn [Stats.isOverdue Stats.priority].
  split; [| exact Hmax].
  destruct (Priority.isOverdue (Scored.result selected)) eqn:Eo; [reflexivity |].
  rewrite Hp in Eo. specialize (H50 Eo).
  unfold Scored.priority in Hmax. rewrite Hp in Hmax. lra.
Qed.

(** X29: when every candidate is [new], for instance just appended,
    [review_next_topic] answers with the first of them in the file. *)
Theorem review_next_topic_all_new
  (w : World.t) (tag : option string) (include_stats : bool)
  (x : Topic.t) (rest : list Topic.t) :
  candidates w tag = x :: rest ->
  (forall y, In y (candidates w tag) ->
     exists f, Topic.fsrs y = Some f /\ Fsrs.state f = new) ->
  review_next_topic w tag include_stats
  = Some (NextTopic
            (response_of (Scored.mk x (Priority.mk 50 false None None None))
               include_stats),
          snd (loadTopics w)).
Proof.
  intros Hcands Hnew.
  rewrite review_next_topic_cases by (rewrite Hcands; discriminate).
  set (w1 := snd (loadTopics w)).
  assert (Hscore : forall l,
            (forall y, In y l -> exists f, Topic.fsrs y = Some f /\ Fsrs.state f = new) ->
            score_all w1 l
            = Some (map (fun y => Scored.mk y (Priority.mk 50 false None None None)) l)).
  { induction l as [| y l IH]; intros Hl; simpl; [reflexivity |].
    destruct (Hl y (or_introl eq_refl)) as (f & Hf & Hstate).
    unfold calculatePriority at 1. rewrite Hf, Hstate. cbn [bind].
    rewrite IH by (intros z Hz; apply Hl; now right). reflexivity. }
  rewrite (Hscore _ Hnew), Hcands. cbn [bind map].
  set (first := Scored.mk x (Priority.mk 50 false None None None)).
  set (others := map (fun y => Scored.mk y (Priority.mk 50 false None None None)) rest).
  pose proof (sort_by_priority_head (first :: others)) as Hhead.
  destruct (sort_by_priority (first :: others)) as [| selected tail]; [discriminate |].
  destruct Hhead as (l1 & l2 & Hsplit & H1 & _).
  assert (Hall : forall s, In s (first :: others) -> Scored.priority s == 50).
  { intros s [<- | Hs]; [reflexivity |].
    unfold others in Hs. apply in_map_iff in Hs. destruct Hs as (y & <- & _).
    reflexivity. }
  destruct l1 as [| a l1].
  - simpl in Hsplit. injection Hsplit as <- _. reflexivity.
  - exfalso.
    assert (Ha : Scored.priority a == 50).
    { apply Hall. rewrite Hsplit. now left. }
    assert (Hs : Scored.priority selected == 50).
    { apply Hall. rewrite Hsplit. apply in_or_app. right. now left. }
    specialize (H1 a (or_introl eq_refl)). lra.
Qed.

(** X30: [review_next_topic] answers "No topics available for review."
    exactly when the topics file is empty, and names the tag when the
    file has topics but none with the tag. *)
Theorem review_next_topic_no_topics
  (w : World.t) (tag : option string) (include_stats : bool) :
  (review_next_topic w tag include_stats = Some (NoTopicsAvailable, snd (loadTopics w))
   <-> World.topics_file w = []) /\
  (forall s, World.topics_file w <> [] -> tag = Some s -> s <> ""%string ->
     (forall x, In x (fst (loadTopics w)) -> has_tag s x = false) ->
     review_next_topic w tag include_stats
     = Some (NoTopicsWithTag s, snd (loadTopics w))).
Proof.
  pose proof (loadTopics_empty w) as Hempty.
  unfold review_next_topic.
  destruct (loadTopics w) as [topics w1]. cbn [fst snd] in *.
  split.
  - rewrite <- Hempty.
    destruct topics as [| t0 rest0] eqn:Etopics; [split; reflexivity |].
    rewrite <- Etopics. split; [| rewrite Etopics; discriminate].
    destruct (if truthy_string tag then _ else _); [discriminate |].
    intros H. inv_bind H. destruct (sort_by_priority x); discriminate.
  - intros s Hne -> Hs Hnone. rewrite <- Hempty in Hne.
    destruct topics as [| t0 rest0] eqn:Etopics; [now contradiction Hne |].
    rewrite <- Etopics in *.
    assert (Htag : truthy_string (Some s) = true).
    { cbn. now apply negb_true_iff, String.eqb_neq. }
    rewrite Htag.
    assert (Hfilter : filter (has_tag s) topics = []).
    { clear -Hnone. induction topics as [| y l IH]; [reflexivity |]. simpl.
      rewrite (Hnone y (or_introl eq_refl)).
      apply IH. intros z Hz. apply Hnone. now right. }
    now rewrite Hfilter.
Qed.

(** ** The further properties at concrete inputs *)

Lemma world0_uuids (n : nat) : World.uuid_source world0 n <> ""%string.
Proof. discriminate. Defined.

Example lapse_with_config :
  processReview exp_taylor pow_floor world_later after_good 1 (Some DEFAULT_CONFIG)
  = (Some after_lapse, world_later).
Proof. vm_compute. reflexivity. Qed.

Lemma retrievability_unit_interval_witness :
  0 <= 1 /\
  exists r, retrievability (Some 2.4) 1 = Some r /\ 0 <= r /\ r <= 1.
Proof.
  assert (H : 0 <= 1) by discriminate.
  split; [exact H |].
  destruct (retrievability_unit_interval (Some 2.4) 1 H) as (r & E & H0 & H1 & _).
  exists r. repeat split; assumption.
Defined.

Lemma retrievability_negative_elapsed_witness :
  0 < 1 /\ -9 < 0 /\ -9 == - (9 * 1) /\ retrievability (Some 1) (-9) = None.
Proof.
  assert (H1 : 0 < 1) by reflexivity.
  assert (H2 : -9 < 0) by reflexivity.
  assert (H3 : -9 == - (9 * 1)) by reflexivity.
  repeat (split; [assumption |]).
  exact (proj2 (retrievability_negative_elapsed 1 (-9) H1 H2) H3).
Defined.

Lemma difficulty_always_clamped_witness :
  (8 <= length (Config.weights DEFAULT_CONFIG))%nat /\
  exists d, updateDifficulty 12 1 (Config.weights DEFAULT_CONFIG) = Some d /\ d <= 10.
Proof.
  assert (H : (8 <= length (Config.weights DEFAULT_CONFIG))%nat) by (simpl; lia).
  split; [exact H |].
  destruct (difficulty_always_clamped 12 1 (Config.weights DEFAULT_CONFIG))
    as (_ & Hrange & Hdef).
  destruct (proj2 (Hdef H)) as [d E]. exists d. split; [exact E |].
  exact (proj2 (Hrange d E)).
Defined.

Lemma updateDifficulty_antitone_in_grade_witness :
  0 <= 0.86 /\ 0.01 <= 1 /\ 2 <= 4 /\
  exists d1 d2,
    updateDifficulty 5 2 (Config.weights DEFAULT_CONFIG) = Some d1 /\
    updateDifficulty 5 4 (Config.weights DEFAULT_CONFIG) = Some d2 /\
    d2 <= d1.
Proof.
  assert (H1 : 0 <= 0.86) by discriminate.
  assert (H2 : 0.01 <= 1) by discriminate.
  assert (H3 : 2 <= 4) by discriminate.
  repeat (split; [assumption |]).
  eexists. eexists. split; [reflexivity |]. split; [reflexivity |].
  apply (updateDifficulty_antitone_in_grade 5 2 4 (Config.weights DEFAULT_CONFIG)
           4.93 0.86 0.01 _ _ eq_refl eq_refl eq_refl H1 H2 H3 eq_refl eq_refl).
Defined.

Lemma updateDifficulty_good_reverts_witness :
  (0 <= 0.01 /\ 0.01 <= 1) /\ (1 <= 4.93 /\ 4.93 <= 10) /\ (1 <= 8 /\ 8 <= 10) /\
  exists d,
    updateDifficulty 8 3 (Config.weights DEFAULT_CONFIG) = Some d /\
    d == (1 - 0.01) * 8 + 0.01 * 4.93.
Proof.
  assert (H1 : 0 <= 0.01) by discriminate.
  assert (H2 : 0.01 <= 1) by discriminate.
  assert (H3 : 1 <= 4.93) by discriminate.
  assert (H4 : 4.93 <= 10) by discriminate.
  assert (H5 : 1 <= 8) by discriminate.
  assert (H6 : 8 <= 10) by discriminate.
  repeat split; try assumption.
  destruct (updateDifficulty_good_reverts 8 (Config.weights DEFAULT_CONFIG)
              4.93 0.86 0.01 eq_refl eq_refl eq_refl H1 H2 H3 H4 H5 H6)
    as (d & E & Hd & _).
  exists d. split; assumption.
Defined.

Lemma nextInterval_monotone_witness :
  0 < 0.9 /\ 0.9 <= 1 /\
  exists i, nextInterval (Some 2.4) 0.9 = Some i /\ 0 <= i.
Proof.
  assert (H1 : 0 < 0.9) by reflexivity.
  assert (H2 : 0.9 <= 1) by discriminate.
  repeat (split; [assumption |]).
  exact (proj1 (nextInterval_monotone 0.9 H1 H2) (Some 2.4)).
Defined.

Lemma processReview_later_review_witness :
  Fsrs.state after_good <> new /\
  processReview exp_taylor pow_floor world_later after_good 1 (Some DEFAULT_CONFIG)
  = (Some after_lapse, world_later) /\
  Fsrs.state after_lapse = relearning /\
  Fsrs.lapses after_lapse = (Fsrs.lapses after_good + 1)%Z.
Proof.
  assert (H : Fsrs.state after_good <> new) by discriminate.
  split; [exact H |]. split; [exact lapse_with_config |].
  destruct (processReview_later_review exp_taylor pow_floor world_later world_later
              after_good after_lapse 1 DEFAULT_CONFIG H lapse_with_config)
    as (r & _ & _ & Hfail & _).
  destruct (Hfail (Qeq_refl 1)) as (Hstate & Hlapses & _).
  split; assumption.
Defined.

Lemma processReview_due_window_witness :
  processReview exp_taylor pow_floor world_later after_good 1 (Some DEFAULT_CONFIG)
  = (Some after_lapse, world_later) /\
  exists dueDate,
    Fsrs.due after_lapse = Some dueDate /\
    (World.clock world_later + 86400000 <= dueDate)%Z.
Proof.
  split; [exact lapse_with_config |].
  destruct (processReview_due_window exp_taylor pow_floor world_later world_later
              after_good after_lapse 1 DEFAULT_CONFIG lapse_with_config)
    as (dueDate & Hdue & Hlo & _).
  exists dueDate. split; assumption.
Defined.

Lemma world_overdue_reviewed (t : Z) :
  Fsrs.last_reviewed after_good = Some t -> (t <= World.clock world_overdue)%Z.
Proof.
  intros H. injection H as <-. discriminate.
Defined.

Lemma calculatePriority_bands_witness :
  Topic.fsrs topic_b = Some after_good /\
  Fsrs.state after_good <> new /\
  Fsrs.due after_good = Some 1700207360000%Z /\
  (1700207360000 < World.clock world_overdue)%Z /\
  exists p,
    calculatePriority world_overdue topic_b = Some p /\
    Priority.isOverdue p = true /\ 100 <= Priority.priority p.
Proof.
  assert (H1 : Fsrs.state after_good <> new) by discriminate.
  assert (H2 : (1700207360000 < World.clock world_overdue)%Z) by reflexivity.
  split; [reflexivity |]. split; [exact H1 |]. split; [reflexivity |].
  split; [exact H2 |].
  destruct (calculatePriority_bands world_overdue topic_b after_good 1700207360000
              eq_refl H1 eq_refl world_overdue_reviewed)
    as (p & Hp & Hlate & _).
  destruct (Hlate H2) as (Ho & H100 & _).
  exists p. repeat split; assumption.
Defined.

Lemma createBackup_bounded_witness :
  In (World.clock world_backups, World.topics_file world_backups)
    (World.backups (createBackup world_backups)) /\
  (length (World.backups (createBackup world_backups)) <= MAX_BACKUPS)%nat.
Proof.
  split; [left; reflexivity |].
  exact (proj1 (proj2 (createBackup_bounded world_backups))).
Defined.

Lemma world_backups_older (b : Z * list Topic.t) :
  In b (World.backups world_backups) -> (fst b <= World.clock world_backups)%Z.
Proof.
  intros [<- | []]. discriminate.
Defined.

Lemma createBackup_newest_witness :
  (forall b, In b (World.backups world_backups) ->
             (fst b <= World.clock world_backups)%Z) /\
  exists older,
    World.backups (createBackup world_backups)
    = (World.clock world_backups, World.topics_file world_backups) :: older.
Proof.
  split; [exact world_backups_older |].
  destruct (createBackup_newest world_backups world_backups_older) as (older & H & _).
  exists older. exact H.
Defined.

Lemma loadTopics_twice_witness :
  (forall n, World.uuid_source world_unmigrated n <> ""%string) /\
  loadTopics (snd (loadTopics world_unmigrated))
  = (fst (loadTopics world_unmigrated), snd (loadTopics world_unmigrated)).
Proof.
  split; [exact world0_uuids |].
  exact (loadTopics_twice world_unmigrated world0_uuids).
Defined.

Lemma world_unmigrated_changes : snd (loadTopics world_unmigrated) <> world_unmigrated.
Proof.
  intros H. apply (f_equal World.topics_file) in H. vm_compute in H. discriminate H.
Defined.

Lemma loadTopics_writes_only_to_migrate_witness :
  snd (loadTopics world_unmigrated) <> world_unmigrated /\
  exists w1,
    same_files world_unmigrated w1 /\
    snd (loadTopics world_unmigrated)
    = atomicWriteTopics (fst (loadTopics world_unmigrated)) (createBackup w1).
Proof.
  split; [exact world_unmigrated_changes |].
  exact (proj2 (loadTopics_writes_only_to_migrate world_unmigrated)
           world_unmigrated_changes).
Defined.

Lemma world_topics_no_z (x : Topic.t) :
  In x (fst (loadTopics world_topics)) -> Topic.id x <> Some "z"%string.
Proof.
  intros [<- | [<- | []]]; discriminate.
Defined.

Lemma updateTopic_not_found_witness :
  (forall x, In x (fst (loadTopics world_topics)) -> Topic.id x <> Some "z"%string) /\
  updateTopic world_topics "z" keep_topic
  = (UpdateFailed "Topic not found", snd (loadTopics world_topics)).
Proof.
  split; [exact world_topics_no_z |].
  exact (proj1 (updateTopic_not_found world_topics "z" keep_topic) world_topics_no_z).
Defined.

Example update_b :
  updateTopic world_topics "b" keep_topic
  = (UpdateDone (Topic.set_fsrs (Some createDefaultFsrsState) topic_b),
     atomicWriteTopics
       [topic_new; Topic.set_fsrs (Some createDefaultFsrsState) topic_b]
       (createBackup world_topics)).
Proof. vm_compute. reflexivity. Qed.

Lemma updateTopic_replaces_first_witness :
  updateTopic world_topics "b" keep_topic
  = (UpdateDone (Topic.set_fsrs (Some createDefaultFsrsState) topic_b),
     atomicWriteTopics
       [topic_new; Topic.set_fsrs (Some createDefaultFsrsState) topic_b]
       (createBackup world_topics)) /\
  exists n old,
    nth_error (fst (loadTopics world_topics)) n = Some old /\
    Topic.id old = Some "b"%string.
Proof.
  split; [exact update_b |].
  destruct (updateTopic_replaces_first world_topics _ "b" keep_topic _ update_b)
    as (n & old & w1 & Hnth & Hid & _).
  exists n, old. split; assumption.
Defined.

Lemma world_topics_no_z_config (x : Topic.t) :
  In x (fst (loadTopics (snd (loadConfig world_topics)))) ->
  Topic.id x <> Some "z"%string.
Proof.
  intros [<- | [<- | []]]; discriminate.
Defined.

Lemma log_review_outcome_unknown_id_witness :
  is_grade 3 /\
  (forall x, In x (fst (loadTopics (snd (loadConfig world_topics)))) ->
             Topic.id x <> Some "z"%string) /\
  log_review_outcome exp_taylor pow_floor world_topics "z" 3
  = (ErrorText "Topic not found" "z",
     snd (loadTopics (snd (loadConfig world_topics)))).
Proof.
  split; [exact is_grade_3 |]. split; [exact world_topics_no_z_config |].
  exact (log_review_outcome_unknown_id exp_taylor pow_floor world_topics "z" 3
           is_grade_3 world_topics_no_z_config).
Defined.

Example log_b : log_review_outcome exp_taylor pow_floor world_topics "b" 3 = logged_b.
Proof. vm_compute. reflexivity. Qed.

Lemma log_review_outcome_touches_one_witness :
  log_review_outcome exp_taylor pow_floor world_topics "b" 3 = logged_b /\
  exists n old,
    nth_error (fst (loadTopics (snd (loadConfig world_topics)))) n = Some old /\
    Topic.id old = Some "b"%string /\
    (forall m z, (m < n)%nat ->
       nth_error (fst (loadTopics (snd (loadConfig world_topics)))) m = Some z ->
       Topic.id z <> Some "b"%string) /\
    forall m, m <> n ->
      nth_error (World.topics_file (snd logged_b)) m
      = nth_error (fst (loadTopics (snd (loadConfig world_topics)))) m.
Proof.
  split; [exact log_b |].
  pose proof log_b as H. unfold logged_b in H.
  destruct (log_review_outcome_touches_one exp_taylor pow_floor _ _ _ _ _ _ _ _ _ _ _ _ H)
    as (n & old & f' & _ & Hnth & Hid & Hfirst & _ & _ & Hother & _).
  exists n, old.
  split; [exact Hnth |]. split; [exact Hid |]. split; [exact Hfirst | exact Hother].
Defined.

Lemma log_review_outcome_failure_keeps_topics_witness :
  log_review_outcome exp_taylor pow_floor world_topics "z" 3
  = (ErrorText "Topic not found" "z",
     snd (loadTopics (snd (loadConfig world_topics)))) /\
  World.topics_file (snd (loadTopics (snd (loadConfig world_topics))))
  = fst (loadTopics (snd (loadConfig world_topics))).
Proof.
  assert (H : log_review_outcome exp_taylor pow_floor world_topics "z" 3
              = (ErrorText "Topic not found" "z",
                 snd (loadTopics (snd (loadConfig world_topics)))))
    by (vm_compute; reflexivity).
  split; [exact H |].
  exact (proj1 (log_review_outcome_failure_keeps_topics exp_taylor pow_floor
                  world_topics _ "z" 3 _ H)
           "Topic not found"%string "z"%string (or_introl eq_refl)).
Defined.

Lemma append_topic_appends_witness :
  entries1 <> [] /\
  exists entries w',
    append_topic world_topics entries1
    = Some (Logged 2 ["monads"%string; "functors"%string], w') /\
    World.topics_file w' = World.topics_file world_topics ++ entries.
Proof.
  assert (H : entries1 <> []) by discriminate.
  split; [exact H |].
  destruct (append_topic_appends world_topics entries1 H)
    as (entries & w' & Happ & Hfile & _).
  exists entries, w'. split; assumption.
Defined.

Lemma world_topics_complete : Forall complete (World.topics_file world_topics).
Proof.
  repeat constructor; eexists; reflexivity.
Defined.

Example append1 : append_topic world_topics entries1 = appended1.
Proof. vm_compute. reflexivity. Qed.

Lemma append_topic_then_load_witness :
  Forall complete (World.topics_file world_topics) /\
  (forall n, World.uuid_source world_topics n <> ""%string) /\
  append_topic world_topics entries1 = appended1 /\
  exists w' entries,
    loadTopics w' = (World.topics_file world_topics ++ entries, w') /\
    length entries = 2%nat.
Proof.
  split; [exact world_topics_complete |]. split; [exact world0_uuids |].
  split; [exact append1 |].
  pose proof append1 as H. unfold appended1 in H.
  destruct (append_topic_then_load world_topics _ entries1 _
              world_topics_complete world0_uuids H)
    as (entries & Hload & Hfresh).
  eexists. exists entries. split; [exact Hload |].
  symmetry. exact (Forall2_length Hfresh).
Defined.

Lemma appended_topic_priority_witness :
  append_topic world_topics entries1 = appended1 /\
  forall w' x,
    match appended1 with
    | Some (_, w1) =>
        In x (skipn (length (World.topics_file world_topics)) (World.topics_file w1))
    | None => False
    end ->
    calculatePriority w' x = Some (Priority.mk 50 false None None None).
Proof.
  split; [exact append1 |].
  pose proof append1 as H. unfold appended1 in H.
  intros w' x Hx.
  exact (appended_topic_priority world_topics _ w' entries1 _ x H Hx).
Defined.

Lemma world_topics_not_empty : World.topics_file world_topics <> [].
Proof. discriminate. Defined.

Lemma get_topics_limit_witness :
  World.topics_file world_topics <> [] /\ (0 < 1)%Z /\
  get_topics world_topics None (Some 1) = (TopicsJson [topic_b], world_topics).
Proof.
  split; [exact world_topics_not_empty |]. split; [reflexivity |].
  destruct (get_topics_limit world_topics 1 world_topics_not_empty eq_refl)
    as (shown & Hget & -> & _).
  exact Hget.
Defined.

Lemma get_topics_negative_limit_witness :
  World.topics_file world_topics <> [] /\ (0 < 1)%Z /\
  get_topics world_topics None (Some (-1)) = (TopicsJson [topic_b], world_topics).
Proof.
  split; [exact world_topics_not_empty |]. split; [reflexivity |].
  exact (get_topics_negative_limit world_topics 1 world_topics_not_empty eq_refl).
Defined.

Lemma world_topics_no_tag_x (x : Topic.t) (s : string) :
  In x (fst (loadTopics world_topics)) -> Some "x"%string = Some s -> has_tag s x = false.
Proof.
  intros Hx H. injection H as <-.
  destruct Hx as [<- | [<- | []]]; reflexivity.
Defined.

Lemma get_topics_no_topics_witness :
  World.topics_file world_topics <> [] /\
  truthy_string (Some "x"%string) = true /\
  fst (get_topics world_topics (Some "x"%string) None) = TopicsJson [].
Proof.
  split; [exact world_topics_not_empty |]. split; [reflexivity |].
  exact (proj2 (get_topics_no_topics world_topics (Some "x"%string) None)
           world_topics_not_empty eq_refl world_topics_no_tag_x).
Defined.

Lemma clear_topics_keeps_backup_witness :
  (forall b, In b (World.backups world_backups) ->
             (fst b <= World.clock world_backups)%Z) /\
  World.topics_file (clear_topics world_backups) = [] /\
  exists older,
    World.backups (clear_topics world_backups)
    = (World.clock world_backups, [topic_new; topic_b]) :: older.
Proof.
  split; [exact world_backups_older |].
  destruct (clear_topics_keeps_backup world_backups world_backups_older)
    as (Hfile & Hbackup & _).
  split; assumption.
Defined.

Example next_at_overdue : review_next_topic world_overdue None false = next_overdue.
Proof. vm_compute. reflexivity. Qed.

Lemma review_next_topic_selects_highest_witness :
  review_next_topic world_overdue None false = next_overdue /\
  exists before x after,
    candidates world_overdue None = before ++ x :: after /\
    Topic.id x = Some "b"%string.
Proof.
  split; [exact next_at_overdue |].
  pose proof next_at_overdue as H. unfold next_overdue in H.
  destruct (review_next_topic_selects_highest world_overdue _ None false _ H)
    as (_ & before & x & after & p & Hsplit & _ & Hresp & _).
  exists before, x, after. split; [exact Hsplit |].
  apply (f_equal Next.id) in Hresp. symmetry. exact Hresp.
Defined.

Lemma world_overdue_candidates :
  Forall (reviewed_by (World.clock world_overdue)) (candidates world_overdue None).
Proof.
  repeat constructor; intros f t Hf Ht; injection Hf as <-;
    [discriminate Ht | injection Ht as <-; discriminate].
Defined.

Lemma topic_b_overdue : overdue (World.clock world_overdue) topic_b.
Proof.
  exists after_good, 1700207360000%Z.
  split; [reflexivity |]. split; [discriminate |]. split; reflexivity.
Defined.

Lemma review_next_topic_overdue_first_witness :
  Forall (reviewed_by (World.clock world_overdue)) (candidates world_overdue None) /\
  In topic_b (candidates world_overdue None) /\
  overdue (World.clock world_overdue) topic_b /\
  exists response stats,
    review_next_topic world_overdue None true
    = Some (NextTopic response, snd (loadTopics world_overdue)) /\
    Next.stats response = Some stats /\
    Stats.isOverdue stats = true.
Proof.
  assert (Hin : In topic_b (candidates world_overdue None)) by (right; left; reflexivity).
  split; [exact world_overdue_candidates |]. split; [exact Hin |].
  split; [exact topic_b_overdue |].
  destruct (review_next_topic_overdue_first world_overdue None topic_b
              world_overdue_candidates Hin topic_b_overdue)
    as (response & stats & Hnext & Hstats & Ho & _).
  exists response, stats. repeat split; assumption.
Defined.

Lemma world_unmigrated_new (y : Topic.t) :
  In y (candidates world_unmigrated None) ->
  exists f, Topic.fsrs y = Some f /\ Fsrs.state f = new.
Proof.
  intros [<- | []]. eexists. split; reflexivity.
Defined.

Lemma review_next_topic_all_new_witness :
  candidates world_unmigrated None
  = [Topic.set_fsrs (Some createDefaultFsrsState) topic0] /\
  exists response,
    review_next_topic world_unmigrated None false
    = Some (NextTopic response, snd (loadTopics world_unmigrated)) /\
    Next.topic response = "monads"%string /\ Next.state response = new.
Proof.
  split; [reflexivity |].
  eexists. split.
  - exact (review_next_topic_all_new world_unmigrated None false _ [] eq_refl
             world_unmigrated_new).
  - split; reflexivity.
Defined.

Lemma world_topics_no_tag_y (x : Topic.t) :
  In x (fst (loadTopics world_topics)) -> has_tag "y" x = false.
Proof.
  intros [<- | [<- | []]]; reflexivity.
Defined.

Lemma review_next_topic_no_topics_witness :
  World.topics_file world_topics <> [] /\
  review_next_topic world_topics (Some "y"%string) false
  = Some (NoTopicsWithTag "y", snd (loadTopics world_topics)).
Proof.
  split; [exact world_topics_not_empty |].
  refine (proj2 (review_next_topic_no_topics world_topics (Some "y"%string) false)
            "y"%string world_topics_not_empty eq_refl _ world_topics_no_tag_y).
  discriminate.
Defined.

(** ** The review state machine on all numbers *)

Ltac qle_cases :=
  repeat match goal with
    | |- context [Qle_bool ?a ?b] => destruct (Qle_bool a b) eqn:?
    end;
  repeat match goal with
    | H : Qle_bool _ _ = true |- _ => apply Qle_bool_iff in H
    | H : Qle_bool _ _ = false |- _ => apply Qle_bool_false in H
    end.

Lemma Num_min_Fin (a b : Q) :
  Num.min (Num.Fin a) (Num.Fin b) = Num.Fin (if Qle_bool a b then a else b).
Proof.
  unfold Num.min. cbv [Num.is_nan orb Num.le]. now destruct (Qle_bool a b).
Qed.

Lemma Num_max_Fin (a b : Q) :
  Num.max (Num.Fin a) (Num.Fin b) = Num.Fin (if Qle_bool a b then b else a).
Proof.
  unfold Num.max. cbv [Num.is_nan orb Num.le]. now destruct (Qle_bool a b).
Qed.

(** A finite clamped value lies between the bounds. *)
Lemma Ext_clamp_Fin (v : Q) :
  exists d, Ext.clamp (Num.Fin v) (Num.Fin 1) (Num.Fin 10) = Num.Fin d /\ 1 <= d /\ d <= 10.
Proof.
  unfold Ext.clamp. rewrite Num_min_Fin, Num_max_Fin.
  eexists. split; [reflexivity |].
  destruct (Qle_bool 10 v) eqn:E10; destruct (Qle_bool 1 _) eqn:E1;
    qle_cases; split; lra.
Qed.

Lemma Ext_index_Fin (ws : list Q) (n : nat) :
  (n < length ws)%nat ->
  exists x, Ext.index ws (inject_Z (Z.of_nat n)) = Num.Fin x.
Proof.
  intros H. unfold Ext.index. rewrite index_literal.
  destruct (nth_error_in_range ws n H) as [x ->]. exists x. reflexivity.
Qed.

Ltac ext_literal_index ws :=
  repeat match goal with
    | |- context [Ext.index ws (Z.pos ?p # 1)] =>
        let n := eval compute in (Pos.to_nat p) in
        let x := fresh "w" in
        let E := fresh "E" in
        change (Ext.index ws (Z.pos p # 1))
          with (Ext.index ws (inject_Z (Z.of_nat n)));
        destruct (Ext_index_Fin ws n) as [x E]; [lia |]; rewrite E; clear E
    end.

Lemma Ext_initialDifficulty_range (g : Q) (ws : list Q) :
  (6 <= length ws)%nat ->
  exists d, Ext.initialDifficulty g ws = Num.Fin d /\ 1 <= d /\ d <= 10.
Proof.
  intros Hlen. unfold Ext.initialDifficulty. ext_literal_index ws.
  cbn [Num.mul Num.sub Num.opp Num.add]. apply Ext_clamp_Fin.
Qed.

Lemma Ext_updateDifficulty_range (D g : Q) (ws : list Q) :
  (8 <= length ws)%nat ->
  exists d, Ext.updateDifficulty (Num.Fin D) g ws = Num.Fin d /\ 1 <= d /\ d <= 10.
Proof.
  intros Hlen. unfold Ext.updateDifficulty. ext_literal_index ws.
  cbn [Num.mul Num.sub Num.opp Num.add]. apply Ext_clamp_Fin.
Qed.

(** The interval of a valid due date: a finite number, the clamped
    result of [nextInterval]. *)
Lemma Ext_interval_Fin (raw : Num.t) (m i : Q) :
  Num.max (Num.min raw (Num.Fin m)) (Num.Fin 1) = Num.Fin i ->
  raw <> Num.NaN /\
  Num.eq (Num.Fin i) (Ext.clamp raw (Num.Fin 1) (Num.Fin m)) /\
  1 <= i /\ (1 <= m -> i <= m) /\ (m < 1 -> i == 1).
Proof.
  unfold Ext.clamp. destruct raw as [r | | |].
  - rewrite !Num_min_Fin, !Num_max_Fin. intros H. injection H as <-.
    split; [discriminate |]. unfold Num.eq.
    destruct (Qle_bool r m) eqn:E1; destruct (Qle_bool m r) eqn:E2;
      destruct (Qle_bool _ 1) eqn:E3; destruct (Qle_bool 1 _) eqn:E4;
      qle_cases; repeat split; intros; lra.
  - change (Num.min Num.PInf (Num.Fin m)) with (Num.Fin m).
    change (Num.min (Num.Fin m) Num.PInf) with (Num.Fin m).
    rewrite !Num_max_Fin. intros H. injection H as <-.
    split; [discriminate |]. unfold Num.eq.
    destruct (Qle_bool m 1) eqn:E3; destruct (Qle_bool 1 m) eqn:E4;
      qle_cases; repeat split; intros; lra.
  - change (Num.min Num.NInf (Num.Fin m)) with Num.NInf.
    change (Num.min (Num.Fin m) Num.NInf) with Num.NInf.
    change (Num.max Num.NInf (Num.Fin 1)) with (Num.Fin 1).
    change (Num.max (Num.Fin 1) Num.NInf) with (Num.Fin 1).
    intros H. injection H as <-.
    split; [discriminate |]. unfold Num.eq. repeat split; intros; lra.
  - intros H. discriminate H.
Qed.

Lemma Ext_due_date (now : Z) (interval : Num.t) (dueDate : Z) :
  Num.TimeClip
    (Num.add (Num.Fin (inject_Z now))
       (Num.mul
          (Num.mul (Num.mul (Num.mul interval (Num.Fin 24)) (Num.Fin 60)) (Num.Fin 60))
          (Num.Fin 1000))) = Some dueDate ->
  exists i,
    interval = Num.Fin i /\
    JS.TimeClip (inject_Z now + i * 24 * 60 * 60 * 1000) = Some dueDate.
Proof.
  destruct interval as [i | | |]; cbn; intros H; try discriminate H.
  exists i. split; [reflexivity | exact H].
Qed.

Section ExtReview.

Variable Math_exp : Q -> Q.
Variable Math_pow : Q -> Q -> Q.

(** What a returned state looks like. *)
Lemma Ext_processReview_returned
  (w w' : World.t) (st st' : Ext.state) (g : Q) (c : Config.t) :
  Ext.processReview Math_exp Math_pow w st g (Some c) = (Some st', w') ->
  w' = w /\
  Ext.tag st' <> new /\
  Ext.last_reviewed st' = Some (World.clock w) /\
  Ext.review_count st' = (Ext.review_count st + 1)%Z /\
  Ext.difficulty st' =
    Some (match Ext.tag st with
          | new => Ext.initialDifficulty g (Config.weights c)
          | _ => Ext.updateDifficulty (Num.ToNumber (Ext.difficulty st)) g
                   (Config.weights c)
          end) /\
  exists s i dueDate,
    Ext.stability st' = Some s /\
    Num.max
      (Num.min (Ext.nextInterval (Some s) (Num.Fin (Config.target_retrievability c)))
         (Num.Fin (Config.maximum_interval_days c)))
      (Num.Fin 1) = Num.Fin i /\
    JS.TimeClip (inject_Z (World.clock w) + i * 24 * 60 * 60 * 1000) = Some dueDate /\
    Ext.due st' = Some dueDate.
Proof.
  unfold Ext.processReview. intros H. injection H as H <-.
  split; [reflexivity |].
  rewrite or_elseZ_0 in H.
  match type of H with
  | match ?clip with Some _ => _ | None => _ end = _ =>
      destruct clip as [dueDate |] eqn:Eclip; [| discriminate H]
  end.
  injection H as <-.
  apply Ext_due_date in Eclip. destruct Eclip as (i & Ei & Eclip).
  cbv [Ext.tag Ext.stability Ext.difficulty Ext.due Ext.last_reviewed
       Ext.review_count Ext.lapses].
  destruct st as [tg s0 d0 du lr rc lp].
  cbv [Ext.tag Ext.stability Ext.difficulty Ext.due Ext.last_reviewed
       Ext.review_count Ext.lapses] in *.
  destruct tg; destruct (Qeq_bool g 1);
    cbv [Ext.tag Ext.stability Ext.difficulty Ext.due Ext.last_reviewed
         Ext.review_count Ext.lapses] in *;
    (split; [discriminate |]); (split; [reflexivity |]); (split; [reflexivity |]);
    (split; [reflexivity |]);
    eexists; exists i, dueDate; (split; [reflexivity |]);
    (split; [exact Ei |]); (split; [exact Eclip | reflexivity]).
Qed.

(** The stability of a returned state is not NaN. *)
Lemma Ext_stability_not_nan (s : Num.t) (T m i : Q) :
  Num.max (Num.min (Ext.nextInterval (Some s) (Num.Fin T)) (Num.Fin m)) (Num.Fin 1)
  = Num.Fin i ->
  s <> Num.NaN.
Proof.
  intros H ->. discriminate H.
Qed.

Lemma Ext_processReview_None (w : World.t) (st : Ext.state) (g : Q) :
  Ext.processReview Math_exp Math_pow w st g None
  = Ext.processReview Math_exp Math_pow (snd (loadConfig w)) st g
      (Some (fst (loadConfig w))).
Proof.
  unfold Ext.processReview. now destruct (loadConfig w).
Qed.

Lemma Ext_index_NaN (ws : list Q) (n : nat) :
  (length ws <= n)%nat -> Ext.index ws (inject_Z (Z.of_nat n)) = Num.NaN.
Proof.
  intros H. unfold Ext.index. rewrite index_literal.
  apply nth_error_None in H. now rewrite H.
Qed.

Lemma Num_mul_NaN_r (x : Num.t) : Num.mul x Num.NaN = Num.NaN.
Proof. now destruct x. Qed.

(** Without the weight 8 the stability after a passed review is NaN. *)
Lemma Ext_updateStabilitySuccess_short (s d r : Num.t) (g : Q) (ws : list Q) :
  (length ws <= 8)%nat ->
  Ext.updateStabilitySuccess Math_exp Math_pow s d r g ws = Num.NaN.
Proof.
  intros H. unfold Ext.updateStabilitySuccess.
  change (Ext.index ws 8) with (Ext.index ws (inject_Z (Z.of_nat 8))).
  rewrite (Ext_index_NaN ws 8 H).
  cbn [Num.exp Num.mul Num.add]. apply Num_mul_NaN_r.
Qed.

(** Without the weight 11 the stability after a lapse is NaN. *)
Lemma Ext_updateStabilityFailure_short (s d r : Num.t) (ws : list Q) :
  (length ws <= 11)%nat ->
  Ext.updateStabilityFailure Math_exp Math_pow s d r ws = Num.NaN.
Proof.
  intros H. unfold Ext.updateStabilityFailure.
  change (Ext.index ws 11) with (Ext.index ws (inject_Z (Z.of_nat 11))).
  rewrite (Ext_index_NaN ws 11 H).
  cbn [Num.mul]. reflexivity.
Qed.

(** The stability that a review of a topic that is not new returns. *)
Lemma Ext_processReview_later_stability
  (w w' : World.t) (st st' : Ext.state) (g : Q) (c : Config.t) :
  Ext.tag st <> new ->
  Ext.processReview Math_exp Math_pow w st g (Some c) = (Some st', w') ->
  exists r,
    Ext.stability st' =
      Some (if Qeq_bool g 1
            then Ext.updateStabilityFailure Math_exp Math_pow
                   (Num.ToNumber (Ext.stability st))
                   (Num.ToNumber (Ext.difficulty st)) r (Config.weights c)
            else Ext.updateStabilitySuccess Math_exp Math_pow
                   (Num.ToNumber (Ext.stability st))
                   (Num.ToNumber (Ext.difficulty st)) r g (Config.weights c)).
Proof.
  unfold Ext.processReview. intros Htag H. injection H as H <-.
  match type of H with
  | match ?clip with Some _ => _ | None => _ end = _ =>
      destruct clip as [dueDate |]; [| discriminate H]
  end.
  injection H as <-.
  destruct st as [tg s0 d0 du lr rc lp].
  cbv [Ext.tag Ext.stability Ext.difficulty Ext.due Ext.last_reviewed
       Ext.review_count Ext.lapses] in *.
  destruct tg; [now contradiction Htag | ..]; destruct (Qeq_bool g 1);
    cbv [Ext.stability]; eexists; reflexivity.
Qed.

(** A review of a topic that is not new returns a difficulty between 1
    and 10: where a weight that [updateDifficulty] reads is missing, the
    weights of the stability are missing too, and the review throws. *)
Lemma Ext_later_difficulty
  (w w' : World.t) (st st' : Ext.state) (g : Q) (c : Config.t) :
  Ext.tag st <> new ->
  Ext.invariant st ->
  Ext.processReview Math_exp Math_pow w st g (Some c) = (Some st', w') ->
  exists d,
    Ext.updateDifficulty (Num.ToNumber (Ext.difficulty st)) g (Config.weights c)
    = Num.Fin d /\ 1 <= d /\ d <= 10.
Proof.
  intros Htag Hinv Hrun.
  destruct (Hinv Htag) as (_ & d0 & Ed & _). rewrite Ed. cbn [Num.ToNumber].
  destruct (le_lt_dec 8 (length (Config.weights c))) as [Hlen | Hlen].
  - now apply Ext_updateDifficulty_range.
  - exfalso.
    destruct (Ext_processReview_later_stability _ _ _ _ _ _ Htag Hrun) as [r Hst].
    destruct (Ext_processReview_returned _ _ _ _ _ _ Hrun)
      as (_ & _ & _ & _ & _ & s & i & dueDate & Hs & Hi & _).
    rewrite Hs in Hst. injection Hst as ->.
    apply Ext_stability_not_nan in Hi. apply Hi.
    destruct (Qeq_bool g 1);
      [apply Ext_updateStabilityFailure_short | apply Ext_updateStabilitySuccess_short];
      lia.
Qed.

(** One review keeps the invariant when the weights reach index 5. *)
Lemma Ext_review_keeps_invariant
  (w w' : World.t) (st st' : Ext.state) (g : Q) (c : Config.t) :
  weights_to_5 c ->
  Ext.invariant st ->
  Ext.processReview Math_exp Math_pow w st g (Some c) = (Some st', w') ->
  Ext.invariant st'.
Proof.
  unfold weights_to_5. intros Hlen Hinv Hrun.
  destruct (Ext_processReview_returned _ _ _ _ _ _ Hrun)
    as (_ & _ & _ & _ & Hd & s & i & dueDate & Hs & Hi & _).
  intros _. split.
  - exists s. split; [exact Hs |]. eapply Ext_stability_not_nan, Hi.
  - rewrite Hd.
    assert (Hlater : Ext.tag st <> new ->
                     exists d,
                       Ext.updateDifficulty (Num.ToNumber (Ext.difficulty st)) g
                         (Config.weights c) = Num.Fin d /\ 1 <= d /\ d <= 10).
    { intros Htag. exact (Ext_later_difficulty w w' st st' g c Htag Hinv Hrun). }
    destruct (Ext.tag st).
    + destruct (Ext_initialDifficulty_range g (Config.weights c) Hlen) as (d & -> & H).
      eauto.
    + destruct Hlater as (d & -> & H); [discriminate | eauto].
    + destruct Hlater as (d & -> & H); [discriminate | eauto].
    + destruct Hlater as (d & -> & H); [discriminate | eauto].
Qed.

(** C3, as the code has it: under configurations whose weights vector
    has at least 6 entries, every state reachable from the default state
    by reviews graded 1 to 4 that has left [new] has a stability that is
    not NaN and a difficulty that is a number between 1 and 10. *)
Theorem reachable_invariant (st : Ext.state) :
  Ext.reachable Math_exp Math_pow weights_to_5 st ->
  Ext.tag st <> new ->
  (exists s, Ext.stability st = Some s /\ s <> Num.NaN) /\
  (exists d, Ext.difficulty st = Some (Num.Fin d) /\ 1 <= d /\ d <= 10).
Proof.
  intros Hreach.
  change (Ext.invariant st).
  induction Hreach as [| st st' w w' g c _ IH _ Hok Hrun].
  - intros H. now contradiction H.
  - destruct c as [c |].
    + exact (Ext_review_keeps_invariant w w' st st' g c Hok IH Hrun).
    + rewrite Ext_processReview_None in Hrun.
      exact (Ext_review_keeps_invariant _ w' st st' g _ Hok IH Hrun).
Qed.

Lemma Num_pow_positive (b e : Q) :
  0 < b -> exists p, Num.pow Math_pow (Num.Fin b) (Num.Fin e) = Num.Fin p.
Proof.
  intros Hb. unfold Num.pow.
  destruct (Qeq_bool e 0); [eauto |].
  assert (H0 : Qeq_bool b 0 = false) by (apply Qeq_bool_false; lra).
  assert (H1 : Qle_bool 0 b = true) by (apply Qle_bool_iff; lra).
  rewrite H0, H1. eauto.
Qed.

Lemma Ext_currentR_Fin (now : Z) (st : Ext.state) (s : Q) :
  Ext.stability st = Some (Num.Fin s) -> 0 < s ->
  (forall t, Ext.last_reviewed st = Some t -> (t <= now)%Z) ->
  exists r,
    (if Num.truthy (Ext.stability st)
     then Ext.retrievability (Ext.stability st)
            (Num.Fin
               match Ext.last_reviewed st with
               | Some lastReview => inject_Z (now - lastReview) / (1000 * 60 * 60 * 24)
               | None => 0
               end)
     else Num.Fin 0) = Num.Fin r.
Proof.
  intros Hs Hpos Hclock. rewrite Hs.
  set (elapsed := match Ext.last_reviewed st with
                  | Some lastReview => inject_Z (now - lastReview) / (1000 * 60 * 60 * 24)
                  | None => 0
                  end).
  assert (He : 0 <= elapsed).
  { subst elapsed. destruct (Ext.last_reviewed st) as [t |]; [| lra].
    apply Qle_shift_div_l; [reflexivity |].
    specialize (Hclock t eq_refl).
    rewrite Qmult_0_l. change 0 with (inject_Z 0). rewrite <- Zle_Qle. lia. }
  pose proof (decay_base_ge_1 s elapsed Hpos He) as Hb.
  destruct (Num.truthy (Some (Num.Fin s))); [| eauto].
  unfold Ext.retrievability. cbv [Num.le].
  rewrite (proj2 (Qle_bool_false s 0) Hpos).
  cbn [Num.mul]. unfold Num.div.
  assert (H9 : Qeq_bool (9 * s) 0 = false) by (apply Qeq_bool_false; lra).
  rewrite H9. cbn [Num.add]. unfold Num.reciprocal.
  assert (H1 : Qeq_bool (1 + elapsed / (9 * s)) 0 = false) by (apply Qeq_bool_false; lra).
  rewrite H1. eauto.
Qed.

Lemma Ext_updateStabilitySuccess_Fin (s d r g : Q) (ws : list Q) :
  0 < s -> (15 <= length ws)%nat ->
  exists x,
    Ext.updateStabilitySuccess Math_exp Math_pow (Num.Fin s) (Num.Fin d) (Num.Fin r) g ws
    = Num.Fin x.
Proof.
  intros Hs Hlen. unfold Ext.updateStabilitySuccess. ext_literal_index ws.
  cbn [Num.opp].
  destruct (Num_pow_positive s (- w0) Hs) as [p ->].
  cbn [Num.mul Num.add Num.sub Num.opp Num.exp]. eauto.
Qed.

Lemma Ext_updateStabilityFailure_Fin (s d r : Q) (ws : list Q) :
  0 < s -> 0 < d -> (15 <= length ws)%nat ->
  exists x,
    Ext.updateStabilityFailure Math_exp Math_pow (Num.Fin s) (Num.Fin d) (Num.Fin r) ws
    = Num.Fin x.
Proof.
  intros Hs Hd Hlen. unfold Ext.updateStabilityFailure. ext_literal_index ws.
  cbn [Num.opp Num.add].
  destruct (Num_pow_positive d (- w0) Hd) as [p ->].
  destruct (Num_pow_positive (s + 1) w1) as [q ->]; [lra |].
  cbn [Num.mul Num.add Num.sub Num.opp Num.exp].
  rewrite Num_min_Fin. eauto.
Qed.

(** A finite new stability gives a valid due date. *)
Lemma Ext_due_defined (w : World.t) (st : Ext.state) (c : Config.t) (x : Q) :
  Ext.in_time w st c ->
  exists dueDate,
    Num.TimeClip
      (Num.add (Num.Fin (inject_Z (World.clock w)))
         (Num.mul
            (Num.mul
               (Num.mul
                  (Num.mul
                     (Num.max
                        (Num.min
                           (Ext.nextInterval (Some (Num.Fin x))
                              (Num.Fin (Config.target_retrievability c)))
                           (Num.Fin (Config.maximum_interval_days c)))
                        (Num.Fin 1))
                     (Num.Fin 24))
                  (Num.Fin 60))
               (Num.Fin 60))
            (Num.Fin 1000))) = Some dueDate.
Proof.
  intros (Hnow & Hmax & _).
  set (T := Config.target_retrievability c). set (m := Config.maximum_interval_days c) in *.
  assert (Hraw : Ext.nextInterval (Some (Num.Fin x)) (Num.Fin T) = Num.PInf \/
                 exists r, Ext.nextInterval (Some (Num.Fin x)) (Num.Fin T) = Num.Fin r).
  { unfold Ext.nextInterval. cbv [Num.le].
    destruct (Qle_bool x 0) eqn:Ex; [right; eauto |].
    apply Qle_bool_false in Ex.
    cbn [Num.mul]. unfold Num.div.
    destruct (Qeq_bool T 0).
    - left. change (Num.scale Num.PInf 1) with Num.PInf.
      cbn [Num.sub Num.opp Num.add Num.mul]. unfold Num.scale.
      assert (H : (9 * x ?= 0) = Gt) by (apply Qgt_alt; lra).
      now rewrite H.
    - right. cbn [Num.sub Num.opp Num.add Num.mul]. eauto. }
  assert (Hi : exists i,
             Num.max (Num.min (Ext.nextInterval (Some (Num.Fin x)) (Num.Fin T)) (Num.Fin m))
               (Num.Fin 1) = Num.Fin i).
  { destruct Hraw as [-> | [r ->]].
    - change (Num.min Num.PInf (Num.Fin m)) with (Num.Fin m).
      rewrite Num_max_Fin. eauto.
    - rewrite Num_min_Fin, Num_max_Fin. eauto. }
  destruct Hi as [i Hi]. rewrite Hi.
  destruct (Ext_interval_Fin _ m i Hi) as (_ & _ & H1 & Hle & Hlt).
  cbn [Num.mul Num.add Num.TimeClip].
  assert (Hbound : i <= JS.Math_max m 1).
  { unfold JS.Math_max. destruct (Qlt_le_dec m 1) as [Hm | Hm].
    - rewrite (Hlt Hm). apply Q.le_max_r.
    - eapply Qle_trans; [apply (Hle Hm) | apply Q.le_max_l]. }
  assert (H0 : 0 <= inject_Z (World.clock w)).
  { change 0 with (inject_Z 0). now rewrite <- Zle_Qle. }
  unfold msPerDay, JS.maxTime in *.
  eexists. apply TimeClip_in_range; unfold JS.maxTime; lra.
Qed.

(** [processReview] returns a state for a new topic and for a steady
    one, under 15 weights and in time. *)
Lemma Ext_processReview_returns
  (w : World.t) (st : Ext.state) (g : Q) (c : Config.t) :
  Ext.tag st = new \/ Ext.steady st ->
  (15 <= length (Config.weights c))%nat ->
  is_grade g ->
  Ext.in_time w st c ->
  exists st', Ext.processReview Math_exp Math_pow w st g (Some c) = (Some st', w).
Proof.
  intros Hst Hlen Hg Htime.
  assert (Hnew : exists x, Ext.initialStability g (Config.weights c) = Num.Fin x).
  { unfold Ext.initialStability, Ext.index.
    destruct (initialStability_defined g (Config.weights c) Hg) as [x Hx]; [lia |].
    unfold initialStability in Hx. rewrite Hx. now exists x. }
  destruct Hnew as [x0 Hx0].
  unfold Ext.processReview.
  destruct (Ext.tag st) eqn:Etag.
  - destruct (Ext_due_defined w st c x0 Htime) as [dueDate Hdue].
    destruct (Qeq_bool g 1); cbv [Ext.stability]; rewrite Hx0, Hdue; eauto.
  - destruct Hst as [H | (s & d & Hs & Hspos & Hd & Hdpos)]; [discriminate |].
    destruct (Ext_currentR_Fin (World.clock w) st s Hs Hspos (proj2 (proj2 Htime)))
      as [r ->].
    rewrite Hs, Hd. cbn [Num.ToNumber].
    destruct (Ext_updateStabilitySuccess_Fin s d r g (Config.weights c) Hspos Hlen)
      as [xs ->].
    destruct (Ext_updateStabilityFailure_Fin s d r (Config.weights c) Hspos Hdpos Hlen)
      as [xf ->].
    destruct (Ext_due_defined w st c xs Htime) as [ds Hds].
    destruct (Ext_due_defined w st c xf Htime) as [df Hdf].
    destruct (Qeq_bool g 1); cbv [Ext.stability]; [rewrite Hdf | rewrite Hds]; eauto.
  - destruct Hst as [H | (s & d & Hs & Hspos & Hd & Hdpos)]; [discriminate |].
    destruct (Ext_currentR_Fin (World.clock w) st s Hs Hspos (proj2 (proj2 Htime)))
      as [r ->].
    rewrite Hs, Hd. cbn [Num.ToNumber].
    destruct (Ext_updateStabilitySuccess_Fin s d r g (Config.weights c) Hspos Hlen)
      as [xs ->].
    destruct (Ext_updateStabilityFailure_Fin s d r (Config.weights c) Hspos Hdpos Hlen)
      as [xf ->].
    destruct (Ext_due_defined w st c xs Htime) as [ds Hds].
    destruct (Ext_due_defined w st c xf Htime) as [df Hdf].
    destruct (Qeq_bool g 1); cbv [Ext.stability]; [rewrite Hdf | rewrite Hds]; eauto.
  - destruct Hst as [H | (s & d & Hs & Hspos & Hd & Hdpos)]; [discriminate |].
    destruct (Ext_currentR_Fin (World.clock w) st s Hs Hspos (proj2 (proj2 Htime)))
      as [r ->].
    rewrite Hs, Hd. cbn [Num.ToNumber].
    destruct (Ext_updateStabilitySuccess_Fin s d r g (Config.weights c) Hspos Hlen)
      as [xs ->].
    destruct (Ext_updateStabilityFailure_Fin s d r (Config.weights c) Hspos Hdpos Hlen)
      as [xf ->].
    destruct (Ext_due_defined w st c xs Htime) as [ds Hds].
    destruct (Ext_due_defined w st c xf Htime) as [df Hdf].
    destruct (Qeq_bool g 1); cbv [Ext.stability]; [rewrite Hdf | rewrite Hds]; eauto.
Qed.

(** C7, as the code has it: the state returned by [processReview] is due
    [interval] days after the time of the review, at the millisecond
    resolution of a [Date]; [interval] is the result of [nextInterval] for
    the new stability, capped at [maximum_interval_days] and then raised
    to 1: it lies between 1 and [maximum_interval_days] when that is at
    least 1, and is 1 when it is below 1.  The review is recorded at the
    time read from the clock and counted once.  A call on a new topic, or
    on one with a positive stability and a positive difficulty, with a
    grade 1 to 4, 15 weights and in time, returns such a state. *)
Theorem processReview_due_after_interval
  (w : World.t) (st : Ext.state) (g : Q) (c : Config.t) :
  0 < Config.maximum_interval_days c ->
  (forall st' w',
     Ext.processReview Math_exp Math_pow w st g (Some c) = (Some st', w') ->
     exists interval dueDate,
       Num.eq (Num.Fin interval)
         (Ext.clamp
            (Ext.nextInterval (Ext.stability st')
               (Num.Fin (Config.target_retrievability c)))
            (Num.Fin 1) (Num.Fin (Config.maximum_interval_days c))) /\
       1 <= interval /\
       (1 <= Config.maximum_interval_days c ->
        interval <= Config.maximum_interval_days c) /\
       (Config.maximum_interval_days c < 1 -> interval == 1) /\
       Ext.due st' = Some dueDate /\
       dueDate = JS.truncate (inject_Z (World.clock w) + interval * 24 * 60 * 60 * 1000) /\
       Qabs (inject_Z dueDate - (inject_Z (World.clock w) + interval * msPerDay)) < 1 /\
       Ext.last_reviewed st' = Some (World.clock w) /\
       Ext.review_count st' = (Ext.review_count st + 1)%Z) /\
  (Ext.tag st = new \/ Ext.steady st ->
   (15 <= length (Config.weights c))%nat ->
   is_grade g ->
   Ext.in_time w st c ->
   exists st', Ext.processReview Math_exp Math_pow w st g (Some c) = (Some st', w)).
Proof.
  intros _. split; [| apply Ext_processReview_returns].
  intros st' w' Hrun.
  apply Ext_processReview_returned in Hrun.
  destruct Hrun as (_ & _ & Hlast & Hcount & _ & s & i & dueDate & Hs & Hi & Hclip & Hdue).
  set (maxInterval := Config.maximum_interval_days c) in *.
  exists i, dueDate.
  destruct (Ext_interval_Fin _ maxInterval i Hi) as (_ & Heq & H1 & Hle & Hlt).
  apply TimeClip_Some in Hclip. destruct Hclip as [Hclip _].
  rewrite Hs.
  repeat split; try assumption.
  rewrite Hclip.
  pose proof (truncate_error (inject_Z (World.clock w) + i * 24 * 60 * 60 * 1000))
    as Herr.
  assert (E : inject_Z (World.clock w) + i * msPerDay
              == inject_Z (World.clock w) + i * 24 * 60 * 60 * 1000).
  { unfold msPerDay. ring. }
  rewrite E. exact Herr.
Qed.

Lemma Num_mul_not_finite_r (x y : Num.t) :
  Num.is_finite y = false -> Num.is_finite (Num.mul x y) = false.
Proof.
  destruct x as [a | | |], y as [b | | |]; intros H; try discriminate H;
    try reflexivity; cbn [Num.mul]; unfold Num.scale; now destruct (a ?= 0).
Qed.

Lemma Num_mul_not_finite_l (x y : Num.t) :
  Num.is_finite x = false -> Num.is_finite (Num.mul x y) = false.
Proof.
  destruct x as [a | | |], y as [b | | |]; intros H; try discriminate H;
    try reflexivity; cbn [Num.mul]; unfold Num.scale; now destruct (b ?= 0).
Qed.

Lemma Num_zero_times_not_finite (x : Num.t) :
  Num.is_finite x = false ->
  Num.mul (Num.Fin 0) (Num.add (Num.Fin 1) x) = Num.NaN.
Proof.
  destruct x; intros H; try discriminate H; reflexivity.
Qed.

(** A stability of 0 after a passed review becomes NaN:
    [Math.pow(0, -w9)] is [Infinity] and [0 * Infinity] is NaN. *)
Lemma Ext_updateStabilitySuccess_zero (d r : Num.t) (g w9 : Q) (ws : list Q) :
  JS.index ws 9 = Some w9 -> 0 < w9 ->
  Ext.updateStabilitySuccess Math_exp Math_pow (Num.Fin 0) d r g ws = Num.NaN.
Proof.
  intros H9 Hpos. unfold Ext.updateStabilitySuccess.
  apply Num_zero_times_not_finite.
  apply Num_mul_not_finite_l, Num_mul_not_finite_r.
  unfold Ext.index. rewrite H9. cbn [Num.of_read Num.opp]. unfold Num.pow.
  assert (H0 : Qeq_bool (- w9) 0 = false) by (apply Qeq_bool_false; lra).
  assert (H1 : Qle_bool 0 (- w9) = false) by (apply Qle_bool_false; lra).
  rewrite H0, H1. reflexivity.
Qed.

(** Such a review throws: the due date is invalid. *)
Lemma Ext_zero_stability_throws
  (w : World.t) (st : Ext.state) (g w9 : Q) (c : Config.t) :
  Ext.tag st <> new ->
  Ext.stability st = Some (Num.Fin 0) ->
  Qeq_bool g 1 = false ->
  JS.index (Config.weights c) 9 = Some w9 -> 0 < w9 ->
  Ext.processReview Math_exp Math_pow w st g (Some c) = (None, w).
Proof.
  intros Htag Hs Hg H9 Hpos. unfold Ext.processReview.
  rewrite Hg, Hs. cbn [Num.ToNumber].
  destruct (Ext.tag st); [now contradiction Htag | ..];
    cbv [Ext.stability];
    rewrite (Ext_updateStabilitySuccess_zero _ _ g w9 _ H9 Hpos);
    reflexivity.
Qed.

End ExtReview.

(** ** The exact engine within the engine on all numbers *)

Lemma truncate_floor (q : Q) :
  JS.truncate q = if Qle_bool 0 q then Qfloor q else (- Qfloor (- q))%Z.
Proof.
  destruct q as [n d]. unfold JS.truncate, Qle_bool, Qfloor, Qopp. cbn [Qnum Qden].
  rewrite Z.mul_0_l, Z.mul_1_r.
  destruct (Z.leb_spec 0 n) as [H | H].
  - apply Z.quot_div_nonneg; lia.
  - rewrite <- (Z.opp_involutive n) at 1. rewrite Z.quot_opp_l by lia.
    rewrite Z.quot_div_nonneg by lia. reflexivity.
Qed.

Lemma truncate_comp (p q : Q) : p == q -> JS.truncate p = JS.truncate q.
Proof.
  intros H. rewrite !truncate_floor.
  rewrite (Qleb_comp 0 0 (Qeq_refl 0) p q H).
  destruct (Qle_bool 0 q); [now rewrite H | now rewrite H].
Qed.

Lemma TimeClip_comp (p q : Q) : p == q -> JS.TimeClip p = JS.TimeClip q.
Proof.
  intros H. unfold JS.TimeClip. rewrite (truncate_comp p q H). now rewrite H.
Qed.

Lemma Qmin_if (a b : Q) : Qmin a b = if Qle_bool a b then a else b.
Proof.
  unfold Qmin, GenericMinMax.gmin.
  destruct (Qle_bool a b) eqn:E.
  - apply Qle_bool_iff in E. unfold Qle in E. unfold Qcompare.
    destruct (Z.compare_spec (Qnum a * QDen b) (Qnum b * QDen a)); try reflexivity. lia.
  - apply Qle_bool_false in E. apply Qgt_alt in E. now rewrite E.
Qed.

Lemma Qmax_if (a b : Q) : Qmax a b == if Qle_bool a b then b else a.
Proof.
  destruct (Qle_bool a b) eqn:E.
  - apply Qle_bool_iff in E. now apply Q.max_r.
  - apply Qle_bool_false in E. apply Q.max_l. lra.
Qed.

Lemma index_agrees (ws : list Q) (i x : Q) :
  JS.index ws i = Some x -> Ext.index ws i = Num.Fin x.
Proof.
  intros H. unfold Ext.index. now rewrite H.
Qed.

Lemma clamp_agrees (v lo hi : Q) :
  exists d, Ext.clamp (Num.Fin v) (Num.Fin lo) (Num.Fin hi) = Num.Fin d /\ d == clamp v lo hi.
Proof.
  unfold Ext.clamp, clamp, JS.Math_max, JS.Math_min.
  rewrite Num_min_Fin, Num_max_Fin. eexists. split; [reflexivity |].
  rewrite <- Qmin_if. symmetry. apply Qmax_if.
Qed.

Lemma initialDifficulty_agrees (g : Q) (ws : list Q) (d : Q) :
  initialDifficulty g ws = Some d ->
  exists d', Ext.initialDifficulty g ws = Num.Fin d' /\ d' == d.
Proof.
  unfold initialDifficulty, Ext.initialDifficulty. intros H.
  inv_bind H. inv_bind H. injection H as <-.
  rewrite (index_agrees _ _ _ E), (index_agrees _ _ _ E0).
  cbn [Num.mul Num.sub Num.add Num.opp].
  apply clamp_agrees.
Qed.

Lemma updateDifficulty_agrees (D g : Q) (ws : list Q) (d : Q) :
  updateDifficulty D g ws = Some d ->
  exists d', Ext.updateDifficulty (Num.Fin D) g ws = Num.Fin d' /\ d' == d.
Proof.
  unfold updateDifficulty, Ext.updateDifficulty. intros H.
  inv_bind H. inv_bind H. inv_bind H. injection H as <-.
  rewrite (index_agrees _ _ _ E), (index_agrees _ _ _ E0), (index_agrees _ _ _ E1).
  cbn [Num.mul Num.sub Num.add Num.opp].
  apply clamp_agrees.
Qed.

Lemma retrievability_agrees (s elapsed r : Q) :
  retrievability (Some s) elapsed = Some r ->
  Ext.retrievability (Some (Num.Fin s)) (Num.Fin elapsed) = Num.Fin r.
Proof.
  unfold retrievability, Ext.retrievability. cbv [Num.le].
  destruct (Qle_bool s 0) eqn:Es; [now intros [= <-] |].
  apply Qle_bool_false in Es.
  unfold JS.Math_pow_int. change (-1 <? 0)%Z with true. cbn [andb].
  destruct (Qeq_bool (1 + elapsed / (9 * s)) 0) eqn:Eb; [discriminate |].
  intros [= <-].
  cbn [Num.mul]. unfold Num.div.
  assert (H9 : Qeq_bool (9 * s) 0 = false) by (apply Qeq_bool_false; lra).
  rewrite H9. cbn [Num.add]. unfold Num.reciprocal. rewrite Eb. reflexivity.
Qed.

Lemma nextInterval_agrees (s T raw : Q) :
  nextInterval (Some s) T = Some raw ->
  Ext.nextInterval (Some (Num.Fin s)) (Num.Fin T) = Num.Fin raw.
Proof.
  unfold nextInterval, Ext.nextInterval. cbv [Num.le].
  destruct (Qle_bool s 0); [now intros [= <-] |].
  unfold JS.div. intros H. inv_bind H. injection H as <-.
  destruct (Qeq_bool T 0) eqn:ET; [discriminate |]. injection E as <-.
  cbn [Num.mul]. unfold Num.div. rewrite ET. reflexivity.
Qed.

Lemma currentR_agrees (s elapsed r : Q) :
  (if JS.truthy (Some s) then retrievability (Some s) elapsed else Some 0) = Some r ->
  (if Num.truthy (Some (Num.Fin s))
   then Ext.retrievability (Some (Num.Fin s)) (Num.Fin elapsed)
   else Num.Fin 0) = Num.Fin r.
Proof.
  cbn [JS.truthy Num.truthy].
  destruct (negb (Qeq_bool s 0)); [apply retrievability_agrees | now intros [= <-]].
Qed.

Lemma due_agrees (now : Z) (raw m : Q) (dueDate : Z) :
  JS.TimeClip
    (inject_Z now + JS.Math_max (JS.Math_min raw m) 1 * 24 * 60 * 60 * 1000)
  = Some dueDate ->
  Num.TimeClip
    (Num.add (Num.Fin (inject_Z now))
       (Num.mul
          (Num.mul
             (Num.mul
                (Num.mul (Num.max (Num.min (Num.Fin raw) (Num.Fin m)) (Num.Fin 1))
                   (Num.Fin 24))
                (Num.Fin 60))
             (Num.Fin 60))
          (Num.Fin 1000))) = Some dueDate.
Proof.
  intros H. rewrite Num_min_Fin, Num_max_Fin.
  cbn [Num.mul Num.add Num.TimeClip].
  rewrite <- H. apply TimeClip_comp.
  unfold JS.Math_max, JS.Math_min. rewrite Qmax_if, Qmin_if. reflexivity.
Qed.

(** The common end of the branches of [processReview]: the interval, the
    due date and the fields of the two states. *)
Ltac agree_finish Hraw Hdue Hd :=
  cbn [Fsrs.stability Fsrs.set_state Fsrs.set_lapses Fsrs.set_difficulty
       Fsrs.set_stability Fsrs.set_review_count Fsrs.set_last_reviewed
       Fsrs.set_due Fsrs.state Fsrs.difficulty Fsrs.due Fsrs.last_reviewed
       Fsrs.review_count Fsrs.lapses] in Hraw, Hdue |- *;
  cbv [Ext.stability];
  rewrite (nextInterval_agrees _ _ _ Hraw), (due_agrees _ _ _ _ Hdue);
  (eexists; split; [reflexivity |]);
  unfold same_state, same_number, of_exact, Num.eq;
  cbn [Fsrs.stability Fsrs.set_state Fsrs.set_lapses Fsrs.set_difficulty
       Fsrs.set_stability Fsrs.set_review_count Fsrs.set_last_reviewed
       Fsrs.set_due Fsrs.state Fsrs.difficulty Fsrs.due Fsrs.last_reviewed
       Fsrs.review_count Fsrs.lapses option_map
       Ext.tag Ext.stability Ext.difficulty Ext.due Ext.last_reviewed
       Ext.review_count Ext.lapses];
  repeat split; try reflexivity; symmetry; exact Hd.

Section Agreement.

Variable Math_exp : Q -> Q.
Variable Math_pow : Q -> Q -> Q.

(** [Math.pow(x, 0)] is 1. *)
Hypothesis Math_pow_0 : forall b e, Qeq_bool e 0 = true -> Math_pow b e = 1.

Lemma pow_agrees (b e : Q) :
  0 < b -> Num.pow Math_pow (Num.Fin b) (Num.Fin e) = Num.Fin (Math_pow b e).
Proof.
  intros Hb. unfold Num.pow.
  destruct (Qeq_bool e 0) eqn:Ee; [now rewrite Math_pow_0 |].
  assert (H0 : Qeq_bool b 0 = false) by (apply Qeq_bool_false; lra).
  assert (H1 : Qle_bool 0 b = true) by (apply Qle_bool_iff; lra).
  now rewrite H0, H1.
Qed.

Lemma updateStabilitySuccess_agrees (s d r g : Q) (ws : list Q) (x : Q) :
  0 < s ->
  updateStabilitySuccess Math_exp Math_pow s d r g ws = Some x ->
  Ext.updateStabilitySuccess Math_exp Math_pow (Num.Fin s) (Num.Fin d) (Num.Fin r) g ws
  = Num.Fin x.
Proof.
  intros Hs. unfold updateStabilitySuccess, Ext.updateStabilitySuccess. intros H.
  inv_bind H. inv_bind H. inv_bind H. injection H as <-.
  rewrite (index_agrees _ _ _ E), (index_agrees _ _ _ E0), (index_agrees _ _ _ E1).
  cbn [Num.opp]. rewrite (pow_agrees s _ Hs).
  reflexivity.
Qed.

Lemma updateStabilityFailure_agrees (s d r : Q) (ws : list Q) (x : Q) :
  0 < s -> 0 < d ->
  updateStabilityFailure Math_exp Math_pow s d r ws = Some x ->
  Ext.updateStabilityFailure Math_exp Math_pow (Num.Fin s) (Num.Fin d) (Num.Fin r) ws
  = Num.Fin x.
Proof.
  intros Hs Hd. unfold updateStabilityFailure, Ext.updateStabilityFailure. intros H.
  inv_bind H. inv_bind H. inv_bind H. inv_bind H. injection H as <-.
  rewrite (index_agrees _ _ _ E), (index_agrees _ _ _ E0), (index_agrees _ _ _ E1),
    (index_agrees _ _ _ E2).
  cbn [Num.opp Num.add]. rewrite (pow_agrees d _ Hd).
  rewrite (pow_agrees (s + 1)) by lra.
  cbn [Num.mul Num.add Num.sub Num.opp Num.exp].
  rewrite Num_min_Fin. unfold JS.Math_min. rewrite Qmin_if. reflexivity.
Qed.

(** A review of a topic that is not new. *)
Ltac agree_later g Hst HR Hmid Hraw Hdue :=
  let s := fresh "s" in
  let d := fresh "d" in
  let Hs := fresh "Hs" in
  let Hspos := fresh "Hspos" in
  let Hd := fresh "Hd" in
  let Hdpos := fresh "Hdpos" in
  let d' := fresh "d'" in
  let Hd' := fresh "Hd'" in
  let Ed := fresh "Ed" in
  let Es := fresh "Es" in
  let x := fresh "x" in
  destruct Hst as [Hst | (s & d & Hs & Hspos & Hd & Hdpos)]; [discriminate Hst |];
  rewrite Hs in HR; rewrite Hs, Hd in Hmid; rewrite Hs, Hd;
  cbn [option_map JS.ToNumber Num.ToNumber] in HR, Hmid |- *;
  rewrite (currentR_agrees _ _ _ HR);
  apply bind_Some in Hmid; destruct Hmid as (x & Ed & Hmid); cbv beta zeta in Hmid;
  destruct (updateDifficulty_agrees _ _ _ _ Ed) as (d' & -> & Hd');
  destruct (Qeq_bool g 1);
    apply bind_Some in Hmid; destruct Hmid as (? & Es & Hmid); cbv beta zeta in Hmid;
    injection Hmid as <-;
    [ rewrite (updateStabilityFailure_agrees _ _ _ _ _ Hspos Hdpos Es)
    | rewrite (updateStabilitySuccess_agrees _ _ _ _ _ _ Hspos Es) ];
    agree_finish Hraw Hdue Hd'.

(** Where the exact engine returns a state for a new topic, or for one
    with a positive stability and a positive difficulty, the engine on
    all numbers returns the same state. *)
Lemma processReview_agrees
  (w w' : World.t) (st st' : Fsrs.t) (g : Q) (c : Config.t) :
  Fsrs.state st = new \/ exact_steady st ->
  processReview Math_exp Math_pow w st g (Some c) = (Some st', w') ->
  exists e',
    Ext.processReview Math_exp Math_pow w (of_exact st) g (Some c) = (Some e', w') /\
    same_state (of_exact st') e'.
Proof.
  intros Hst. unfold processReview. intros H. injection H as H <-.
  inv_bind H. rename x into currentR. rename E into HR.
  inv_bind H. rename x into mid. rename E into Hmid.
  inv_bind H. rename x into raw. rename E into Hraw.
  inv_bind H. rename x into dueDate. rename E into Hdue.
  injection H as <-.
  unfold Ext.processReview.
  cbn [of_exact Ext.tag Ext.stability Ext.difficulty Ext.due Ext.last_reviewed
       Ext.review_count Ext.lapses].
  destruct (Fsrs.state st) eqn:Etag.
  - clear Hst HR. inv_bind Hmid. rename x into s. inv_bind Hmid. rename x into d.
    unfold initialStability in E. unfold Ext.initialStability.
    rewrite (index_agrees _ _ _ E).
    destruct (initialDifficulty_agrees _ _ _ E0) as (d' & -> & Hd).
    destruct (Qeq_bool g 1); injection Hmid as <-; agree_finish Hraw Hdue Hd.
  - agree_later g Hst HR Hmid Hraw Hdue.
  - agree_later g Hst HR Hmid Hraw Hdue.
  - agree_later g Hst HR Hmid Hraw Hdue.
Qed.

End Agreement.

(** ** The engine on all numbers at concrete inputs *)

Example ext_first_review_good :
  Ext.processReview exp_taylor pow_floor world0 Ext.createDefaultFsrsState 3
    (Some DEFAULT_CONFIG) = (Some ext_good, world0).
Proof. vm_compute. reflexivity. Defined.

Example ext_second_review_lapse :
  Ext.processReview exp_taylor pow_floor world_later ext_good 1 None
  = (Some ext_lapse, world_later).
Proof. vm_compute. reflexivity. Defined.

Example ext_short_weights :
  Ext.processReview exp_taylor pow_floor world0 Ext.createDefaultFsrsState 3
    (Some short_config) = (Some nan_state, world0).
Proof. vm_compute. reflexivity. Defined.

Example ext_half_day_maximum :
  Ext.processReview exp_taylor pow_floor world0 Ext.createDefaultFsrsState 3
    (Some half_day_config) = (Some ext_half_day, world0).
Proof. vm_compute. reflexivity. Defined.

(** A review of a topic whose stability is 0 throws. *)
Example ext_zero_stability :
  Ext.processReview exp_taylor pow_floor world_later zero_stability 3
    (Some DEFAULT_CONFIG) = (None, world_later).
Proof.
  apply (Ext_zero_stability_throws exp_taylor pow_floor world_later zero_stability
           3 0.14 DEFAULT_CONFIG); try reflexivity.
  discriminate.
Defined.

Lemma ext_lapse_reachable : Ext.reachable exp_taylor pow_floor weights_to_5 ext_lapse.
Proof.
  apply (Ext.reachable_review exp_taylor pow_floor weights_to_5 ext_good ext_lapse
           world_later world_later 1 None).
  - apply (Ext.reachable_review exp_taylor pow_floor weights_to_5
             Ext.createDefaultFsrsState ext_good world0 world0 3 (Some DEFAULT_CONFIG)).
    + apply Ext.reachable_default.
    + exact is_grade_3.
    + unfold weights_to_5. simpl. lia.
    + exact ext_first_review_good.
  - left. reflexivity.
  - unfold weights_to_5. simpl. lia.
  - exact ext_second_review_lapse.
Defined.

Lemma ext_world0_in_time : Ext.in_time world0 Ext.createDefaultFsrsState DEFAULT_CONFIG.
Proof.
  split; [discriminate |]. split; [discriminate |].
  intros t H. discriminate H.
Defined.

(** Under a weights vector of 4 entries one review graded 3 of the
    default state returns a state in [review] whose difficulty is NaN. *)
Lemma short_weights_break_invariant :
  Ext.reachable exp_taylor pow_floor any_config nan_state /\
  Ext.tag nan_state = review /\
  Ext.difficulty nan_state = Some Num.NaN /\
  ~ (exists d, Ext.difficulty nan_state = Some (Num.Fin d) /\ 1 <= d /\ d <= 10).
Proof.
  split.
  - apply (Ext.reachable_review exp_taylor pow_floor any_config
             Ext.createDefaultFsrsState nan_state world0 world0 3 (Some short_config)).
    + apply Ext.reachable_default.
    + exact is_grade_3.
    + exact I.
    + exact ext_short_weights.
  - split; [reflexivity |]. split; [reflexivity |].
    intros (d & H & _). discriminate H.
Qed.

Lemma reachable_invariant_witness :
  Ext.reachable exp_taylor pow_floor weights_to_5 ext_lapse /\
  Ext.tag ext_lapse <> new /\
  (exists s, Ext.stability ext_lapse = Some s /\ s <> Num.NaN) /\
  (exists d, Ext.difficulty ext_lapse = Some (Num.Fin d) /\ 1 <= d /\ d <= 10).
Proof.
  split; [exact ext_lapse_reachable |]. split; [discriminate |].
  apply (reachable_invariant exp_taylor pow_floor ext_lapse);
    [exact ext_lapse_reachable | discriminate].
Defined.

(** With a maximum of half a day the topic is due a whole day after the
    review: no interval between 1 and the maximum gives this due date. *)
Lemma interval_above_maximum :
  0 < Config.maximum_interval_days half_day_config /\
  Config.maximum_interval_days half_day_config < 1 /\
  Ext.processReview exp_taylor pow_floor world0 Ext.createDefaultFsrsState 3
    (Some half_day_config) = (Some ext_half_day, world0) /\
  Ext.due ext_half_day = Some (World.clock world0 + 86400000)%Z /\
  (forall interval,
     1 <= interval -> interval <= Config.maximum_interval_days half_day_config ->
     Ext.due ext_half_day
     <> Some (JS.truncate (inject_Z (World.clock world0) + interval * msPerDay))).
Proof.
  split; [reflexivity |]. split; [reflexivity |].
  split; [exact ext_half_day_maximum |].
  split; [reflexivity |].
  intros interval H1 Hmax. exfalso.
  unfold half_day_config in Hmax. cbn [Config.maximum_interval_days] in Hmax. lra.
Qed.

Lemma processReview_due_after_interval_witness :
  0 < Config.maximum_interval_days DEFAULT_CONFIG /\
  Ext.processReview exp_taylor pow_floor world0 Ext.createDefaultFsrsState 3
    (Some DEFAULT_CONFIG) = (Some ext_good, world0) /\
  Ext.last_reviewed ext_good = Some (World.clock world0) /\
  Ext.review_count ext_good = (Ext.review_count Ext.createDefaultFsrsState + 1)%Z /\
  exists st',
    Ext.processReview exp_taylor pow_floor world0 Ext.createDefaultFsrsState 3
      (Some DEFAULT_CONFIG) = (Some st', world0).
Proof.
  assert (H0 : 0 < Config.maximum_interval_days DEFAULT_CONFIG) by reflexivity.
  destruct (processReview_due_after_interval exp_taylor pow_floor world0
              Ext.createDefaultFsrsState 3 DEFAULT_CONFIG H0) as [Hprop Hex].
  split; [exact H0 |]. split; [exact ext_first_review_good |].
  destruct (Hprop ext_good world0 ext_first_review_good)
    as (interval & dueDate & _ & _ & _ & _ & _ & _ & _ & Hlast & Hcount).
  split; [exact Hlast |]. split; [exact Hcount |].
  assert (Hlen : (15 <= length (Config.weights DEFAULT_CONFIG))%nat) by (simpl; lia).
  exact (Hex (or_introl eq_refl) Hlen is_grade_3 ext_world0_in_time).
Defined.
